(** * exm: constraint modelling and CSP assembly

    A shallow embedding of the core of [exm.py] and of the classes it
    relies on ([exmconstraint.py], [exmconstraints.py], [exmvariable.py],
    [exmvalue.py], [exmpoolvar.py]).

    Conventions of the embedding:
    - a Python [str] is a list of characters whose code points are below
      256 ([str]); the classes [\s], [\d], [[a-zA-Z]] and [.] of the [re]
      module are the ones Python uses on that range;
    - Python integers are [Z];
    - a function that may raise [ValueError] returns an [option];
    - code that logs through [LOGGER] or halts runs in the monad [M]:
      the state is the list of records handed to the logger, the result
      is either a value or the exception that stops the run;
    - the six operator symbols captured by the regular expressions are the
      enumerated type [Operator]. *)

From Stdlib Require Import ZArith List Ascii String Bool Lia.
Import ListNotations.
Open Scope Z_scope.

Ltac Zify.zify_post_hook ::= Z.div_mod_to_equations.

(** ** Strings *)

Definition str := list ascii.

Definition txt (s : string) : str := list_ascii_of_string s.
Coercion txt : string >-> str.

Definition code (c : ascii) : Z := Z.of_N (N_of_ascii c).

Definition chr_eqb (a b : ascii) : bool := code a =? code b.

Fixpoint str_eqb (a b : str) : bool :=
  match a, b with
  | [], [] => true
  | x :: a', y :: b' => chr_eqb x y && str_eqb a' b'
  | _, _ => false
  end.

(** [str.isspace] and the class [\s] on code points below 256. *)
Definition is_space (c : ascii) : bool :=
  let n := code c in
  ((9 <=? n) && (n <=? 13)) || ((28 <=? n) && (n <=? 32))
  || (n =? 133) || (n =? 160).

(** The class [\d] on code points below 256. *)
Definition is_digit (c : ascii) : bool :=
  let n := code c in (48 <=? n) && (n <=? 57).

(** The class [[a-zA-Z]]. *)
Definition is_letter (c : ascii) : bool :=
  let n := code c in
  ((65 <=? n) && (n <=? 90)) || ((97 <=? n) && (n <=? 122)).

(** The class [.] (no DOTALL flag): everything but a line feed. *)
Definition is_dot (c : ascii) : bool := negb (code c =? 10).

(** The class [[/-]]. *)
Definition is_datesep (c : ascii) : bool :=
  (code c =? 47) || (code c =? 45).

Definition digit_val (c : ascii) : Z := code c - 48.

(** [int(s)] on a string of decimal digits. *)
Definition int_of_digits (s : str) : Z :=
  fold_left (fun acc c => acc * 10 + digit_val c) s 0.

(** The decimal digit that prints [n mod 10]. *)
Definition digit_char (n : Z) : ascii :=
  ascii_of_N (Z.to_N (48 + n mod 10)).

(** The conversions [%02d] and [%04d] of the [str] of dates and times. *)
Definition fmt2 (n : Z) : str := [digit_char (n / 10); digit_char n].
Definition fmt4 (n : Z) : str :=
  [digit_char (n / 1000); digit_char (n / 100); digit_char (n / 10);
   digit_char n].

(** [str(n)] for an integer that is not negative (cell rows). *)
Fixpoint str_of_pos_fuel (fuel : nat) (n : Z) (acc : str) : str :=
  match fuel with
  | O => acc
  | S fuel' =>
      if n <? 10 then digit_char n :: acc
      else str_of_pos_fuel fuel' (n / 10) (digit_char n :: acc)
  end.

Definition str_of_int (n : Z) : str :=
  str_of_pos_fuel (S (Z.to_nat (Z.log2 n))) n [].

(** [s.strip()] is empty exactly when every character is a space. *)
Definition is_blank (s : str) : bool := forallb is_space s.

(** [RE_SEP_CONSTRAINT.split(s)]: the pieces between commas. *)
Fixpoint split_commas_aux (cur : str) (s : str) : list str :=
  match s with
  | [] => [cur]
  | c :: s' =>
      if code c =? 44 then cur :: split_commas_aux [] s'
      else split_commas_aux (cur ++ [c]) s'
  end.

Definition split_commas (s : str) : list str := split_commas_aux [] s.

(** ** Operators *)

Inductive Operator := OpEq | OpNe | OpLt | OpLe | OpGt | OpGe.

Definition op_symbol (o : Operator) : str :=
  match o with
  | OpEq => (txt "=") | OpNe => (txt "!=")
  | OpLt => (txt "<") | OpLe => (txt "<=")
  | OpGt => (txt ">") | OpGe => (txt ">=")
  end.

Definition Operator_eqb (a b : Operator) : bool :=
  match a, b with
  | OpEq, OpEq | OpNe, OpNe | OpLt, OpLt
  | OpLe, OpLe | OpGt, OpGt | OpGe, OpGe => true
  | _, _ => false
  end.

(** ** Backtracking matchers

    Every piece of a pattern is a function of the text still to be read and
    of a continuation for the rest of the pattern.  Alternatives are tried
    in the order of the [re] module: a greedy repetition first tries to take
    one more character, and gives it back when the rest of the pattern
    fails. *)

Section Matchers.
Context {R : Type}.

Definition orelse (a b : option R) : option R :=
  match a with Some r => Some r | None => b end.

(** A literal text. *)
Fixpoint re_lit (p : str) (s : str) (k : str -> option R) : option R :=
  match p with
  | [] => k s
  | c :: p' =>
      match s with
      | d :: s' => if chr_eqb c d then re_lit p' s' k else None
      | [] => None
      end
  end.

(** One character of a class. *)
Definition re_one (cls : ascii -> bool) (s : str)
  (k : ascii -> str -> option R) : option R :=
  match s with
  | c :: s' => if cls c then k c s' else None
  | [] => None
  end.

(** A starred class, greedy; [acc] is the text the repetition has taken. *)
Fixpoint re_star (cls : ascii -> bool) (acc : str) (s : str)
  (k : str -> str -> option R) : option R :=
  match s with
  | c :: s' =>
      if cls c then orelse (re_star cls (acc ++ [c]) s' k) (k acc s)
      else k acc s
  | [] => k acc []
  end.

(** A class repeated once or more, greedy. *)
Definition re_plus (cls : ascii -> bool) (s : str)
  (k : str -> str -> option R) : option R :=
  re_one cls s (fun c s' => re_star cls [c] s' k).

(** Any run of spaces, "\s*". *)
Definition re_spaces (s : str) (k : str -> option R) : option R :=
  re_star is_space [] s (fun _ s' => k s').

(** The group "(?P<operator>(=|!=|<|<=|>|>=)?)": the alternatives in
    their order, then the empty text. *)
Definition re_operator (s : str)
  (k : option Operator -> str -> option R) : option R :=
  orelse (re_lit (op_symbol OpEq) s (k (Some OpEq)))
  (orelse (re_lit (op_symbol OpNe) s (k (Some OpNe)))
  (orelse (re_lit (op_symbol OpLt) s (k (Some OpLt)))
  (orelse (re_lit (op_symbol OpLe) s (k (Some OpLe)))
  (orelse (re_lit (op_symbol OpGt) s (k (Some OpGt)))
  (orelse (re_lit (op_symbol OpGe) s (k (Some OpGe)))
          (k None s)))))).

(** [\d{4}]. *)
Definition re_digits4 (s : str) (k : str -> str -> option R) : option R :=
  re_one is_digit s (fun a s =>
  re_one is_digit s (fun b s =>
  re_one is_digit s (fun c s =>
  re_one is_digit s (fun d s => k [a; b; c; d] s)))).

(** [\d{1,2}], greedy. *)
Definition re_digits12 (s : str) (k : str -> str -> option R) : option R :=
  re_one is_digit s (fun a s1 =>
    orelse (re_one is_digit s1 (fun b s2 => k [a; b] s2)) (k [a] s1)).

End Matchers.

(** ** The patterns of [exm.py] *)

(** What a match of [RE_UNI_DATE_CONSTRAINT] holds: the named groups and the
    text after the end of the match. *)
Record DateMatch := {
  dm_operator : option Operator;
  dm_year : str;
  dm_month : str;
  dm_day : str;
  dm_rest : str
}.

(** The pattern
    "^\s*(?P<operator>(=|!=|<|<=|>|>=)?)\s*(?P<year>\d{4})[/-](?P<month>\d{1,2})[/-](?P<day>\d{1,2})". *)
Definition RE_UNI_DATE_CONSTRAINT (s : str) : option DateMatch :=
  re_spaces s (fun s =>
  re_operator s (fun op s =>
  re_spaces s (fun s =>
  re_digits4 s (fun y s =>
  re_one is_datesep s (fun _ s =>
  re_digits12 s (fun m s =>
  re_one is_datesep s (fun _ s =>
  re_digits12 s (fun d s =>
    Some {| dm_operator := op; dm_year := y; dm_month := m;
            dm_day := d; dm_rest := s |})))))))).

Inductive Qualifier := AM | PM.

Record TimeMatch := {
  tm_operator : option Operator;
  tm_hour : str;
  tm_minutes : str;
  tm_seconds : option str;      (* the digits after the colon, if any *)
  tm_qualifier : option Qualifier;
  tm_rest : str
}.

(** The group "(?P<seconds>(:\d{1,2})?)". *)
Definition re_seconds {R} (s : str) (k : option str -> str -> option R)
  : option R :=
  orelse (re_lit (txt ":") s (fun s => re_digits12 s (fun d s => k (Some d) s)))
         (k None s).

(** The group "(?P<qualifier>(AM|PM)?)". *)
Definition re_qualifier {R} (s : str)
  (k : option Qualifier -> str -> option R) : option R :=
  orelse (re_lit (txt "AM") s (k (Some AM)))
  (orelse (re_lit (txt "PM") s (k (Some PM)))
          (k None s)).

(** The pattern
    "^\s*(?P<operator>(=|!=|<|<=|>|>=)?)\s*(?P<hour>\d{1,2}):(?P<minutes>\d{1,2})(?P<seconds>(:\d{1,2})?)\s*(?P<qualifier>(AM|PM)?)". *)
Definition RE_UNI_TIME_CONSTRAINT (s : str) : option TimeMatch :=
  re_spaces s (fun s =>
  re_operator s (fun op s =>
  re_spaces s (fun s =>
  re_digits12 s (fun h s =>
  re_lit (txt ":") s (fun s =>
  re_digits12 s (fun m s =>
  re_seconds s (fun sec s =>
  re_spaces s (fun s =>
  re_qualifier s (fun q s =>
    Some {| tm_operator := op; tm_hour := h; tm_minutes := m;
            tm_seconds := sec; tm_qualifier := q; tm_rest := s |}))))))))).

Record BiMatch := {
  bm_operator : option Operator;
  bm_sheet : option str;        (* with its leading dollar *)
  bm_cell : str;
  bm_rest : str
}.

(** The group "(?P<cell>[a-zA-Z]+\d+)". *)
Definition re_cell {R} (s : str) (k : str -> str -> option R) : option R :=
  re_plus is_letter s (fun l s =>
  re_plus is_digit s (fun d s => k (l ++ d) s)).

(** The group "((?P<sheet>\$.+)\.)?". *)
Definition re_sheet {R} (s : str) (k : option str -> str -> option R)
  : option R :=
  orelse
    (re_lit (txt "$") s (fun s =>
     re_plus is_dot s (fun x s =>
     re_lit (txt ".") s (fun s => k (Some ("$"%char :: x)) s))))
    (k None s).

(** The pattern
    "^\s*(?P<operator>(=|!=|<|<=|>|>=)?)\s*((?P<sheet>\$.+)\.)?(?P<cell>[a-zA-Z]+\d+)". *)
Definition RE_BICONSTRAINT (s : str) : option BiMatch :=
  re_spaces s (fun s =>
  re_operator s (fun op s =>
  re_spaces s (fun s =>
  re_sheet s (fun sh s =>
  re_cell s (fun c s =>
    Some {| bm_operator := op; bm_sheet := sh; bm_cell := c;
            bm_rest := s |}))))).

Record CellMatch := {
  cm_sheet : str;
  cm_column : str;
  cm_row : str
}.

(** The pattern of cell names: "^\s*\$", then the group [sheet], any
    run of characters (greedy), then "\.(?P<column>[a-zA-Z]+)(?P<row>\d+)". *)
Definition RE_CELLNAME (s : str) : option CellMatch :=
  re_spaces s (fun s =>
  re_lit (txt "$") s (fun s =>
  re_star is_dot [] s (fun sh s =>
  re_lit (txt ".") s (fun s =>
  re_plus is_letter s (fun c s =>
  re_plus is_digit s (fun r _ =>
    Some {| cm_sheet := sh; cm_column := c; cm_row := r |})))))).
(** ** Dates and times

    The fields and the checks of Python's [datetime] module, at the
    resolution of one second (the parser builds no finer time). *)

Record date := mkdate { year : Z; month : Z; day : Z }.
Record time := mktime { hour : Z; minute : Z; second : Z }.
Record datetime := mkdatetime { dt_date : date; dt_time : time }.

Definition is_leap (y : Z) : bool :=
  (y mod 4 =? 0) && (negb (y mod 100 =? 0) || (y mod 400 =? 0)).

Definition days_in_month (y m : Z) : Z :=
  if (m =? 2) && is_leap y then 29
  else match m with
       | 1 => 31 | 2 => 28 | 3 => 31 | 4 => 30 | 5 => 31 | 6 => 30
       | 7 => 31 | 8 => 31 | 9 => 30 | 10 => 31 | 11 => 30 | 12 => 31
       | _ => 0
       end.

Definition days_before_year (y : Z) : Z :=
  let p := y - 1 in p * 365 + p / 4 - p / 100 + p / 400.

Definition days_before_month (y m : Z) : Z :=
  match m with
  | 1 => 0 | 2 => 31 | 3 => 59 | 4 => 90 | 5 => 120 | 6 => 151
  | 7 => 181 | 8 => 212 | 9 => 243 | 10 => 273 | 11 => 304 | 12 => 334
  | _ => 0
  end + (if (2 <? m) && is_leap y then 1 else 0).

Definition toordinal (d : date) : Z :=
  days_before_year (year d) + days_before_month (year d) (month d) + day d.

Definition valid_date (d : date) : bool :=
  (1 <=? year d) && (year d <=? 9999) &&
  (1 <=? month d) && (month d <=? 12) &&
  (1 <=? day d) && (day d <=? days_in_month (year d) (month d)).

Definition valid_time (t : time) : bool :=
  (0 <=? hour t) && (hour t <=? 23) &&
  (0 <=? minute t) && (minute t <=? 59) &&
  (0 <=? second t) && (second t <=? 59).

(** [datetime.time()]: midnight. *)
Definition midnight : time := mktime 0 0 0.

(** [datetime.datetime(y, m, d)]; [None] stands for its [ValueError]. *)
Definition new_datetime (y m d : Z) : option datetime :=
  if valid_date (mkdate y m d) then Some (mkdatetime (mkdate y m d) midnight)
  else None.

(** [datetime.time(h, m, s)]; [None] stands for its [ValueError]. *)
Definition new_time (h m s : Z) : option time :=
  if valid_time (mktime h m s) then Some (mktime h m s) else None.

(** [datetime.datetime.fromordinal(1)]. *)
Definition datetime_unset : datetime := mkdatetime (mkdate 1 1 1) midnight.

(** Comparisons, field by field as Python compares the tuples. *)
Definition date_eqb (a b : date) : bool :=
  (year a =? year b) && (month a =? month b) && (day a =? day b).

Definition date_ltb (a b : date) : bool :=
  (year a <? year b) ||
  ((year a =? year b) &&
   ((month a <? month b) || ((month a =? month b) && (day a <? day b)))).

Definition date_leb (a b : date) : bool := date_ltb a b || date_eqb a b.

Definition time_eqb (a b : time) : bool :=
  (hour a =? hour b) && (minute a =? minute b) && (second a =? second b).

Definition time_ltb (a b : time) : bool :=
  (hour a <? hour b) ||
  ((hour a =? hour b) &&
   ((minute a <? minute b) ||
    ((minute a =? minute b) && (second a <? second b)))).

Definition time_leb (a b : time) : bool := time_ltb a b || time_eqb a b.

Definition datetime_eqb (a b : datetime) : bool :=
  date_eqb (dt_date a) (dt_date b) && time_eqb (dt_time a) (dt_time b).

Definition datetime_ltb (a b : datetime) : bool :=
  date_ltb (dt_date a) (dt_date b) ||
  (date_eqb (dt_date a) (dt_date b) && time_ltb (dt_time a) (dt_time b)).

Definition datetime_gtb (a b : datetime) : bool := datetime_ltb b a.

(** A [timedelta], normalised as its constructor does. *)
Record timedelta := mktimedelta { days : Z; seconds : Z }.

Definition new_timedelta (d s : Z) : timedelta :=
  mktimedelta (d + s / 86400) (s mod 86400).

Definition seconds_of_day (t : time) : Z :=
  second t + minute t * 60 + hour t * 3600.

(** [a - b] on two [datetime]. *)
Definition datetime_sub (a b : datetime) : timedelta :=
  new_timedelta (toordinal (dt_date a) - toordinal (dt_date b))
                (seconds_of_day (dt_time a) - seconds_of_day (dt_time b)).

Definition total_seconds (c : timedelta) : Z := days c * 86400 + seconds c.

(** [str(d)] of a date, of a time and of a [datetime]. *)
Definition str_date (d : date) : str :=
  fmt4 (year d) ++ (txt "-") ++ fmt2 (month d) ++ (txt "-") ++ fmt2 (day d).

Definition str_time (t : time) : str :=
  fmt2 (hour t) ++ (txt ":") ++ fmt2 (minute t) ++ (txt ":")
  ++ fmt2 (second t).

Definition str_datetime (d : datetime) : str :=
  str_date (dt_date d) ++ (txt " ") ++ str_time (dt_time d).

(** ** exmconstraint.py *)

Module exmconstraint.

Record EXMUniConstraint (C : Type) := mkuni {
  get_operator : Operator;
  get_const : C
}.
Arguments mkuni {C}.
Arguments get_operator {C}.
Arguments get_const {C}.

(** [EXMUniConstraint.__eq__], with the equality of the constants. *)
Definition uni_eq {C} (ceq : C -> C -> bool)
  (a b : EXMUniConstraint C) : bool :=
  Operator_eqb (get_operator a) (get_operator b)
  && ceq (get_const a) (get_const b).

(** [EXMUniConstraint.__str__]. *)
Definition uni_str {C} (cstr : C -> str) (a : EXMUniConstraint C) : str :=
  op_symbol (get_operator a) ++ (txt " ") ++ cstr (get_const a).

Record EXMBiConstraint := mkbi {
  bi_get_operator : Operator;
  get_var : str
}.

(** [EXMBiConstraint.__eq__]: the variables only. *)
Definition bi_eq (a b : EXMBiConstraint) : bool :=
  str_eqb (get_var a) (get_var b).

(** [EXMBiConstraint.__str__]. *)
Definition bi_str (a : EXMBiConstraint) : str :=
  op_symbol (bi_get_operator a) ++ (txt " ") ++ get_var a.

End exmconstraint.

(** ** exmconstraints.py

    The [defaultdict(list)] of the class, as the list of its entries in the
    order of their insertion (the order in which [keys()] gives them). *)

Module exmconstraints.

Section Constraints.
Context {C : Type}.

Definition EXMConstraints := list (str * list C).

(** [__init__]. *)
Definition init : EXMConstraints := [].

(** [__contains__]. *)
Definition contains (other : str) (self : EXMConstraints) : bool :=
  existsb (fun e => str_eqb (fst e) other) self.

Fixpoint lookup (key : str) (self : EXMConstraints) : option (list C) :=
  match self with
  | [] => None
  | (k, v) :: rest => if str_eqb k key then Some v else lookup key rest
  end.

(** [__getitem__]: the list under the key and the mapping afterwards; a
    key that is missing is created with the empty list. *)
Definition getitem (key : str) (self : EXMConstraints)
  : list C * EXMConstraints :=
  match lookup key self with
  | Some v => (v, self)
  | None => ([], self ++ [(key, [])])
  end.

(** [__len__]. *)
Definition len (self : EXMConstraints) : Z := Z.of_nat (List.length self).

Fixpoint extend (key : str) (value : list C) (self : EXMConstraints)
  : EXMConstraints :=
  match self with
  | [] => []
  | (k, v) :: rest =>
      if str_eqb k key then (k, v ++ value) :: rest
      else (k, v) :: extend key value rest
  end.

(** [__setitem__]. *)
Definition setitem (key : str) (value : list C) (self : EXMConstraints)
  : EXMConstraints :=
  if contains key self then extend key value self
  else self ++ [(key, value)].

(** [keys]. *)
Definition keys (self : EXMConstraints) : list str := map fst self.

End Constraints.
Arguments EXMConstraints : clear implicits.

End exmconstraints.

(** ** exmvalue.py *)

Module exmvalue.

Record EXMValue := mkvalue {
  get_date : date;
  get_time : time;
  get_setup : Z
}.

(** [__init__]: the setup time is 24 hours. *)
Definition init (exmdate : date) (exmtime : time) : EXMValue :=
  mkvalue exmdate exmtime 24.

(** [get_value]: [datetime.combine] of the date and the time. *)
Definition get_value (self : EXMValue) : datetime :=
  mkdatetime (get_date self) (get_time self).

Definition set_setup (value : Z) (self : EXMValue) : EXMValue :=
  mkvalue (get_date self) (get_time self) value.

End exmvalue.

(** ** exmvariable.py *)

Module exmvariable.
Import exmconstraint exmconstraints.

Record EXMVariable := mkvar {
  get_grade : str;
  get_name : str;
  get_course : Z;
  get_semester : Z;
  get_date : datetime;
  get_time : time;
  get_setup : Z;
  get_cellname : str;
  get_date_uniconstraints : EXMConstraints (EXMUniConstraint datetime);
  get_time_uniconstraints : EXMConstraints (EXMUniConstraint time);
  get_date_biconstraints : EXMConstraints EXMBiConstraint;
  get_time_biconstraints : EXMConstraints EXMBiConstraint
}.

(** [__init__]. *)
Definition init (grade name : str) (course semester : Z)
  (exmdate : datetime) (exmtime : time) (setup : Z)
  (sheetname column : str) (row : Z) : EXMVariable :=
  mkvar grade name course semester exmdate exmtime setup
        ((txt "$") ++ sheetname ++ (txt ".") ++ column ++ str_of_int row)
        init init init init.

(** [__eq__] with another variable, and with a string. *)
Definition eq (self other : EXMVariable) : bool :=
  str_eqb (get_cellname self) (get_cellname other).

Definition eq_str (self : EXMVariable) (other : str) : bool :=
  str_eqb (get_cellname self) other.

Definition set_date_uniconstraints
  (value : list (EXMUniConstraint datetime)) (self : EXMVariable)
  : EXMVariable :=
  mkvar (get_grade self) (get_name self) (get_course self)
        (get_semester self) (get_date self) (get_time self)
        (get_setup self) (get_cellname self)
        (fold_left (fun cs ic => setitem (get_cellname self) [ic] cs)
                   value (get_date_uniconstraints self))
        (get_time_uniconstraints self) (get_date_biconstraints self)
        (get_time_biconstraints self).

Definition set_time_uniconstraints
  (value : list (EXMUniConstraint time)) (self : EXMVariable)
  : EXMVariable :=
  mkvar (get_grade self) (get_name self) (get_course self)
        (get_semester self) (get_date self) (get_time self)
        (get_setup self) (get_cellname self)
        (get_date_uniconstraints self)
        (fold_left (fun cs ic => setitem (get_cellname self) [ic] cs)
                   value (get_time_uniconstraints self))
        (get_date_biconstraints self) (get_time_biconstraints self).

Definition set_date_biconstraints
  (value : list EXMBiConstraint) (self : EXMVariable) : EXMVariable :=
  mkvar (get_grade self) (get_name self) (get_course self)
        (get_semester self) (get_date self) (get_time self)
        (get_setup self) (get_cellname self)
        (get_date_uniconstraints self) (get_time_uniconstraints self)
        (fold_left (fun cs ic => setitem (get_var ic) [ic] cs)
                   value (get_date_biconstraints self))
        (get_time_biconstraints self).

Definition set_time_biconstraints
  (value : list EXMBiConstraint) (self : EXMVariable) : EXMVariable :=
  mkvar (get_grade self) (get_name self) (get_course self)
        (get_semester self) (get_date self) (get_time self)
        (get_setup self) (get_cellname self)
        (get_date_uniconstraints self) (get_time_uniconstraints self)
        (get_date_biconstraints self)
        (fold_left (fun cs ic => setitem (get_var ic) [ic] cs)
                   value (get_time_biconstraints self)).

End exmvariable.

(** ** exmpoolvar.py *)

Module exmpoolvar.
Import exmvariable.

Record EXMPoolVar := mkpool {
  _vars : list EXMVariable;
  _idx : nat
}.

(** [__init__]. *)
Definition init : EXMPoolVar := mkpool [] 0.

(** [__contains__] of a cell name: [other in self._vars], which compares
    every variable with the string. *)
Definition contains (other : str) (self : EXMPoolVar) : bool :=
  existsb (fun v => eq_str v other) (_vars self).

(** [__len__]. *)
Definition len (self : EXMPoolVar) : nat := List.length (_vars self).

(** [__iadd__]. *)
Definition iadd (value : list EXMVariable) (self : EXMPoolVar)
  : EXMPoolVar :=
  mkpool (_vars self ++ value) (_idx self).

(** [__next__]: the next member and the pool with its counter moved, or
    [None] for [StopIteration], with the counter back at the start. *)
Definition next (self : EXMPoolVar) : option EXMVariable * EXMPoolVar :=
  match nth_error (_vars self) (_idx self) with
  | Some item => (Some item, mkpool (_vars self) (S (_idx self)))
  | None => (None, mkpool (_vars self) 0)
  end.

End exmpoolvar.
(** ** exm.py: the logger and the ways a run stops *)

Import exmconstraint.

(** The texts given to [LOGGER.error], with what fills their fields. *)
Inductive message :=
| ERROR_CONSTRAINT (content sheetname cellname : str)
| ERROR_UNKNOWN_TYPE_DATE (record : str)
| ERROR_UNKNOWN_TYPE_TIME (record : str)
| ERROR_TIME_IN_DATE (cell : str) (found : list (EXMUniConstraint time))
| ERROR_DATE_IN_TIME (cell : str) (found : list (EXMUniConstraint datetime))
| ERROR_SYNTAX_ERROR_REGISTER (key : str)
| ERROR_EMPTY_DOMAIN (variable : exmvariable.EXMVariable).

Inductive exception :=
| SystemExit
| ValueError_unknown_register (sheetname cell : str)
| ValueError_solver
| UnboundLocalError
| AttributeError
| FileNotFoundError.

Inductive outcome (A : Type) :=
| Return (a : A)
| Raise (e : exception).
Arguments Return {A}.
Arguments Raise {A}.

(** A computation that logs: from the errors logged so far to its outcome
    and the errors logged after it. *)
Definition M (A : Type) : Type := list message -> outcome A * list message.

Definition ret {A} (a : A) : M A := fun log => (Return a, log).

Definition bind {A B} (m : M A) (f : A -> M B) : M B :=
  fun log =>
    match m log with
    | (Return a, log') => f a log'
    | (Raise e, log') => (Raise e, log')
    end.

Definition raise {A} (e : exception) : M A := fun log => (Raise e, log).

(** [LOGGER.error(msg)]: the record is kept and the run goes on. *)
Definition LOGGER_error (msg : message) : M unit :=
  fun log => (Return tt, log ++ [msg]).

Notation "x <- m ;; f" := (bind m (fun x => f))
  (at level 61, m at next level, right associativity).
Notation "m ;;; f" := (bind m (fun _ => f))
  (at level 61, right associativity).

(** A [for] loop over a list with a running state. *)
Fixpoint for_each {A S} (l : list A) (body : A -> S -> M S) (s : S) : M S :=
  match l with
  | [] => ret s
  | x :: l' => s' <- body x s ;; for_each l' body s'
  end.

Definition DEFAULT_SETUP_TIME : Z := 24.

(** ** exm.py: the three parsers of a fragment *)

Definition operator_or_default (o : option Operator) : Operator :=
  match o with Some op => op | None => OpEq end.

Definition get_uni_date_constraint (instr : str)
  : option (EXMUniConstraint datetime) :=
  match RE_UNI_DATE_CONSTRAINT instr with
  | None => None
  | Some m =>
      let op := operator_or_default (dm_operator m) in
      match new_datetime (int_of_digits (dm_year m))
                         (int_of_digits (dm_month m))
                         (int_of_digits (dm_day m)) with
      | Some d => Some (mkuni op d)
      | None => None
      end
  end.

Definition get_uni_time_constraint (instr : str)
  : option (EXMUniConstraint time) :=
  match RE_UNI_TIME_CONSTRAINT instr with
  | None => None
  | Some m =>
      let op := operator_or_default (tm_operator m) in
      let hour := int_of_digits (tm_hour m) in
      let hour :=
        match tm_qualifier m with
        | Some PM => if hour <? 12 then hour + 12 else hour
        | _ => hour
        end in
      let seconds :=
        match tm_seconds m with
        | None => 0
        | Some d => int_of_digits d
        end in
      match new_time hour (int_of_digits (tm_minutes m)) seconds with
      | Some t => Some (mkuni op t)
      | None => None
      end
  end.

Definition get_biconstraint (instr sheetname : str)
  : option EXMBiConstraint :=
  match RE_BICONSTRAINT instr with
  | None => None
  | Some m =>
      let op := operator_or_default (bm_operator m) in
      let cellname :=
        match bm_sheet m with
        | Some sheet => sheet ++ txt "." ++ bm_cell m
        | None => txt "$" ++ sheetname ++ txt "." ++ bm_cell m
        end in
      Some (mkbi op cellname)
  end.

(** ** exm.py: [get_constraints] *)

Definition constraint_lists : Type :=
  list (EXMUniConstraint datetime) * list (EXMUniConstraint time)
  * list EXMBiConstraint.

(** The body of the loop over the fragments. *)
Definition get_constraints_step (sheetname cellname : str)
  (iconstraint : str) (acc : constraint_lists) : M constraint_lists :=
  let '(exm_uni_date, exm_uni_time, exm_bi) := acc in
  if is_blank iconstraint then ret acc
  else
    match get_uni_date_constraint iconstraint with
    | Some c => ret (exm_uni_date ++ [c], exm_uni_time, exm_bi)
    | None =>
        match get_uni_time_constraint iconstraint with
        | Some c => ret (exm_uni_date, exm_uni_time ++ [c], exm_bi)
        | None =>
            match get_biconstraint iconstraint sheetname with
            | Some c => ret (exm_uni_date, exm_uni_time, exm_bi ++ [c])
            | None =>
                LOGGER_error
                  (ERROR_CONSTRAINT iconstraint sheetname cellname) ;;;
                raise SystemExit
            end
        end
    end.

Definition get_constraints (instr sheetname cellname : str)
  : M constraint_lists :=
  match instr with
  | [] => ret ([], [], [])
  | _ =>
      for_each (split_commas instr)
               (get_constraints_step sheetname cellname) ([], [], [])
  end.

(** ** exm.py: the rows of a sheet and the variables built from them

    The reader of spreadsheets is outside the core: a sheet is the list of
    the rows it yields, each with the cell of its key 'Asignatura'. *)

Inductive cell :=
| CellStr (s : str)
| CellDateTime (d : datetime)
| CellDate (d : date)
| CellTime (t : time)
| CellOther.

Record Row := mkrow {
  Asignatura : str;
  Curso : Z;
  Cuatrimestre : Z;
  Fecha : cell;
  Hora : cell;
  Setup : option Z;             (* no column, or an empty cell: [None] *)
  Asignatura_column : str;
  Asignatura_row : Z
}.

Definition Book : Type := list (str * list Row).

Fixpoint find_sheet (book : Book) (sheetname : str) : option (list Row) :=
  match book with
  | [] => None
  | (n, rows) :: rest =>
      if str_eqb n sheetname then Some rows else find_sheet rest sheetname
  end.

(** [spsreader.SpsReader(spreadsheet, sheetname)]. *)
Definition SpsReader (book : Book) (sheetname : str) : M (list Row) :=
  match find_sheet book sheetname with
  | Some rows => ret rows
  | None => raise FileNotFoundError
  end.

(** [stringize]; [None] stands for its [TypeError]. *)
Definition stringize (instr : cell) : option str :=
  match instr with
  | CellDateTime d => Some (str_date (dt_date d))
  | CellDate d => Some (str_date d)
  | CellTime t => Some (str_time t)
  | CellStr s => Some s
  | CellOther => None
  end.

(** The local names [exmdate] and [exmtime] of the two builders: they keep
    what an earlier row bound to them. *)
Record locals := mklocals {
  exmdate : option str;
  exmtime : option str
}.

Definition read_local (v : option str) : M str :=
  match v with
  | Some s => ret s
  | None => raise UnboundLocalError
  end.

(** The statements that [get_variable] and [get_variables] share: from the
    conversion of the cells 'Fecha' and 'Hora' to the new variable with
    its constraints. *)
Definition build_variable (sheetname column : str) (row : Z) (irow : Row)
  (env : locals) : M (exmvariable.EXMVariable * locals) :=
  let record := txt "$" ++ sheetname ++ txt "." ++ column ++ str_of_int row in
  d <- match stringize (Fecha irow) with
       | Some s => ret (Some s)
       | None => LOGGER_error (ERROR_UNKNOWN_TYPE_DATE record) ;;;
                 ret (exmdate env)
       end ;;
  t <- match stringize (Hora irow) with
       | Some s => ret (Some s)
       | None => LOGGER_error (ERROR_UNKNOWN_TYPE_TIME record) ;;;
                 ret (exmtime env)
       end ;;
  sd <- read_local d ;;
  dcs <- get_constraints sd sheetname (column ++ str_of_int row) ;;
  st <- read_local t ;;
  tcs <- get_constraints st sheetname (column ++ str_of_int row) ;;
  let '(date_uni_date, date_uni_time, date_bi) := dcs in
  let '(time_uni_date, time_uni_time, time_bi) := tcs in
  match date_uni_time with
  | [] => ret tt
  | _ => LOGGER_error
           (ERROR_TIME_IN_DATE (column ++ str_of_int row) date_uni_time)
  end ;;;
  match time_uni_date with
  | [] => ret tt
  | _ => LOGGER_error
           (ERROR_DATE_IN_TIME (column ++ str_of_int row) time_uni_date)
  end ;;;
  let setup :=
    match Setup irow with
    | Some z => if z =? 0 then DEFAULT_SETUP_TIME else z
    | None => DEFAULT_SETUP_TIME
    end in
  let newvar :=
    exmvariable.init sheetname (Asignatura irow) (Curso irow)
      (Cuatrimestre irow) datetime_unset midnight setup
      sheetname column row in
  let newvar := exmvariable.set_date_uniconstraints date_uni_date newvar in
  let newvar := exmvariable.set_date_biconstraints date_bi newvar in
  let newvar := exmvariable.set_time_uniconstraints time_uni_time newvar in
  let newvar := exmvariable.set_time_biconstraints time_bi newvar in
  ret (newvar, mklocals d t).

Fixpoint get_variable_rows (sheetname column : str) (row : Z)
  (rows : list Row) : M exmvariable.EXMVariable :=
  match rows with
  | [] =>
      raise (ValueError_unknown_register sheetname (column ++ str_of_int row))
  | irow :: rest =>
      if negb (str_eqb (Asignatura_column irow) column)
         || negb (Asignatura_row irow =? row)
      then get_variable_rows sheetname column row rest
      else
        r <- build_variable sheetname column row irow (mklocals None None) ;;
        ret (fst r)
  end.

Definition get_variable (spreadsheet : Book) (sheetname column : str)
  (row : Z) : M exmvariable.EXMVariable :=
  master <- SpsReader spreadsheet sheetname ;;
  get_variable_rows sheetname column row master.

(** A selection criterion that is empty or zero selects everything. *)
Definition get_variables_step (sheetname grade : str) (course semester : Z)
  (irow : Row) (st : list exmvariable.EXMVariable * locals)
  : M (list exmvariable.EXMVariable * locals) :=
  let '(exmvars, env) := st in
  if (negb (str_eqb grade []) && negb (str_eqb grade sheetname))
     || (negb (course =? 0) && negb (course =? Curso irow))
     || (negb (semester =? 0) && negb (semester =? Cuatrimestre irow))
  then ret st
  else
    r <- build_variable sheetname (Asignatura_column irow)
           (Asignatura_row irow) irow env ;;
    ret (exmvars ++ [fst r], snd r).

Definition get_variables (spreadsheet : Book) (sheetname grade : str)
  (course semester : Z) : M (list exmvariable.EXMVariable) :=
  master <- SpsReader spreadsheet sheetname ;;
  st <- for_each master (get_variables_step sheetname grade course semester)
          ([], mklocals None None) ;;
  ret (fst st).
(** ** exm.py: [get_next_indirect] *)

Import exmpoolvar.

(** The first key of the list that the pool does not hold. *)
Fixpoint first_missing (ikeys : list str) (poolvar : EXMPoolVar)
  : option str :=
  match ikeys with
  | [] => None
  | ikey :: rest =>
      if negb (contains ikey poolvar) then Some ikey
      else first_missing rest poolvar
  end.

(** The location of a register; a name that is no cell name is logged and
    the access to the groups of the missing match stops the run. *)
Definition register_location (ikey : str) : M (str * str * Z) :=
  match RE_CELLNAME ikey with
  | Some m => ret (cm_sheet m, cm_column m, int_of_digits (cm_row m))
  | None =>
      LOGGER_error (ERROR_SYNTAX_ERROR_REGISTER ikey) ;;; raise AttributeError
  end.

(** The loop [for ivar in poolvar]: the pool is its own iterator, so every
    round calls [next]; [n] bounds the number of rounds. *)
Fixpoint get_next_indirect_loop (n : nat) (poolvar : EXMPoolVar)
  : M (option (str * str * Z) * EXMPoolVar) :=
  match n with
  | O => ret (None, poolvar)
  | S n' =>
      match next poolvar with
      | (None, poolvar') => ret (None, poolvar')
      | (Some ivar, poolvar') =>
          match first_missing
                  (exmconstraints.keys
                     (exmvariable.get_date_biconstraints ivar))
                  poolvar' with
          | Some ikey =>
              loc <- register_location ikey ;;
              ret (Some loc, poolvar')
          | None => get_next_indirect_loop n' poolvar'
          end
      end
  end.

Definition get_next_indirect (poolvar : EXMPoolVar)
  : M (option (str * str * Z) * EXMPoolVar) :=
  get_next_indirect_loop (S (len poolvar)) poolvar.

(** ** exm.py: the predicates *)

Definition uni_equal_date (xi cj : datetime) : bool :=
  date_eqb (dt_date xi) (dt_date cj).
Definition uni_not_equal_date (xi cj : datetime) : bool :=
  negb (date_eqb (dt_date xi) (dt_date cj)).
Definition uni_lt_date (xi cj : datetime) : bool :=
  date_ltb (dt_date xi) (dt_date cj).
Definition uni_le_date (xi cj : datetime) : bool :=
  date_leb (dt_date xi) (dt_date cj).
Definition uni_gt_date (xi cj : datetime) : bool :=
  date_ltb (dt_date cj) (dt_date xi).
Definition uni_ge_date (xi cj : datetime) : bool :=
  date_leb (dt_date cj) (dt_date xi).

Definition uni_equal_time (xi : datetime) (cj : time) : bool :=
  time_eqb (dt_time xi) cj.
Definition uni_not_equal_time (xi : datetime) (cj : time) : bool :=
  negb (time_eqb (dt_time xi) cj).
Definition uni_lt_time (xi : datetime) (cj : time) : bool :=
  time_ltb (dt_time xi) cj.
Definition uni_le_time (xi : datetime) (cj : time) : bool :=
  time_leb (dt_time xi) cj.
Definition uni_gt_time (xi : datetime) (cj : time) : bool :=
  time_ltb cj (dt_time xi).
Definition uni_ge_time (xi : datetime) (cj : time) : bool :=
  time_leb cj (dt_time xi).

Import exmvalue.

Definition bi_equal_date (xi xj : EXMValue) : bool :=
  date_eqb (get_date xi) (get_date xj).
Definition bi_not_equal_date (xi xj : EXMValue) : bool :=
  negb (date_eqb (get_date xi) (get_date xj)).
Definition bi_lt_date (xi xj : EXMValue) : bool :=
  date_ltb (get_date xi) (get_date xj).
Definition bi_le_date (xi xj : EXMValue) : bool :=
  date_leb (get_date xi) (get_date xj).
Definition bi_gt_date (xi xj : EXMValue) : bool :=
  date_ltb (get_date xj) (get_date xi).
Definition bi_ge_date (xi xj : EXMValue) : bool :=
  date_leb (get_date xj) (get_date xi).

Definition bi_equal_time (xi xj : EXMValue) : bool :=
  time_eqb (get_time xi) (get_time xj).
Definition bi_not_equal_time (xi xj : EXMValue) : bool :=
  negb (time_eqb (get_time xi) (get_time xj)).
Definition bi_lt_time (xi xj : EXMValue) : bool :=
  time_ltb (get_time xi) (get_time xj).
Definition bi_le_time (xi xj : EXMValue) : bool :=
  time_leb (get_time xi) (get_time xj).
Definition bi_gt_time (xi xj : EXMValue) : bool :=
  time_ltb (get_time xj) (get_time xi).
Definition bi_ge_time (xi xj : EXMValue) : bool :=
  time_leb (get_time xj) (get_time xi).

(** [c.total_seconds()/3600 >= setup].  The seconds are a whole number below
    2^53 and the setup is an integer, so the rounding of the quotient never
    crosses the integer it is compared with: the test is the one on the
    integers below. *)
Definition hours_at_least (c : timedelta) (setup : Z) : bool :=
  3600 * setup <=? total_seconds c.

Definition bi_difftime (xi xj : EXMValue) : bool :=
  if datetime_gtb (get_value xi) (get_value xj)
  then hours_at_least (datetime_sub (get_value xi) (get_value xj))
                      (get_setup xi)
  else hours_at_least (datetime_sub (get_value xj) (get_value xi))
                      (get_setup xj).

(** The tables that choose a predicate from the operator. *)
Definition uni_date_table (op : Operator) : datetime -> datetime -> bool :=
  match op with
  | OpEq => uni_equal_date | OpNe => uni_not_equal_date
  | OpLt => uni_lt_date | OpLe => uni_le_date
  | OpGt => uni_gt_date | OpGe => uni_ge_date
  end.

Definition uni_time_table (op : Operator) : datetime -> time -> bool :=
  match op with
  | OpEq => uni_equal_time | OpNe => uni_not_equal_time
  | OpLt => uni_lt_time | OpLe => uni_le_time
  | OpGt => uni_gt_time | OpGe => uni_ge_time
  end.

Definition bi_date_table (op : Operator) : EXMValue -> EXMValue -> bool :=
  match op with
  | OpEq => bi_equal_date | OpNe => bi_not_equal_date
  | OpLt => bi_lt_date | OpLe => bi_le_date
  | OpGt => bi_gt_date | OpGe => bi_ge_date
  end.

Definition bi_time_table (op : Operator) : EXMValue -> EXMValue -> bool :=
  match op with
  | OpEq => bi_equal_time | OpNe => bi_not_equal_time
  | OpLt => bi_lt_time | OpLe => bi_le_time
  | OpGt => bi_gt_time | OpGe => bi_ge_time
  end.

(** ** exm.py: [uni_is_compatible] *)

Definition uni_is_compatible (variable : exmvariable.EXMVariable)
  (value : EXMValue) : bool :=
  let uni_date_constraints := exmvariable.get_date_uniconstraints variable in
  let uni_time_constraints := exmvariable.get_time_uniconstraints variable in
  (if 0 <? exmconstraints.len uni_date_constraints then
     forallb
       (fun ikey =>
          forallb
            (fun iconstraint =>
               uni_date_table (get_operator iconstraint)
                 (get_value value) (get_const iconstraint))
            (fst (exmconstraints.getitem ikey uni_date_constraints)))
       (exmconstraints.keys uni_date_constraints)
   else true)
  &&
  (if 0 <? exmconstraints.len uni_time_constraints then
     forallb
       (fun ikey =>
          forallb
            (fun iconstraint =>
               uni_time_table (get_operator iconstraint)
                 (get_value value) (get_const iconstraint))
            (fst (exmconstraints.getitem ikey uni_time_constraints)))
       (exmconstraints.keys uni_time_constraints)
   else true).

(** ** exm.py: the phases of [main] *)

(** What [task.addConstraint] receives: the predicate and the cell names of
    its two variables. *)
Inductive predicate :=
| Pbi_difftime
| Pbi_date (op : Operator)
| Pbi_time (op : Operator).

Definition predicate_fn (p : predicate) : EXMValue -> EXMValue -> bool :=
  match p with
  | Pbi_difftime => bi_difftime
  | Pbi_date op => bi_date_table op
  | Pbi_time op => bi_time_table op
  end.

Record binding := mkbinding {
  b_predicate : predicate;
  b_first : str;
  b_second : str
}.

(** The [constraint.Problem] under construction. *)
Record Problem := mkproblem {
  p_variables : list (exmvariable.EXMVariable * list EXMValue);
  p_constraints : list binding
}.

(** [Problem.addVariable] of the solver, which the repository uses and
    does not hold: a variable already there and an empty domain raise
    [ValueError]; the comment before the call in [main] relies on the
    second. *)
Definition addVariable (variable : exmvariable.EXMVariable)
  (domain : list EXMValue) (task : Problem) : M Problem :=
  if existsb (fun e => exmvariable.eq (fst e) variable) (p_variables task)
  then raise ValueError_solver
  else
    match domain with
    | [] => raise ValueError_solver
    | _ => ret (mkproblem (p_variables task ++ [(variable, domain)])
                          (p_constraints task))
    end.

Definition addConstraint (p : predicate) (i j : exmvariable.EXMVariable)
  (task : Problem) : Problem :=
  mkproblem (p_variables task)
            (p_constraints task
             ++ [mkbinding p (exmvariable.get_cellname i)
                             (exmvariable.get_cellname j)]).

(** Lines 1031-1042: the loop that loads the indirections; [fuel] bounds
    the rounds of the [while], [None] is a loop that has not ended. *)
Fixpoint load_indirects_loop (fuel : nat) (master : Book)
  (indirect : option (str * str * Z)) (poolvar : EXMPoolVar)
  : M (option EXMPoolVar) :=
  match indirect with
  | None => ret (Some poolvar)
  | Some (sheet, column, row) =>
      match fuel with
      | O => ret None
      | S fuel' =>
          v <- get_variable master sheet column row ;;
          r <- get_next_indirect (iadd [v] poolvar) ;;
          load_indirects_loop fuel' master (fst r) (snd r)
      end
  end.

Definition load_indirects_phase (fuel : nat) (master : Book)
  (load_indirects : bool) (poolvar : EXMPoolVar) : M (option EXMPoolVar) :=
  if load_indirects then
    r <- get_next_indirect poolvar ;;
    load_indirects_loop fuel master (fst r) (snd r)
  else ret (Some poolvar).

(** Lines 1063-1074: the domain of a variable. *)
Definition filtered_domain (ivariable : exmvariable.EXMVariable)
  (domain : list EXMValue) : list EXMValue :=
  map (set_setup (exmvariable.get_setup ivariable))
      (filter (uni_is_compatible ivariable) domain).

(** Lines 1058-1090: the body of the loop over the variables. *)
Definition variables_step (domain : list EXMValue)
  (ivariable : exmvariable.EXMVariable) (task : Problem) : M Problem :=
  let idomain := filtered_domain ivariable domain in
  match idomain with
  | [] => LOGGER_error (ERROR_EMPTY_DOMAIN ivariable)
  | _ => ret tt
  end ;;;
  addVariable ivariable idomain task.

(** The members that a [for] loop over the pool visits: the ones from its
    counter on; the loop leaves the counter at the start. *)
Definition members (poolvar : EXMPoolVar) : list exmvariable.EXMVariable :=
  skipn (_idx poolvar) (_vars poolvar).

Definition variables_phase (domain : list EXMValue) (poolvar : EXMPoolVar)
  (task : Problem) : M Problem :=
  for_each (members poolvar) (variables_step domain) task.

(** Lines 1097-1149: the body of the two loops over the pairs. *)
Definition constraints_pair (ivariable jvariable : exmvariable.EXMVariable)
  (task : Problem) : Problem :=
  if exmvariable.eq ivariable jvariable then task
  else
    let task :=
      if str_eqb (exmvariable.get_grade ivariable)
                 (exmvariable.get_grade jvariable)
         && (exmvariable.get_course ivariable
             =? exmvariable.get_course jvariable)
      then addConstraint Pbi_difftime ivariable jvariable task
      else task in
    let task :=
      if exmconstraints.contains (exmvariable.get_cellname jvariable)
           (exmvariable.get_date_biconstraints ivariable)
      then
        fold_left
          (fun task iconstraint =>
             addConstraint (Pbi_date (bi_get_operator iconstraint))
                           ivariable jvariable task)
          (fst (exmconstraints.getitem
                  (exmvariable.get_cellname jvariable)
                  (exmvariable.get_date_biconstraints ivariable)))
          task
      else task in
    if exmconstraints.contains (exmvariable.get_cellname jvariable)
         (exmvariable.get_time_biconstraints ivariable)
    then
      fold_left
        (fun task iconstraint =>
           addConstraint (Pbi_time (bi_get_operator iconstraint))
                         ivariable jvariable task)
        (fst (exmconstraints.getitem
                (exmvariable.get_cellname jvariable)
                (exmvariable.get_time_biconstraints ivariable)))
        task
    else task.

Definition constraints_phase (poolvar : EXMPoolVar) (task : Problem)
  : M Problem :=
  ret (fold_left
         (fun task ivariable =>
            fold_left
              (fun task jvariable =>
                 constraints_pair ivariable jvariable task)
              (_vars poolvar) task)
         (_vars poolvar) task).

(** From the pool to the problem handed to the solver. *)
Definition assemble (domain : list EXMValue) (poolvar : EXMPoolVar)
  : M Problem :=
  task <- variables_phase domain poolvar (mkproblem [] []) ;;
  constraints_phase poolvar task.
(** * Notions used by the properties *)





Definition sheet_shape (x : str) : Prop :=
  x <> [] /\ forallb is_dot x = true.

Definition cell_shape (c : str) : Prop :=
  exists l d, c = l ++ d /\ l <> [] /\ d <> []
              /\ forallb is_letter l = true /\ forallb is_digit d = true.

Definition no_period (w : str) : Prop :=
  forall c, In c w -> chr_eqb "."%char c = false.

(** The seconds from the start of the calendar to a date and time. *)
Definition timestamp (d : datetime) : Z :=
  toordinal (dt_date d) * 86400 + seconds_of_day (dt_time d).

Definition valid_datetime (d : datetime) : Prop :=
  valid_date (dt_date d) = true /\ valid_time (dt_time d) = true.

(** The setup time of the value that is the later of the two (of the
    second when they are the same moment). *)
Definition later_setup (xi xj : EXMValue) : Z :=
  if timestamp (get_value xj) <? timestamp (get_value xi)
  then get_setup xi else get_setup xj.

Inductive fragment_class :=
| UnitDate (c : EXMUniConstraint datetime)
| UnitTime (c : EXMUniConstraint time)
| Binary (c : EXMBiConstraint).

(** The three patterns in their order of priority. *)
Definition priority (sheetname : str) : list (str -> option fragment_class) :=
  [ fun f => option_map UnitDate (get_uni_date_constraint f);
    fun f => option_map UnitTime (get_uni_time_constraint f);
    fun f => option_map Binary (get_biconstraint f sheetname) ].

(** The first pattern of a list that matches the fragment. *)
Fixpoint first_match (tries : list (str -> option fragment_class)) (f : str)
  : option fragment_class :=
  match tries with
  | [] => None
  | try :: others =>
      match try f with
      | Some c => Some c
      | None => first_match others f
      end
  end.

Definition classify (sheetname f : str) : option fragment_class :=
  first_match (priority sheetname) f.

(** The pieces of a text between its commas, read off the text from its
    start: a comma closes the piece that is being read, and any other
    character joins it.  They are the pieces of the description: joined
    with a comma between each two they are the text, and none of them holds
    a comma. *)
Fixpoint comma_pieces (s : str) : list str :=
  match s with
  | [] => [[]]
  | c :: s' =>
      if chr_eqb c ","%char then [] :: comma_pieces s'
      else match comma_pieces s' with
           | piece :: others => (c :: piece) :: others
           | [] => [[c]]
           end
  end.

Fixpoint join_commas (pieces : list str) : str :=
  match pieces with
  | [] => []
  | piece :: others =>
      match others with
      | [] => piece
      | _ => piece ++ ","%char :: join_commas others
      end
  end.

Definition no_comma (piece : str) : Prop := ~ In ","%char piece.

(** The fragments that are not blank, in their order. *)
Definition fragments (instr : str) : list str :=
  filter (fun f => negb (is_blank f)) (comma_pieces instr).

Fixpoint first_unmatched (sheetname : str) (fs : list str) : option str :=
  match fs with
  | [] => None
  | f :: fs' =>
      match classify sheetname f with
      | Some _ => first_unmatched sheetname fs'
      | None => Some f
      end
  end.

Definition unit_dates (sheetname : str) (fs : list str)
  : list (EXMUniConstraint datetime) :=
  flat_map (fun f => match classify sheetname f with
                     | Some (UnitDate c) => [c] | _ => [] end) fs.

Definition unit_times (sheetname : str) (fs : list str)
  : list (EXMUniConstraint time) :=
  flat_map (fun f => match classify sheetname f with
                     | Some (UnitTime c) => [c] | _ => [] end) fs.

Definition binaries (sheetname : str) (fs : list str)
  : list EXMBiConstraint :=
  flat_map (fun f => match classify sheetname f with
                     | Some (Binary c) => [c] | _ => [] end) fs.

(** The parser in the words of its description: the text is split on the
    commas and the blank fragments are skipped; when a fragment matches none
    of the three patterns the error is logged with the fragment, the sheet
    and the location and the run exits; otherwise every fragment goes to the
    list of the first pattern it matches. *)
Definition get_constraints_spec (instr sheetname cellname : str)
  : M constraint_lists :=
  fun log =>
    let fs := fragments instr in
    match first_unmatched sheetname fs with
    | Some f =>
        (Raise SystemExit, log ++ [ERROR_CONSTRAINT f sheetname cellname])
    | None =>
        (Return (unit_dates sheetname fs, unit_times sheetname fs,
                 binaries sheetname fs), log)
    end.

(** A value satisfies every unit constraint of a variable. *)
Definition satisfies_unit_constraints (variable : exmvariable.EXMVariable)
  (value : EXMValue) : Prop :=
  (forall k l c,
     In (k, l) (exmvariable.get_date_uniconstraints variable) -> In c l ->
     uni_date_table (get_operator c) (get_value value) (get_const c) = true)
  /\ (forall k l c,
        In (k, l) (exmvariable.get_time_uniconstraints variable) -> In c l ->
        uni_time_table (get_operator c) (get_value value) (get_const c)
        = true).

(** The keys of the two mappings of unit constraints are distinct, as the
    keys of a dictionary are. *)
Definition distinct_unit_keys (variable : exmvariable.EXMVariable) : Prop :=
  NoDup (exmconstraints.keys (exmvariable.get_date_uniconstraints variable))
  /\ NoDup (exmconstraints.keys
              (exmvariable.get_time_uniconstraints variable)).

(** An item with the unit constraints ">=2024-05-01" and "<2024-05-10". *)
Definition may_item : exmvariable.EXMVariable :=
  exmvariable.set_date_uniconstraints
    [mkuni OpGe (mkdatetime (mkdate 2024 5 1) midnight);
     mkuni OpLt (mkdatetime (mkdate 2024 5 10) midnight)]
    (exmvariable.init (txt "GII") (txt "Algebra") 1 1 datetime_unset midnight
       48 (txt "GII") (txt "B") 21).

(** An item whose only unit-date constraint is "=2099-01-01". *)
Definition far_item : exmvariable.EXMVariable :=
  exmvariable.set_date_uniconstraints
    [mkuni OpEq (mkdatetime (mkdate 2099 1 1) midnight)]
    (exmvariable.init (txt "GII") (txt "Calculus") 1 1 datetime_unset
       midnight 24 (txt "GII") (txt "B") 22).

(** The bindings that the pair of the variables [i] and [j] adds. *)
Definition pair_bindings (i j : exmvariable.EXMVariable) : list binding :=
  if exmvariable.eq i j then []
  else
    (if str_eqb (exmvariable.get_grade i) (exmvariable.get_grade j)
        && (exmvariable.get_course i =? exmvariable.get_course j)
     then [mkbinding Pbi_difftime (exmvariable.get_cellname i)
                     (exmvariable.get_cellname j)]
     else [])
    ++ match exmconstraints.lookup (exmvariable.get_cellname j)
               (exmvariable.get_date_biconstraints i) with
       | Some l =>
           map (fun c => mkbinding (Pbi_date (bi_get_operator c))
                           (exmvariable.get_cellname i)
                           (exmvariable.get_cellname j)) l
       | None => []
       end
    ++ match exmconstraints.lookup (exmvariable.get_cellname j)
               (exmvariable.get_time_biconstraints i) with
       | Some l =>
           map (fun c => mkbinding (Pbi_time (bi_get_operator c))
                           (exmvariable.get_cellname i)
                           (exmvariable.get_cellname j)) l
       | None => []
       end.

(** Some item of the pool has a binary constraint on a key that no item of
    the pool has. *)
Definition unresolved (poolvar : EXMPoolVar) : Prop :=
  exists v key,
    In v (_vars poolvar)
    /\ (In key (exmconstraints.keys (exmvariable.get_date_biconstraints v))
        \/ In key (exmconstraints.keys
                     (exmvariable.get_time_biconstraints v)))
    /\ contains key poolvar = false.

(** An item whose date refers to the register C30 of its sheet. *)
Definition after_c30 : exmvariable.EXMVariable :=
  exmvariable.set_date_biconstraints [mkbi OpGt (txt "$GII.C30")]
    (exmvariable.init (txt "GII") (txt "Physics") 1 1 datetime_unset
       midnight 24 (txt "GII") (txt "B") 23).

Definition c30 : exmvariable.EXMVariable :=
  exmvariable.init (txt "GII") (txt "Chemistry") 2 1 datetime_unset
    midnight 24 (txt "GII") (txt "C") 30.

(** A sheet with an item at B21 whose time refers to the register C30, and
    the item of that register, of another course. *)
Definition sheet_time_reference : Book :=
  [(txt "GII",
    [mkrow (txt "Algebra") 1 1 (CellStr []) (CellStr (txt "> $GII.C30"))
           None (txt "B") 21;
     mkrow (txt "Chemistry") 2 1 (CellStr []) (CellStr []) None
           (txt "C") 30])].

Definition with_time_reference : exmvariable.EXMVariable :=
  exmvariable.set_time_biconstraints [mkbi OpGt (txt "$GII.C30")]
    (exmvariable.init (txt "GII") (txt "Algebra") 1 1 datetime_unset midnight
       24 (txt "GII") (txt "B") 21).

(** A sheet with an item at B23 whose date refers to the registers C30 and
    C31. *)
Definition sheet_two_references : Book :=
  [(txt "GII",
    [mkrow (txt "Physics") 1 1 (CellStr (txt "<$GII.C30, >$GII.C31"))
           (CellStr []) None (txt "B") 23;
     mkrow (txt "Chemistry") 2 1 (CellStr []) (CellStr []) None
           (txt "C") 30;
     mkrow (txt "Biology") 2 1 (CellStr []) (CellStr []) None
           (txt "C") 31])].

Definition with_two_references : exmvariable.EXMVariable :=
  exmvariable.set_date_biconstraints
    [mkbi OpLt (txt "$GII.C30"); mkbi OpGt (txt "$GII.C31")]
    (exmvariable.init (txt "GII") (txt "Physics") 1 1 datetime_unset midnight
       24 (txt "GII") (txt "B") 23).

Definition sheet_misplaced_time : Book :=
  [(txt "GII",
    [mkrow (txt "Calculus") 1 1 (CellStr (txt "10:30")) (CellStr []) None
           (txt "B") 22])].

Definition calculus : exmvariable.EXMVariable :=
  exmvariable.init (txt "GII") (txt "Calculus") 1 1 datetime_unset midnight
    24 (txt "GII") (txt "B") 22.

(** Every key of the mapping has at least one constraint. *)
Definition no_empty_list {C : Type} (self : exmconstraints.EXMConstraints C)
  : Prop :=
  forall k v, In (k, v) self -> v <> [].
(** * More of the code *)

(** ** spsreader.py: [get_columnrow]

    The pattern "(?P<column>[a-zA-Z]+)(?P<row>\d+)" at the start of the
    name; [None] stands for the [ValueError]. *)
Definition get_columnrow (cellname : str) : option (str * Z) :=
  re_plus is_letter cellname (fun column s =>
  re_plus is_digit s (fun row _ => Some (column, int_of_digits row))).

(** ** exmpoolvar.py: a whole traversal

    The members that the calls of [next] give until [StopIteration], and
    the pool after them; [n] bounds the number of calls. *)
Fixpoint traverse (n : nat) (poolvar : EXMPoolVar)
  : list exmvariable.EXMVariable * EXMPoolVar :=
  match n with
  | O => ([], poolvar)
  | S n' =>
      match next poolvar with
      | (None, poolvar') => ([], poolvar')
      | (Some item, poolvar') =>
          let (items, poolvar'') := traverse n' poolvar' in
          (item :: items, poolvar'')
      end
  end.



(** ** exmconstraints.py: the lists as objects

    [__setitem__] keeps the very list it is given as the list of a new key
    and extends in place the list that a key already has, so two keys may
    share one list.  Here the lists are the objects of a store, each at
    its address, and a mapping holds for each key the address of its
    list, in the order of insertion. *)

Module exmstore.

Section Store.
Context {C : Type}.

Definition store : Type := nat -> list C.

(** [list.__iadd__] and the like: the object at an address gets a new
    content. *)
Definition write (h : store) (a : nat) (v : list C) : store :=
  fun b => if Nat.eqb b a then v else h b.

Definition mapping : Type := list (str * nat).

Fixpoint address (key : str) (self : mapping) : option nat :=
  match self with
  | [] => None
  | (k, a) :: rest => if str_eqb k key then Some a else address key rest
  end.

(** [__setitem__]; [value] is the address of the list that is given. *)
Definition setitem (key : str) (value : nat) (h : store) (self : mapping)
  : store * mapping :=
  match address key self with
  | Some a => (write h a (h a ++ h value), self)
  | None => (h, self ++ [(key, value)])
  end.

(** The list that a key has. *)
Definition lookup (key : str) (h : store) (self : mapping)
  : option (list C) :=
  option_map h (address key self).

End Store.

End exmstore.

(** * Notions used by the further properties *)

(** The first item of a list with a key of its binary date constraints
    that the pool lacks: the number of items before it and the key. *)
Fixpoint first_open (vars : list exmvariable.EXMVariable)
  (poolvar : EXMPoolVar) : option (nat * str) :=
  match vars with
  | [] => None
  | v :: rest =>
      match first_missing
              (exmconstraints.keys (exmvariable.get_date_biconstraints v))
              poolvar with
      | Some ikey => Some (O, ikey)
      | None =>
          match first_open rest poolvar with
          | Some (n, ikey) => Some (S n, ikey)
          | None => None
          end
      end
  end.

(** The selection of [get_variables]: a criterion that is empty or zero
    selects every row. *)
Definition selected (sheetname grade : str) (course semester : Z)
  (irow : Row) : bool :=
  (str_eqb grade [] || str_eqb grade sheetname)
  && ((course =? 0) || (course =? Curso irow))
  && ((semester =? 0) || (semester =? Cuatrimestre irow)).

(** The setup time of a row: the default when the column is missing, the
    cell is empty or it holds zero. *)
Definition setup_of (irow : Row) : Z :=
  match Setup irow with
  | Some z => if z =? 0 then DEFAULT_SETUP_TIME else z
  | None => DEFAULT_SETUP_TIME
  end.

(** An item as the two builders make it from a row: the new item of the
    row with its four lists of constraints set in turn. *)
Definition built (sheetname column : str) (row : Z) (irow : Row)
  (v : exmvariable.EXMVariable) : Prop :=
  exists date_uni_date date_bi time_uni_time time_bi,
    v = exmvariable.set_time_biconstraints time_bi
          (exmvariable.set_time_uniconstraints time_uni_time
             (exmvariable.set_date_biconstraints date_bi
                (exmvariable.set_date_uniconstraints date_uni_date
                   (exmvariable.init sheetname (Asignatura irow)
                      (Curso irow) (Cuatrimestre irow) datetime_unset
                      midnight (setup_of irow) sheetname column row)))).

(** The four mappings of an item are as a dictionary of lists that were
    only ever assigned to: no key twice, no empty list. *)
Definition well_kept (v : exmvariable.EXMVariable) : Prop :=
  distinct_unit_keys v
  /\ NoDup (exmconstraints.keys (exmvariable.get_date_biconstraints v))
  /\ NoDup (exmconstraints.keys (exmvariable.get_time_biconstraints v))
  /\ no_empty_list (exmvariable.get_date_uniconstraints v)
  /\ no_empty_list (exmvariable.get_time_uniconstraints v)
  /\ no_empty_list (exmvariable.get_date_biconstraints v)
  /\ no_empty_list (exmvariable.get_time_biconstraints v).

(** The text of a qualifier of the hour. *)
Definition qualifier_text (q : Qualifier) : str :=
  match q with AM => txt "AM" | PM => txt "PM" end.

(** The operator that holds exactly when the given one does not, and the
    operator that holds of a pair exactly when the given one holds of the
    pair the other way round. *)
Definition negate (op : Operator) : Operator :=
  match op with
  | OpEq => OpNe | OpNe => OpEq
  | OpLt => OpGe | OpGe => OpLt
  | OpGt => OpLe | OpLe => OpGt
  end.

Definition converse (op : Operator) : Operator :=
  match op with
  | OpEq => OpEq | OpNe => OpNe
  | OpLt => OpGt | OpGt => OpLt
  | OpLe => OpGe | OpGe => OpLe
  end.

(** What a mapping of the store holds: its keys with the content of their
    lists. *)
Definition contents {C : Type} (h : exmstore.store)
  (self : exmstore.mapping) : exmconstraints.EXMConstraints C :=
  map (fun e => (fst e, h (snd e))) self.

(** The cell names of the rows of a book, sheet after sheet. *)
Definition registers (master : Book) : list str :=
  flat_map
    (fun sheet =>
       map (fun irow =>
              txt "$" ++ fst sheet ++ txt "." ++ Asignatura_column irow
              ++ str_of_int (Asignatura_row irow))
           (snd sheet))
    master.

(** A key is canonical when it is written as [EXMVariable] writes the cell
    name of the register that the key names. *)
Definition canonical_key (ikey : str) : bool :=
  match RE_CELLNAME ikey with
  | Some m =>
      str_eqb ikey
        (txt "$" ++ cm_sheet m ++ txt "." ++ cm_column m
         ++ str_of_int (int_of_digits (cm_row m)))
  | None => true
  end.

(** The registers of a book that a pool does not hold yet. *)
Definition remaining (master : Book) (poolvar : EXMPoolVar) : list str :=
  filter (fun n => negb (contains n poolvar)) (registers master).

(** * Properties *)

(** ** Characters and strings *)

Lemma code_inj (a b : ascii) : code a = code b -> a = b.
Proof.
  unfold code. intros H. apply N2Z.inj in H.
  rewrite <- (ascii_N_embedding a), <- (ascii_N_embedding b). now f_equal.
Qed.

Lemma chr_eqb_eq (a b : ascii) : chr_eqb a b = true <-> a = b.
Proof.
  unfold chr_eqb. rewrite Z.eqb_eq. split; [apply code_inj | now intros ->].
Qed.

Lemma chr_eqb_refl (a : ascii) : chr_eqb a a = true.
Proof. now apply chr_eqb_eq. Qed.

Lemma str_eqb_eq (a b : str) : str_eqb a b = true <-> a = b.
Proof.
  revert b. induction a as [|x a IH]; intros [|y b]; simpl;
    try (split; [discriminate | discriminate]); try tauto.
  rewrite andb_true_iff, chr_eqb_eq, IH. split.
  - now intros [-> ->].
  - intros H. now inversion H.
Qed.

Lemma str_eqb_refl (a : str) : str_eqb a a = true.
Proof. now apply str_eqb_eq. Qed.

Lemma str_eqb_neq (a b : str) : str_eqb a b = false <-> a <> b.
Proof.
  rewrite <- str_eqb_eq. destruct (str_eqb a b); split; congruence.
Qed.

Lemma code_digit_char (n : Z) : code (digit_char n) = 48 + n mod 10.
Proof.
  unfold code, digit_char.
  assert (H : 0 <= n mod 10 < 10) by (apply Z.mod_pos_bound; lia).
  rewrite N_ascii_embedding.
  - rewrite Z2N.id; lia.
  - lia.
Qed.

Lemma is_digit_digit_char (n : Z) : is_digit (digit_char n) = true.
Proof.
  unfold is_digit. rewrite code_digit_char.
  pose proof (Z.mod_pos_bound n 10). lia.
Qed.

Lemma is_space_digit_char (n : Z) : is_space (digit_char n) = false.
Proof.
  unfold is_space. rewrite code_digit_char.
  pose proof (Z.mod_pos_bound n 10). lia.
Qed.

Lemma digit_val_digit_char (n : Z) : digit_val (digit_char n) = n mod 10.
Proof. unfold digit_val. rewrite code_digit_char. lia. Qed.

Lemma chr_eqb_digit_char (c : ascii) (n : Z) :
  is_digit c = false -> chr_eqb c (digit_char n) = false.
Proof.
  unfold is_digit, chr_eqb. rewrite code_digit_char.
  pose proof (Z.mod_pos_bound n 10). lia.
Qed.

Lemma int_of_fmt2 (n : Z) : 0 <= n < 100 -> int_of_digits (fmt2 n) = n.
Proof.
  intros H. unfold int_of_digits, fmt2. simpl.
  rewrite !digit_val_digit_char. lia.
Qed.

Lemma int_of_fmt4 (n : Z) : 0 <= n < 10000 -> int_of_digits (fmt4 n) = n.
Proof.
  intros H. unfold int_of_digits, fmt4. simpl.
  rewrite !digit_val_digit_char. lia.
Qed.

(** ** The matchers read a prefix

    Every piece of a pattern keeps a continuation [stable]. *)

Section Stability.
Context {R : Type} (rest : R -> str) (trim : R -> R).

















End Stability.




(** ** The patterns on the canonical texts *)

#[local] Arguments digit_char : simpl never.
#[local] Arguments is_space : simpl never.
#[local] Arguments is_digit : simpl never.
#[local] Arguments is_letter : simpl never.
#[local] Arguments is_dot : simpl never.
#[local] Arguments is_datesep : simpl never.
#[local] Arguments chr_eqb : simpl never.

Ltac decide_test t :=
  let v := eval vm_compute in t in
  match v with
  | true => change t with true
  | false => change t with false
  end.

Ltac class_step :=
  match goal with
  | |- context [is_space (digit_char ?n)] => rewrite (is_space_digit_char n)
  | |- context [is_digit (digit_char ?n)] => rewrite (is_digit_digit_char n)
  | |- context [is_space ?c] => decide_test (is_space c)
  | |- context [is_digit ?c] => decide_test (is_digit c)
  | |- context [is_datesep ?c] => decide_test (is_datesep c)
  | |- context [chr_eqb ?a ?b] => decide_test (chr_eqb a b)
  end.

Ltac run_pattern :=
  unfold re_seconds, re_qualifier, re_spaces, re_digits4, re_digits12, re_one;
  cbn [txt list_ascii_of_string app op_symbol fmt2 fmt4 re_star re_lit
       orelse];
  repeat (class_step; cbn [re_star re_lit app orelse]).

Lemma re_spaces_skip {R} (c : ascii) (s : str) (k : str -> option R) :
  is_space c = false -> re_spaces (c :: s) k = k (c :: s).
Proof. intros H. unfold re_spaces. cbn [re_star]. now rewrite H. Qed.

(** After the symbol of an operator the group holds that operator, when
    the rest of the pattern accepts what follows and accepts no text that
    starts with an equals sign. *)
Lemma re_operator_symbol {R} (op : Operator) (s : str)
  (k : option Operator -> str -> option R) (r : R) :
  (forall o s', k o ("="%char :: s') = None) ->
  k (Some op) s = Some r ->
  re_operator (op_symbol op ++ s) k = Some r.
Proof.
  intros Hno Hk. unfold re_operator.
  destruct op; cbn [op_symbol txt list_ascii_of_string app re_lit];
    repeat (class_step; cbn [re_lit orelse]);
    rewrite ?Hno, ?Hk; cbn [orelse]; reflexivity.
Qed.

Lemma op_symbol_head (op : Operator) :
  exists c l, op_symbol op = c :: l /\ is_space c = false.
Proof. destruct op; do 2 eexists; (split; [reflexivity|]); reflexivity. Qed.

Lemma pattern_after_symbol {R} (op : Operator) (s : str)
  (k : option Operator -> str -> option R) (r : R) :
  (forall o s', k o ("="%char :: s') = None) ->
  k (Some op) s = Some r ->
  re_spaces (op_symbol op ++ s) (fun s0 => re_operator s0 k) = Some r.
Proof.
  intros Hno Hk. destruct (op_symbol_head op) as (c & l & E & Hc).
  pose proof (re_operator_symbol op s k r Hno Hk) as H.
  rewrite E in *. cbn [app] in *. now rewrite re_spaces_skip.
Qed.

Lemma date_pattern_canonical (op : Operator) (y m d : Z) (t : str) :
  RE_UNI_DATE_CONSTRAINT
    (op_symbol op ++ txt " " ++ str_date (mkdate y m d) ++ t)
  = Some {| dm_operator := Some op; dm_year := fmt4 y; dm_month := fmt2 m;
            dm_day := fmt2 d; dm_rest := t |}.
Proof.
  unfold RE_UNI_DATE_CONSTRAINT, str_date. cbn [year month day].
  apply pattern_after_symbol.
  - intros o s'. run_pattern. reflexivity.
  - run_pattern. reflexivity.
Qed.

Lemma time_pattern_canonical (op : Operator) (h m s : Z) :
  RE_UNI_TIME_CONSTRAINT (op_symbol op ++ txt " " ++ str_time (mktime h m s))
  = Some {| tm_operator := Some op; tm_hour := fmt2 h; tm_minutes := fmt2 m;
            tm_seconds := Some (fmt2 s); tm_qualifier := None;
            tm_rest := [] |}.
Proof.
  unfold RE_UNI_TIME_CONSTRAINT, str_time. cbn [hour minute second].
  apply pattern_after_symbol.
  - intros o s'. run_pattern. reflexivity.
  - run_pattern. reflexivity.
Qed.

Lemma valid_date_bounds (y m d : Z) :
  valid_date (mkdate y m d) = true ->
  1 <= y <= 9999 /\ 1 <= m <= 12 /\ 1 <= d <= 31.
Proof.
  unfold valid_date, days_in_month. cbn [year month day].
  rewrite !andb_true_iff, !Z.leb_le. intros [[[[[? ?] ?] ?] ?] Hd].
  assert (Hm : m = 1 \/ m = 2 \/ m = 3 \/ m = 4 \/ m = 5 \/ m = 6 \/ m = 7
               \/ m = 8 \/ m = 9 \/ m = 10 \/ m = 11 \/ m = 12) by lia.
  repeat (destruct Hm as [-> | Hm]); try subst m;
    destruct (is_leap y); simpl in Hd; lia.
Qed.

Lemma valid_time_bounds (h m s : Z) :
  valid_time (mktime h m s) = true ->
  0 <= h <= 23 /\ 0 <= m <= 59 /\ 0 <= s <= 59.
Proof.
  unfold valid_time. cbn [hour minute second].
  rewrite !andb_true_iff, !Z.leb_le. lia.
Qed.

Lemma get_uni_date_constraint_inv (s : str) (c : EXMUniConstraint datetime) :
  get_uni_date_constraint s = Some c ->
  exists op y m d,
    c = mkuni op (mkdatetime (mkdate y m d) midnight)
    /\ valid_date (mkdate y m d) = true.
Proof.
  unfold get_uni_date_constraint, new_datetime. intros H.
  destruct (RE_UNI_DATE_CONSTRAINT s) as [g|]; [|discriminate].
  destruct (valid_date _) eqn:E; [|discriminate]. injection H as <-.
  eauto 6.
Qed.

Lemma get_uni_time_constraint_inv (s : str) (c : EXMUniConstraint time) :
  get_uni_time_constraint s = Some c ->
  exists op h m x,
    c = mkuni op (mktime h m x) /\ valid_time (mktime h m x) = true.
Proof.
  unfold get_uni_time_constraint, new_time. intros H.
  destruct (RE_UNI_TIME_CONSTRAINT s) as [g|]; [|discriminate].
  destruct (valid_time _) eqn:E; [|discriminate]. injection H as <-.
  eauto 6.
Qed.

Lemma get_uni_date_constraint_canonical (op : Operator) (y m d : Z)
  (t : str) :
  valid_date (mkdate y m d) = true ->
  get_uni_date_constraint
    (op_symbol op ++ txt " " ++ str_date (mkdate y m d) ++ t)
  = Some (mkuni op (mkdatetime (mkdate y m d) midnight)).
Proof.
  intros Hv. unfold get_uni_date_constraint.
  rewrite date_pattern_canonical. cbn [dm_operator dm_year dm_month dm_day].
  destruct (valid_date_bounds _ _ _ Hv) as (? & ? & ?).
  rewrite int_of_fmt4, !int_of_fmt2 by lia.
  unfold new_datetime. now rewrite Hv.
Qed.

Lemma get_uni_time_constraint_canonical (op : Operator) (h m s : Z) :
  valid_time (mktime h m s) = true ->
  get_uni_time_constraint (op_symbol op ++ txt " " ++ str_time (mktime h m s))
  = Some (mkuni op (mktime h m s)).
Proof.
  intros Hv. unfold get_uni_time_constraint.
  rewrite time_pattern_canonical.
  cbn [tm_operator tm_hour tm_minutes tm_seconds tm_qualifier].
  destruct (valid_time_bounds _ _ _ Hv) as (? & ? & ?).
  rewrite !int_of_fmt2 by lia.
  unfold new_time. now rewrite Hv.
Qed.

(** ** The pattern of binary constraints *)

Lemma re_lit_inv {R} (l s : str) (k : str -> option R) (r : R) :
  re_lit l s k = Some r -> exists s', s = l ++ s' /\ k s' = Some r.
Proof.
  revert s. induction l as [|c l IH]; intros s H; simpl in H.
  - now exists s.
  - destruct s as [|d s]; [discriminate|].
    destruct (chr_eqb c d) eqn:E; [|discriminate].
    apply chr_eqb_eq in E as <-.
    destruct (IH _ H) as (s' & -> & Hk). now exists s'.
Qed.

Lemma re_star_inv {R} (cls : ascii -> bool) (k : str -> str -> option R)
  (s acc : str) (r : R) :
  re_star cls acc s k = Some r ->
  exists t s', s = t ++ s' /\ forallb cls t = true
               /\ k (acc ++ t) s' = Some r.
Proof.
  revert acc. induction s as [|c s IH]; intros acc H; simpl in H.
  - exists [], []. simpl. now rewrite app_nil_r.
  - destruct (cls c) eqn:Ec.
    + destruct (re_star cls (acc ++ [c]) s k) eqn:E; simpl in H.
      * injection H as ->. destruct (IH _ E) as (t & s' & -> & Ht & Hk).
        exists (c :: t), s'. simpl. rewrite Ec, Ht.
        now rewrite <- app_assoc in Hk.
      * exists [], (c :: s). simpl. now rewrite app_nil_r.
    + exists [], (c :: s). simpl. now rewrite app_nil_r.
Qed.

Lemma re_plus_inv {R} (cls : ascii -> bool) (k : str -> str -> option R)
  (s : str) (r : R) :
  re_plus cls s k = Some r ->
  exists t s', s = t ++ s' /\ t <> [] /\ forallb cls t = true
               /\ k t s' = Some r.
Proof.
  unfold re_plus, re_one. destruct s as [|c s]; [discriminate|].
  destruct (cls c) eqn:Ec; [|discriminate]. intros H.
  destruct (re_star_inv _ _ _ _ _ H) as (t & s' & -> & Ht & Hk).
  exists (c :: t), s'. simpl. rewrite Ec, Ht. repeat split; easy.
Qed.

Lemma orelse_inv {R} (a b : option R) (r : R) :
  orelse a b = Some r -> a = Some r \/ b = Some r.
Proof. destruct a; simpl; intros H; [left | right]; congruence. Qed.

Lemma re_spaces_inv {R} (k : str -> option R) (s : str) (r : R) :
  re_spaces s k = Some r -> exists s', k s' = Some r.
Proof.
  unfold re_spaces. intros H.
  destruct (re_star_inv _ _ _ _ _ H) as (t & s' & _ & _ & Hk). eauto.
Qed.

Lemma re_operator_inv {R} (k : option Operator -> str -> option R)
  (s : str) (r : R) :
  re_operator s k = Some r -> exists o s', k o s' = Some r.
Proof.
  unfold re_operator. intros H.
  repeat (apply orelse_inv in H as [H|H];
          [apply re_lit_inv in H as (s' & _ & H); eauto|]).
  eauto.
Qed.

Lemma re_cell_inv {R} (k : str -> str -> option R) (s : str) (r : R) :
  re_cell s k = Some r -> exists c s', cell_shape c /\ k c s' = Some r.
Proof.
  unfold re_cell. intros H.
  apply re_plus_inv in H as (l & s1 & _ & Hl & Hl' & H).
  apply re_plus_inv in H as (d & s2 & _ & Hd & Hd' & H).
  exists (l ++ d), s2. split; [|easy]. now exists l, d.
Qed.

Lemma re_sheet_inv {R} (k : option str -> str -> option R) (s : str)
  (r : R) :
  re_sheet s k = Some r ->
  exists sh s', k sh s' = Some r
    /\ (sh = None \/ exists x, sh = Some ("$"%char :: x) /\ sheet_shape x).
Proof.
  unfold re_sheet. intros H. apply orelse_inv in H as [H|H].
  - apply re_lit_inv in H as (s1 & _ & H).
    apply re_plus_inv in H as (x & s2 & _ & Hx & Hx' & H).
    apply re_lit_inv in H as (s3 & _ & H).
    exists (Some ("$"%char :: x)), s3. split; [easy|]. right.
    exists x. now split.
  - exists None, s. auto.
Qed.

Lemma RE_BICONSTRAINT_inv (s : str) (m : BiMatch) :
  RE_BICONSTRAINT s = Some m ->
  cell_shape (bm_cell m)
  /\ (bm_sheet m = None
      \/ exists x, bm_sheet m = Some ("$"%char :: x) /\ sheet_shape x).
Proof.
  unfold RE_BICONSTRAINT. intros H.
  apply re_spaces_inv in H as (s1 & H).
  apply re_operator_inv in H as (o & s2 & H).
  apply re_spaces_inv in H as (s3 & H).
  apply re_sheet_inv in H as (sh & s4 & H & Hsh).
  apply re_cell_inv in H as (c & s5 & Hc & H).
  injection H as <-. now split.
Qed.

(** A greedy repetition that can take a whole run, and after which the
    pattern goes on, takes it. *)
Lemma re_star_all {R} (cls : ascii -> bool) (k : str -> str -> option R)
  (t acc s : str) (r : R) :
  forallb cls t = true ->
  k (acc ++ t) s = Some r ->
  (forall c s', s = c :: s' -> cls c = false) ->
  re_star cls acc (t ++ s) k = Some r.
Proof.
  revert acc. induction t as [|c t IH]; intros acc Ht Hk Hs.
  - rewrite app_nil_r in Hk. destruct s as [|c s]; simpl; [easy|].
    now rewrite (Hs c s eq_refl).
  - simpl in Ht. apply andb_true_iff in Ht as [Hc Ht]. simpl. rewrite Hc.
    rewrite (IH (acc ++ [c])); [easy | easy | | easy].
    now rewrite <- app_assoc.
Qed.

Lemma re_plus_all {R} (cls : ascii -> bool) (k : str -> str -> option R)
  (t s : str) (r : R) :
  t <> [] -> forallb cls t = true ->
  k t s = Some r ->
  (forall c s', s = c :: s' -> cls c = false) ->
  re_plus cls (t ++ s) k = Some r.
Proof.
  destruct t as [|c t]; [easy|]. intros _ Ht Hk Hs.
  simpl in Ht. apply andb_true_iff in Ht as [Hc Ht].
  unfold re_plus, re_one. simpl. rewrite Hc. now apply re_star_all.
Qed.

(** A text without a period gives the pattern no place to end a sheet. *)
Lemma re_star_no_period {R} (g : str -> str -> option R) (w acc : str) :
  no_period w ->
  re_star is_dot acc w (fun a s => re_lit (txt ".") s (g a)) = None.
Proof.
  revert acc. induction w as [|c w IH]; intros acc Hw; cbn [re_star];
    [easy|].
  assert (Hc : chr_eqb "."%char c = false) by (apply Hw; now left).
  assert (Hw' : no_period w) by (intros d Hd; apply Hw; now right).
  cbn [txt list_ascii_of_string re_lit].
  rewrite Hc. destruct (is_dot c); [|easy]. now rewrite IH.
Qed.

(** The sheet ends at the last period. *)
Lemma re_star_last_period {R} (g : str -> str -> option R) (x w acc : str)
  (r : R) :
  forallb is_dot x = true -> no_period w ->
  g (acc ++ x) w = Some r ->
  re_star is_dot acc (x ++ "."%char :: w)
          (fun a s => re_lit (txt ".") s (g a)) = Some r.
Proof.
  revert acc. induction x as [|c x IH]; intros acc Hx Hw Hg.
  - rewrite app_nil_r in Hg. cbn [app re_star].
    decide_test (is_dot "."%char). rewrite re_star_no_period by easy.
    cbn [orelse txt list_ascii_of_string re_lit].
    decide_test (chr_eqb "."%char "."%char). exact Hg.
  - simpl in Hx. apply andb_true_iff in Hx as [Hc Hx].
    cbn [app re_star]. rewrite Hc.
    rewrite (IH (acc ++ [c])); [easy | easy | easy |].
    now rewrite <- app_assoc.
Qed.

Lemma letter_not_digit (c : ascii) : is_digit c = true -> is_letter c = false.
Proof. unfold is_digit, is_letter. lia. Qed.

Lemma no_period_cell (l d : str) :
  forallb is_letter l = true -> forallb is_digit d = true ->
  no_period (l ++ d).
Proof.
  intros Hl Hd c Hc. apply in_app_or in Hc.
  rewrite forallb_forall in Hl, Hd. unfold chr_eqb.
  change (code "."%char) with 46.
  destruct Hc as [Hc|Hc]; [apply Hl in Hc | apply Hd in Hc];
    unfold is_letter, is_digit in Hc; lia.
Qed.

Lemma re_cell_all {R} (k : str -> str -> option R) (l d : str) (r : R) :
  l <> [] -> d <> [] ->
  forallb is_letter l = true -> forallb is_digit d = true ->
  k (l ++ d) [] = Some r ->
  re_cell (l ++ d) k = Some r.
Proof.
  intros Hl Hd Hl' Hd' Hk. unfold re_cell.
  apply re_plus_all; [easy | easy | |].
  - rewrite <- (app_nil_r d). apply re_plus_all; [easy | easy | easy |].
    intros; discriminate.
  - intros c s' ->. apply letter_not_digit.
    simpl in Hd'. now apply andb_true_iff in Hd' as [? _].
Qed.

Lemma bi_pattern_canonical (op : Operator) (x l d : str) :
  sheet_shape x -> l <> [] -> d <> [] ->
  forallb is_letter l = true -> forallb is_digit d = true ->
  RE_BICONSTRAINT
    (op_symbol op ++ txt " " ++ ("$"%char :: x) ++ txt "." ++ l ++ d)
  = Some {| bm_operator := Some op; bm_sheet := Some ("$"%char :: x);
            bm_cell := l ++ d; bm_rest := [] |}.
Proof.
  intros [Hx Hx'] Hl Hd Hl' Hd'. unfold RE_BICONSTRAINT.
  apply pattern_after_symbol.
  - intros o s'. rewrite re_spaces_skip by reflexivity.
    unfold re_sheet, re_cell, re_plus, re_one.
    cbn [txt list_ascii_of_string re_lit orelse].
    decide_test (chr_eqb "$"%char "="%char).
    decide_test (is_letter "="%char). reflexivity.
  - cbn [txt list_ascii_of_string app].
    unfold re_spaces.
    apply (re_star_all is_space _ [" "%char] []); [reflexivity | |].
    2:{ intros c s' [= <- _]. reflexivity. }
    unfold re_sheet. cbn [txt list_ascii_of_string re_lit app].
    decide_test (chr_eqb "$"%char "$"%char). cbv iota.
    destruct x as [|c x]; [easy|]. simpl in Hx'.
    apply andb_true_iff in Hx' as [Hc Hx'].
    unfold re_plus at 1. unfold re_one. cbn [app]. rewrite Hc.
    pose proof (re_star_last_period
               (fun a s => re_cell s (fun c0 s0 =>
                  Some {| bm_operator := Some op;
                          bm_sheet := Some ("$"%char :: a);
                          bm_cell := c0; bm_rest := s0 |}))
               x (l ++ d) [c]
               {| bm_operator := Some op; bm_sheet := Some ("$"%char :: c :: x);
                  bm_cell := l ++ d; bm_rest := [] |}
               Hx' (no_period_cell l d Hl' Hd')) as H.
    cbn [txt list_ascii_of_string re_lit] in H.
    rewrite H; [reflexivity|]. now apply re_cell_all.
Qed.

Lemma re_operator_digit {R} (c : ascii) (s : str)
  (k : option Operator -> str -> option R) :
  is_digit c = true -> re_operator (c :: s) k = k None (c :: s).
Proof.
  intros H.
  assert (E : forall a, is_digit a = false -> chr_eqb a c = false).
  { intros a Ha. unfold chr_eqb, is_digit in *. lia. }
  unfold re_operator.
  cbn [op_symbol txt list_ascii_of_string re_lit].
  rewrite !E by reflexivity. reflexivity.
Qed.

Lemma date_pattern_bare (y m d : Z) (t : str) :
  RE_UNI_DATE_CONSTRAINT (str_date (mkdate y m d) ++ t)
  = Some {| dm_operator := None; dm_year := fmt4 y; dm_month := fmt2 m;
            dm_day := fmt2 d; dm_rest := t |}.
Proof.
  unfold RE_UNI_DATE_CONSTRAINT, str_date. cbn [year month day fmt4 app].
  rewrite re_spaces_skip by apply is_space_digit_char.
  rewrite re_operator_digit by apply is_digit_digit_char.
  run_pattern. reflexivity.
Qed.

Lemma get_uni_date_constraint_bare (d : date) (t : str) :
  valid_date d = true ->
  get_uni_date_constraint (str_date d ++ t)
  = Some (mkuni OpEq (mkdatetime d midnight)).
Proof.
  destruct d as [y m d]. intros Hv. unfold get_uni_date_constraint.
  rewrite date_pattern_bare. cbn [dm_operator dm_year dm_month dm_day].
  destruct (valid_date_bounds _ _ _ Hv) as (? & ? & ?).
  rewrite int_of_fmt4, !int_of_fmt2 by lia.
  unfold new_datetime. now rewrite Hv.
Qed.

(** ** Parsing again the text of a constraint *)

(** After the symbol of an operator and a space the group has no way to
    an answer when the rest of the pattern refuses what follows the symbol,
    whatever starts with an equals sign, and the text with its symbol. *)
Lemma re_operator_symbol_none {R} (op : Operator) (s : str)
  (k : option Operator -> str -> option R) :
  (forall o s', k o ("="%char :: s') = None) ->
  k (Some op) (" "%char :: s) = None ->
  k None (op_symbol op ++ " "%char :: s) = None ->
  re_operator (op_symbol op ++ " "%char :: s) k = None.
Proof.
  intros Hno Hk Hnone. unfold re_operator.
  destruct op; cbn [op_symbol txt list_ascii_of_string app re_lit] in *;
    repeat (class_step; cbn [re_lit orelse]);
    rewrite ?Hno, ?Hk, ?Hnone; cbn [orelse]; reflexivity.
Qed.

Lemma pattern_after_symbol_none {R} (op : Operator) (s : str)
  (k : option Operator -> str -> option R) :
  (forall o s', k o ("="%char :: s') = None) ->
  k (Some op) (" "%char :: s) = None ->
  k None (op_symbol op ++ " "%char :: s) = None ->
  re_spaces (op_symbol op ++ txt " " ++ s) (fun s0 => re_operator s0 k)
  = None.
Proof.
  intros Hno Hk Hnone. destruct (op_symbol_head op) as (c & l & E & Hc).
  pose proof (re_operator_symbol_none op s k Hno Hk Hnone) as H.
  cbn [txt list_ascii_of_string app].
  rewrite E in *. cbn [app] in *. now rewrite re_spaces_skip.
Qed.

(** The text of a time is no date. *)
Lemma date_pattern_on_time (op : Operator) (t : time) :
  RE_UNI_DATE_CONSTRAINT (op_symbol op ++ txt " " ++ str_time t) = None.
Proof.
  unfold RE_UNI_DATE_CONSTRAINT, str_time.
  apply pattern_after_symbol_none.
  - intros o s'. run_pattern. reflexivity.
  - run_pattern. reflexivity.
  - destruct op; run_pattern; reflexivity.
Qed.

(** The text of a key is no date and no time. *)
Lemma date_pattern_on_key (op : Operator) (key : str) :
  RE_UNI_DATE_CONSTRAINT (op_symbol op ++ txt " " ++ "$"%char :: key) = None.
Proof.
  unfold RE_UNI_DATE_CONSTRAINT.
  apply pattern_after_symbol_none.
  - intros o s'. run_pattern. reflexivity.
  - run_pattern. reflexivity.
  - destruct op; run_pattern; reflexivity.
Qed.

Lemma time_pattern_on_key (op : Operator) (key : str) :
  RE_UNI_TIME_CONSTRAINT (op_symbol op ++ txt " " ++ "$"%char :: key) = None.
Proof.
  unfold RE_UNI_TIME_CONSTRAINT.
  apply pattern_after_symbol_none.
  - intros o s'. run_pattern. reflexivity.
  - run_pattern. reflexivity.
  - destruct op; run_pattern; reflexivity.
Qed.

Lemma get_biconstraint_key (s sheetname : str) (c : EXMBiConstraint) :
  sheet_shape sheetname ->
  get_biconstraint s sheetname = Some c ->
  exists op x l d,
    c = mkbi op (("$"%char :: x) ++ txt "." ++ l ++ d)
    /\ sheet_shape x /\ l <> [] /\ d <> []
    /\ forallb is_letter l = true /\ forallb is_digit d = true.
Proof.
  intros Hsheet H. unfold get_biconstraint in H.
  destruct (RE_BICONSTRAINT s) as [g|] eqn:E; [|discriminate].
  injection H as <-.
  destruct (RE_BICONSTRAINT_inv _ _ E)
    as [(l & d & Hc & Hl & Hd & Hl' & Hd') Hs].
  rewrite Hc. destruct Hs as [-> | (x & -> & Hx)].
  - exists (operator_or_default (bm_operator g)), sheetname, l, d.
    split; [reflexivity|]. tauto.
  - exists (operator_or_default (bm_operator g)), x, l, d.
    split; [reflexivity|]. tauto.
Qed.

(** C9. Every constraint that one of the three parsers produces is parsed
    again from its text ([__str__]: the operator, a space, then the constant
    or the referenced key) into the same constraint, by the parser that
    produced it and by the constraint parser with its order of priority:
    the unit-date and the unit-time constraints for every fragment, the
    binary constraint for every fragment of a sheet whose name is not empty
    and holds no line feed. *)
Theorem reparse_canonical_form :
  (forall s c, get_uni_date_constraint s = Some c ->
     get_uni_date_constraint (uni_str str_datetime c) = Some c
     /\ forall sheetname,
          classify sheetname (uni_str str_datetime c) = Some (UnitDate c))
  /\ (forall s c, get_uni_time_constraint s = Some c ->
        get_uni_time_constraint (uni_str str_time c) = Some c
        /\ forall sheetname,
             classify sheetname (uni_str str_time c) = Some (UnitTime c))
  /\ (forall s sheetname c,
        sheet_shape sheetname ->
        get_biconstraint s sheetname = Some c ->
        forall sheetname',
          get_biconstraint (bi_str c) sheetname' = Some c
          /\ classify sheetname' (bi_str c) = Some (Binary c)).
Proof.
  split; [|split].
  - intros s c H.
    destruct (get_uni_date_constraint_inv _ _ H) as (op & y & m & d & -> & Hv).
    assert (E : get_uni_date_constraint
                  (uni_str str_datetime
                     (mkuni op (mkdatetime (mkdate y m d) midnight)))
                = Some (mkuni op (mkdatetime (mkdate y m d) midnight))).
    { unfold uni_str, str_datetime.
      cbn [get_operator get_const dt_date dt_time].
      now apply get_uni_date_constraint_canonical. }
    split; [exact E|]. intros sheetname.
    unfold classify, priority. cbn [first_match]. now rewrite E.
  - intros s c H.
    destruct (get_uni_time_constraint_inv _ _ H) as (op & h & m & x & -> & Hv).
    assert (E : get_uni_time_constraint
                  (uni_str str_time (mkuni op (mktime h m x)))
                = Some (mkuni op (mktime h m x))).
    { unfold uni_str. cbn [get_operator get_const].
      now apply get_uni_time_constraint_canonical. }
    split; [exact E|]. intros sheetname.
    unfold classify, priority. cbn [first_match]. rewrite E.
    unfold get_uni_date_constraint, uni_str. cbn [get_operator get_const].
    now rewrite date_pattern_on_time.
  - intros s sheetname c Hsheet H sheetname'.
    destruct (get_biconstraint_key _ _ _ Hsheet H)
      as (op & x & l & d & -> & Hx & Hl & Hd & Hl' & Hd').
    assert (E : get_biconstraint
                  (bi_str (mkbi op (("$"%char :: x) ++ txt "." ++ l ++ d)))
                  sheetname'
                = Some (mkbi op (("$"%char :: x) ++ txt "." ++ l ++ d))).
    { unfold bi_str, get_biconstraint. cbn [bi_get_operator get_var].
      now rewrite bi_pattern_canonical. }
    split; [exact E|].
    unfold classify, priority. cbn [first_match]. rewrite E.
    unfold get_uni_date_constraint, get_uni_time_constraint, bi_str.
    cbn [bi_get_operator get_var app].
    now rewrite date_pattern_on_key, time_pattern_on_key.
Qed.

Lemma reparse_canonical_form_witness :
  classify (txt "GII") (txt "= 2024-05-01 00:00:00")
  = Some (UnitDate (mkuni OpEq (mkdatetime (mkdate 2024 5 1) midnight)))
  /\ classify (txt "GII") (txt "> 21:30:00")
     = Some (UnitTime (mkuni OpGt (mktime 21 30 0)))
  /\ classify (txt "EII") (txt "<= $GII.B21")
     = Some (Binary (mkbi OpLe (txt "$GII.B21"))).
Proof.
  destruct reparse_canonical_form as (Hd & Ht & Hb).
  split; [|split].
  - exact (proj2 (Hd (txt "2024/5/1") _ eq_refl) (txt "GII")).
  - exact (proj2 (Ht (txt ">9:30 PM") _ eq_refl) (txt "GII")).
  - refine (proj2 (Hb (txt "<=B21") (txt "GII") _ _ eq_refl (txt "EII"))).
    split; [discriminate | reflexivity].
Defined.

(** ** Trailing text *)




(** ** The order of dates and the minimum gap *)

Lemma days_before_year_mono (a b : Z) :
  a <= b -> days_before_year a <= days_before_year b.
Proof. unfold days_before_year. lia. Qed.

Lemma days_before_year_next (y : Z) :
  days_before_year (y + 1)
  = days_before_year y + 365 + (if is_leap y then 1 else 0).
Proof.
  unfold days_before_year, is_leap.
  replace (y + 1 - 1) with y by lia.
  destruct (y mod 4 =? 0) eqn:E4, (y mod 100 =? 0) eqn:E100,
           (y mod 400 =? 0) eqn:E400; simpl; lia.
Qed.

Lemma month_cases (m : Z) :
  1 <= m <= 12 ->
  m = 1 \/ m = 2 \/ m = 3 \/ m = 4 \/ m = 5 \/ m = 6 \/ m = 7 \/ m = 8
  \/ m = 9 \/ m = 10 \/ m = 11 \/ m = 12.
Proof. lia. Qed.

Ltac each_month H :=
  apply month_cases in H;
  repeat (destruct H as [H | H]); subst.

Ltac month_tables :=
  cbv beta iota delta
    [Z.eqb Pos.eqb Z.ltb Z.compare Pos.compare Pos.compare_cont andb] in *.

(** Within a year, a day of an earlier month comes before every day of a
    later month. *)
Lemma days_before_month_lt (y m m' d : Z) :
  1 <= m <= 12 -> 1 <= m' <= 12 -> m < m' ->
  d <= days_in_month y m ->
  days_before_month y m + d <= days_before_month y m'.
Proof.
  intros Hm Hm' Hlt Hd. unfold days_in_month, days_before_month in *.
  destruct (is_leap y); each_month Hm; each_month Hm';
    try lia; month_tables; lia.
Qed.

Lemma days_before_month_end (y m d : Z) :
  1 <= m <= 12 -> d <= days_in_month y m ->
  days_before_month y m + d <= 365 + (if is_leap y then 1 else 0).
Proof.
  intros Hm Hd. unfold days_in_month, days_before_month in *.
  destruct (is_leap y); each_month Hm; month_tables; lia.
Qed.

Lemma days_before_month_nonneg (y m : Z) : 0 <= days_before_month y m.
Proof.
  unfold days_before_month.
  destruct ((2 <? m) && is_leap y);
    destruct m as [|p|p]; try lia;
    do 4 (try destruct p as [p|p|]); lia.
Qed.

Lemma valid_date_fields (a : date) :
  valid_date a = true ->
  1 <= month a <= 12 /\ 1 <= day a <= days_in_month (year a) (month a).
Proof. unfold valid_date. rewrite !andb_true_iff, !Z.leb_le. lia. Qed.

Lemma toordinal_lt (a b : date) :
  valid_date a = true -> valid_date b = true ->
  (date_ltb a b = true <-> toordinal a < toordinal b).
Proof.
  intros Ha Hb.
  apply valid_date_fields in Ha as [Ham Had].
  apply valid_date_fields in Hb as [Hbm Hbd].
  unfold date_ltb, toordinal.
  pose proof (days_before_month_end (year a) (month a) (day a) Ham
                (proj2 Had)) as Ea.
  pose proof (days_before_month_end (year b) (month b) (day b) Hbm
                (proj2 Hbd)) as Eb.
  pose proof (days_before_year_next (year a)) as Na.
  pose proof (days_before_year_next (year b)) as Nb.
  pose proof (days_before_month_nonneg (year a) (month a)).
  pose proof (days_before_month_nonneg (year b) (month b)).
  destruct (Z.lt_trichotomy (year a) (year b)) as [Hy | [Hy | Hy]].
  - pose proof (days_before_year_mono (year a + 1) (year b) ltac:(lia)).
    split; [lia | intros _].
    apply orb_true_iff. left. now apply Z.ltb_lt.
  - rewrite Hy in *.
    destruct (Z.lt_trichotomy (month a) (month b)) as [Hm | [Hm | Hm]].
    + pose proof (days_before_month_lt (year b) (month a) (month b) (day a)
                    Ham Hbm Hm (proj2 Had)).
      split; [lia | intros _]. rewrite Z.ltb_irrefl, Z.eqb_refl. simpl.
      apply orb_true_iff. left. now apply Z.ltb_lt.
    + rewrite Hm in *. rewrite !Z.ltb_irrefl, !Z.eqb_refl. simpl.
      rewrite Z.ltb_lt. lia.
    + pose proof (days_before_month_lt (year b) (month b) (month a) (day b)
                    Hbm Ham Hm (proj2 Hbd)).
      rewrite Z.ltb_irrefl, Z.eqb_refl. simpl.
      replace (month a <? month b) with false by (symmetry; lia).
      replace (month a =? month b) with false by (symmetry; lia).
      simpl. split; [discriminate | lia].
  - pose proof (days_before_year_mono (year b + 1) (year a) ltac:(lia)).
    replace (year a <? year b) with false by (symmetry; lia).
    replace (year a =? year b) with false by (symmetry; lia).
    simpl. split; [discriminate | lia].
Qed.

Lemma date_eqb_eq (a b : date) : date_eqb a b = true <-> a = b.
Proof.
  destruct a, b. unfold date_eqb. simpl.
  rewrite !andb_true_iff, !Z.eqb_eq. split.
  - now intros [[-> ->] ->].
  - intros [= -> -> ->]. auto.
Qed.

Lemma seconds_of_day_bounds (t : time) :
  valid_time t = true -> 0 <= seconds_of_day t < 86400.
Proof.
  unfold valid_time, seconds_of_day.
  rewrite !andb_true_iff, !Z.leb_le. lia.
Qed.

Lemma time_ltb_lt (a b : time) :
  valid_time a = true -> valid_time b = true ->
  (time_ltb a b = true <-> seconds_of_day a < seconds_of_day b).
Proof.
  unfold valid_time, time_ltb, seconds_of_day.
  rewrite !andb_true_iff, !Z.leb_le. intros Ha Hb.
  rewrite !orb_true_iff, !andb_true_iff, !orb_true_iff, !andb_true_iff,
    !Z.ltb_lt, !Z.eqb_eq.
  lia.
Qed.

Lemma datetime_ltb_lt (a b : datetime) :
  valid_datetime a -> valid_datetime b ->
  (datetime_ltb a b = true <-> timestamp a < timestamp b).
Proof.
  intros [Had Hat] [Hbd Hbt]. unfold datetime_ltb, timestamp.
  pose proof (seconds_of_day_bounds _ Hat).
  pose proof (seconds_of_day_bounds _ Hbt).
  pose proof (toordinal_lt _ _ Had Hbd) as Hab.
  pose proof (toordinal_lt _ _ Hbd Had) as Hba.
  pose proof (time_ltb_lt _ _ Hat Hbt) as Ht.
  rewrite orb_true_iff, andb_true_iff, date_eqb_eq.
  split.
  - intros [Hd | [Hd Hlt]].
    + apply Hab in Hd. lia.
    + rewrite Hd. apply Ht in Hlt. lia.
  - intros Hlt.
    destruct (date_ltb (dt_date a) (dt_date b)) eqn:E; [now left|].
    right.
    assert (Hn : ~ toordinal (dt_date a) < toordinal (dt_date b))
      by (intros Hx; apply Hab in Hx; congruence).
    assert (Heq : toordinal (dt_date a) = toordinal (dt_date b)) by lia.
    split; [|apply Ht; lia].
    destruct (date_ltb (dt_date b) (dt_date a)) eqn:E'.
    + assert (toordinal (dt_date b) < toordinal (dt_date a))
        by now apply Hba.
      lia.
    + destruct (dt_date a) as [ya ma da], (dt_date b) as [yb mb db].
      unfold date_ltb in E, E'. simpl in E, E'. f_equal; lia.
Qed.

Lemma total_seconds_sub (a b : datetime) :
  total_seconds (datetime_sub a b) = timestamp a - timestamp b.
Proof.
  unfold total_seconds, datetime_sub, new_timedelta, timestamp.
  cbn [days seconds]. lia.
Qed.

(** C5. For two values, the minimum-gap predicate holds exactly when the
    absolute duration between them is at least the setup time, in hours,
    of the one with the later moment. *)
Theorem bi_difftime_later_gap (xi xj : EXMValue) :
  valid_datetime (get_value xi) -> valid_datetime (get_value xj) ->
  (bi_difftime xi xj = true
   <-> 3600 * later_setup xi xj
       <= Z.abs (timestamp (get_value xi) - timestamp (get_value xj))).
Proof.
  intros Hi Hj. unfold bi_difftime, later_setup, hours_at_least, datetime_gtb.
  pose proof (datetime_ltb_lt _ _ Hj Hi) as Hlt.
  rewrite !total_seconds_sub.
  destruct (datetime_ltb (get_value xj) (get_value xi)) eqn:E.
  - assert (timestamp (get_value xj) < timestamp (get_value xi))
      by now apply Hlt.
    replace (timestamp (get_value xj) <? timestamp (get_value xi))
      with true by (symmetry; lia).
    rewrite Z.leb_le. lia.
  - assert (~ timestamp (get_value xj) < timestamp (get_value xi))
      by (intros Hx; apply Hlt in Hx; congruence).
    replace (timestamp (get_value xj) <? timestamp (get_value xi))
      with false by (symmetry; lia).
    rewrite Z.leb_le. lia.
Qed.

Lemma bi_difftime_later_gap_witness :
  bi_difftime
    (set_setup 24 (init (mkdate 2024 5 2) (mktime 9 0 0)))
    (set_setup 48 (init (mkdate 2024 5 1) (mktime 9 0 0))) = true
  /\ bi_difftime
       (set_setup 24 (init (mkdate 2024 5 2) (mktime 8 59 0)))
       (set_setup 48 (init (mkdate 2024 5 1) (mktime 9 0 0))) = false.
Proof.
  split.
  - apply (proj2 (bi_difftime_later_gap
                    (set_setup 24 (init (mkdate 2024 5 2) (mktime 9 0 0)))
                    (set_setup 48 (init (mkdate 2024 5 1) (mktime 9 0 0)))
                    (conj eq_refl eq_refl) (conj eq_refl eq_refl))).
    vm_compute. discriminate.
  - apply not_true_is_false. intros H.
    apply (proj1 (bi_difftime_later_gap
                    (set_setup 24 (init (mkdate 2024 5 2) (mktime 8 59 0)))
                    (set_setup 48 (init (mkdate 2024 5 1) (mktime 9 0 0)))
                    (conj eq_refl eq_refl) (conj eq_refl eq_refl))) in H.
    vm_compute in H. now apply H.
Defined.

(** ** The constraint parser *)

Lemma get_constraints_loop (sheetname cellname : str) (l : list str)
  (ds : list (EXMUniConstraint datetime)) (ts : list (EXMUniConstraint time))
  (bs : list EXMBiConstraint) (log : list message) :
  for_each l (get_constraints_step sheetname cellname) (ds, ts, bs) log
  = let fs := filter (fun f => negb (is_blank f)) l in
    match first_unmatched sheetname fs with
    | Some f =>
        (Raise SystemExit, log ++ [ERROR_CONSTRAINT f sheetname cellname])
    | None =>
        (Return (ds ++ unit_dates sheetname fs, ts ++ unit_times sheetname fs,
                 bs ++ binaries sheetname fs), log)
    end.
Proof.
  revert ds ts bs. induction l as [|f l IH]; intros ds ts bs.
  - cbn. now rewrite !app_nil_r.
  - cbn [for_each filter]. unfold bind at 1.
    unfold get_constraints_step at 1.
    destruct (is_blank f) eqn:Eb; cbn [negb].
    + unfold ret at 1. apply IH.
    + cbn [first_unmatched unit_dates unit_times binaries flat_map].
      unfold classify, priority. cbn [first_match].
      destruct (get_uni_date_constraint f) as [c|]; cbn [option_map].
      { unfold ret at 1. rewrite IH. cbv zeta.
        destruct (first_unmatched _ _); [reflexivity|].
        cbn [app]. now rewrite <- app_assoc. }
      destruct (get_uni_time_constraint f) as [c|]; cbn [option_map].
      { unfold ret at 1. rewrite IH. cbv zeta.
        destruct (first_unmatched _ _); [reflexivity|].
        cbn [app]. now rewrite <- app_assoc. }
      destruct (get_biconstraint f sheetname) as [c|]; cbn [option_map].
      { unfold ret at 1. rewrite IH. cbv zeta.
        destruct (first_unmatched _ _); [reflexivity|].
        cbn [app]. now rewrite <- app_assoc. }
      reflexivity.
Qed.

Lemma comma_pieces_cons (s : str) :
  exists piece others, comma_pieces s = piece :: others.
Proof.
  destruct s as [|c s]; cbn [comma_pieces]; [eauto|].
  destruct (chr_eqb c ","%char); [eauto|].
  destruct (comma_pieces s); eauto.
Qed.

(** The splitting of the code gives the pieces between the commas. *)
Lemma split_commas_aux_pieces (s cur : str) :
  split_commas_aux cur s
  = match comma_pieces s with
    | piece :: others => (cur ++ piece) :: others
    | [] => [cur]
    end.
Proof.
  revert cur. induction s as [|c s IH]; intros cur;
    cbn [split_commas_aux comma_pieces].
  - now rewrite app_nil_r.
  - unfold chr_eqb. change (code ","%char) with 44.
    destruct (code c =? 44).
    + rewrite app_nil_r, IH.
      now destruct (comma_pieces_cons s) as (p & ps & ->).
    + rewrite IH. destruct (comma_pieces_cons s) as (p & ps & ->).
      now rewrite <- app_assoc.
Qed.

Lemma split_commas_pieces (s : str) : split_commas s = comma_pieces s.
Proof.
  unfold split_commas. rewrite split_commas_aux_pieces.
  now destruct (comma_pieces_cons s) as (p & ps & ->).
Qed.

Lemma join_comma_pieces (s : str) : join_commas (comma_pieces s) = s.
Proof.
  induction s as [|c s IH]; [reflexivity|]. cbn [comma_pieces].
  destruct (chr_eqb c ","%char) eqn:E.
  - apply chr_eqb_eq in E as ->.
    destruct (comma_pieces_cons s) as (p & ps & Hp). rewrite Hp in *.
    cbn [join_commas app] in *. now rewrite IH.
  - destruct (comma_pieces_cons s) as (p & ps & Hp). rewrite Hp in *.
    cbn [join_commas] in *. destruct ps; cbn [app]; now rewrite IH.
Qed.

Lemma no_comma_pieces (s : str) : Forall no_comma (comma_pieces s).
Proof.
  induction s as [|c s IH]; cbn [comma_pieces].
  - constructor; [intros []|constructor].
  - destruct (chr_eqb c ","%char) eqn:E.
    + constructor; [intros []|exact IH].
    + destruct (comma_pieces_cons s) as (p & ps & Hp). rewrite Hp in *.
      inversion IH as [|? ? Hn Hf]; subst. constructor; [|exact Hf].
      intros [-> | Hin]; [|now apply Hn].
      now rewrite chr_eqb_refl in E.
Qed.

(** C6. [get_constraints] is the parser of the description: the text is
    split into the pieces between its commas (joined with commas they are
    the text again, and none holds a comma), blank fragments are skipped,
    every other fragment goes to the first of the unit-date, unit-time and
    binary patterns that matches it, and a fragment that matches none is
    logged with the sheet and the location and ends the run. *)
Theorem get_constraints_refines (instr sheetname cellname : str)
  (log : list message) :
  get_constraints instr sheetname cellname log
  = get_constraints_spec instr sheetname cellname log
  /\ join_commas (comma_pieces instr) = instr
  /\ Forall no_comma (comma_pieces instr).
Proof.
  split; [|split; [apply join_comma_pieces | apply no_comma_pieces]].
  unfold get_constraints, get_constraints_spec, fragments.
  destruct instr as [|c instr]; [reflexivity|].
  rewrite get_constraints_loop, split_commas_pieces. reflexivity.
Qed.

(** ** The mapping of constraints *)

Section ConstraintSets.
Context {C : Type}.
Implicit Types (self : exmconstraints.EXMConstraints C) (key : str).

Lemma contains_lookup key self :
  exmconstraints.contains key self = true
  <-> exists v, exmconstraints.lookup key self = Some v.
Proof.
  induction self as [|[k v] self IH]; simpl.
  - split; [discriminate | now intros [v Hv]].
  - destruct (str_eqb k key); simpl; [|exact IH].
    split; [eauto | reflexivity].
Qed.

Lemma contains_keys key self :
  exmconstraints.contains key self = true
  <-> In key (exmconstraints.keys self).
Proof.
  unfold exmconstraints.contains, exmconstraints.keys.
  rewrite existsb_exists, in_map_iff. split.
  - intros ([k v] & Hin & Heq). apply str_eqb_eq in Heq. simpl in Heq.
    subst. now exists (key, v).
  - intros ([k v] & <- & Hin). exists (k, v). split; [easy|].
    apply str_eqb_refl.
Qed.

Lemma lookup_in key self v :
  exmconstraints.lookup key self = Some v -> In (key, v) self.
Proof.
  induction self as [|[k w] self IH]; simpl; [discriminate|].
  destruct (str_eqb k key) eqn:E.
  - apply str_eqb_eq in E as ->. intros [= ->]. now left.
  - intros H. right. now apply IH.
Qed.

Lemma in_lookup key self v :
  NoDup (exmconstraints.keys self) -> In (key, v) self ->
  exmconstraints.lookup key self = Some v.
Proof.
  induction self as [|[k w] self IH]; simpl; [easy|].
  intros Hnd [Hin|Hin]; inversion Hnd as [|? ? Hk Hnd']; subst.
  - injection Hin as -> ->. now rewrite str_eqb_refl.
  - destruct (str_eqb k key) eqn:E; [|now apply IH].
    apply str_eqb_eq in E as ->. exfalso. apply Hk.
    change key with (fst (key, v)). now apply in_map.
Qed.

Lemma lookup_extend key value self v :
  exmconstraints.lookup key self = Some v ->
  exmconstraints.lookup key (exmconstraints.extend key value self)
  = Some (v ++ value).
Proof.
  induction self as [|[k w] self IH]; simpl; [discriminate|].
  destruct (str_eqb k key) eqn:E; simpl; rewrite E; [now intros [= ->]|].
  exact IH.
Qed.

Lemma in_extend key value self k v :
  In (k, v) (exmconstraints.extend key value self) ->
  In (k, v) self \/ exists w, In (k, w) self /\ v = w ++ value.
Proof.
  induction self as [|[k' w] self IH]; simpl; [easy|].
  destruct (str_eqb k' key); simpl.
  - intros [[= <- <-]|H]; [right; exists w; auto | auto].
  - intros [H|H]; [auto|]. destruct (IH H) as [?|(x & ? & ?)]; [auto|].
    right. exists x. auto.
Qed.

(** C8, as the code has it.  With every key bound to a list that is not
    empty: an insertion of a list that is not empty keeps it so, and under
    a key already present it appends to the list of that key; the lookup of
    a key that is present answers its list and leaves the mapping as it is;
    the membership test and the enumeration of the keys agree with each
    other; the lookup of a key that is absent answers the empty list and
    leaves the key in the mapping. *)
Theorem constraint_set_operations self :
  no_empty_list self ->
  (forall key value, value <> [] ->
     no_empty_list (exmconstraints.setitem key value self))
  /\ (forall key value old,
        exmconstraints.lookup key self = Some old ->
        exmconstraints.lookup key (exmconstraints.setitem key value self)
        = Some (old ++ value))
  /\ (forall key, exmconstraints.contains key self = true ->
        exists v, exmconstraints.getitem key self = (v, self) /\ v <> [])
  /\ (forall key, exmconstraints.contains key self = true
                  <-> In key (exmconstraints.keys self))
  /\ (forall key, exmconstraints.contains key self = false ->
        exmconstraints.getitem key self = ([], self ++ [(key, [])])).
Proof.
  intros Hinv. repeat split.
  - intros key value Hv k v. unfold exmconstraints.setitem.
    destruct (exmconstraints.contains key self).
    + intros H. apply in_extend in H as [H|(w & H & ->)];
        [exact (Hinv _ _ H)|].
      intros E. apply app_eq_nil in E as [_ E]. contradiction.
    + intros H. apply in_app_or in H as [H|[[= <- <-]|[]]];
        [exact (Hinv _ _ H) | easy].
  - intros key value old H. unfold exmconstraints.setitem.
    assert (Hc : exmconstraints.contains key self = true)
      by (apply contains_lookup; eauto).
    rewrite Hc. now apply lookup_extend.
  - intros key Hc. apply contains_lookup in Hc as [v Hv].
    exists v. unfold exmconstraints.getitem. rewrite Hv. split; [easy|].
    exact (Hinv _ _ (lookup_in _ _ _ Hv)).
  - apply contains_keys.
  - apply contains_keys.
  - intros key Hc. unfold exmconstraints.getitem.
    destruct (exmconstraints.lookup key self) as [v|] eqn:E; [|easy].
    assert (exmconstraints.contains key self = true)
      by (apply contains_lookup; eauto).
    congruence.
Qed.

End ConstraintSets.

Lemma constraint_set_operations_witness :
  exmconstraints.lookup (txt "$GII.B21")
    (exmconstraints.setitem (txt "$GII.B21") [mkbi OpLt (txt "$GII.B21")]
       [(txt "$GII.B21", [mkbi OpGt (txt "$GII.B21")])])
  = Some [mkbi OpGt (txt "$GII.B21"); mkbi OpLt (txt "$GII.B21")].
Proof.
  refine (proj1 (proj2 (constraint_set_operations
                   [(txt "$GII.B21", [mkbi OpGt (txt "$GII.B21")])] _))
            (txt "$GII.B21") [mkbi OpLt (txt "$GII.B21")]
            [mkbi OpGt (txt "$GII.B21")] eq_refl).
  intros k v [[= <- <-]|[]]. discriminate.
Defined.

(** C8, as it is stated, fails: the lookup of a key that the mapping does
    not hold leaves that key bound to the empty list. *)
Lemma lookup_breaks_no_empty_list :
  no_empty_list (@exmconstraints.init EXMBiConstraint)
  /\ ~ no_empty_list
       (snd (exmconstraints.getitem (txt "$GII.B21")
               (@exmconstraints.init EXMBiConstraint))).
Proof.
  split.
  - intros k v [].
  - intros H. apply (H (txt "$GII.B21") []); [now left | reflexivity].
Qed.

(** ** The domain filter *)

Lemma all_entries {C} (P : C -> bool) (self : exmconstraints.EXMConstraints C) :
  NoDup (exmconstraints.keys self) ->
  ((if 0 <? exmconstraints.len self
    then forallb
           (fun ikey => forallb P (fst (exmconstraints.getitem ikey self)))
           (exmconstraints.keys self)
    else true) = true
   <-> forall k l c, In (k, l) self -> In c l -> P c = true).
Proof.
  intros Hnd. destruct self as [|e self']; [now split|].
  set (self := e :: self') in *.
  replace (0 <? exmconstraints.len self) with true
    by (symmetry; apply Z.ltb_lt; unfold exmconstraints.len, self;
        cbn [List.length]; lia).
  rewrite forallb_forall. split.
  - intros H k l c Hkl Hc.
    assert (Hk : In k (exmconstraints.keys self))
      by (change k with (fst (k, l)); now apply in_map).
    specialize (H k Hk). unfold exmconstraints.getitem in H.
    rewrite (in_lookup _ _ _ Hnd Hkl) in H. simpl in H.
    rewrite forallb_forall in H. now apply H.
  - intros H ikey Hk. apply contains_keys, contains_lookup in Hk as [v Hv].
    unfold exmconstraints.getitem. rewrite Hv. simpl.
    apply forallb_forall. intros c Hc.
    apply (H ikey v c); [now apply lookup_in | easy].
Qed.

Lemma uni_is_compatible_iff (variable : exmvariable.EXMVariable)
  (value : EXMValue) :
  distinct_unit_keys variable ->
  (uni_is_compatible variable value = true
   <-> satisfies_unit_constraints variable value).
Proof.
  intros [Hd Ht]. unfold uni_is_compatible, satisfies_unit_constraints.
  rewrite andb_true_iff.
  rewrite (all_entries
             (fun c => uni_date_table (get_operator c) (get_value value)
                                      (get_const c)) _ Hd).
  rewrite (all_entries
             (fun c => uni_time_table (get_operator c) (get_value value)
                                      (get_const c)) _ Ht).
  reflexivity.
Qed.

(** C7. A candidate value is in the filtered domain of an item, with the
    setup time of the item, exactly when it satisfies every unit-date and
    every unit-time constraint of the item; an item without unit constraints
    keeps every candidate; the unit-date predicates look at the date of the
    value only and the unit-time predicates at its time only. *)
Theorem filtered_domain_conjunction (ivariable : exmvariable.EXMVariable)
  (domain : list EXMValue) :
  distinct_unit_keys ivariable ->
  (forall newval,
     In newval (filtered_domain ivariable domain)
     <-> exists ivalue,
           In ivalue domain
           /\ satisfies_unit_constraints ivariable ivalue
           /\ newval = set_setup (exmvariable.get_setup ivariable) ivalue)
  /\ (exmvariable.get_date_uniconstraints ivariable = [] ->
      exmvariable.get_time_uniconstraints ivariable = [] ->
      filtered_domain ivariable domain
      = map (set_setup (exmvariable.get_setup ivariable)) domain)
  /\ (forall op d t t' c,
        uni_date_table op (mkdatetime d t) c
        = uni_date_table op (mkdatetime d t') c)
  /\ (forall op d d' t c,
        uni_time_table op (mkdatetime d t) c
        = uni_time_table op (mkdatetime d' t) c).
Proof.
  intros Hk. split; [|split; [|split]].
  - intros newval. unfold filtered_domain. split.
    + intros H. apply in_map_iff in H as (v & <- & Hv).
      apply filter_In in Hv as [Hv Hc].
      exists v. repeat split; try easy; now apply uni_is_compatible_iff.
    + intros (v & Hv & Hs & ->).
      apply in_map, filter_In. split; [easy|].
      now apply uni_is_compatible_iff.
  - intros Hd Ht. unfold filtered_domain. f_equal.
    apply forallb_filter_id. apply forallb_forall. intros v _.
    unfold uni_is_compatible. now rewrite Hd, Ht.
  - intros op d t t' c. now destruct op.
  - intros op d d' t c. now destruct op.
Qed.

Lemma filtered_domain_conjunction_witness :
  In (set_setup 48 (init (mkdate 2024 5 9) (mktime 16 0 0)))
     (filtered_domain may_item
        [init (mkdate 2024 4 30) (mktime 9 0 0);
         init (mkdate 2024 5 9) (mktime 16 0 0);
         init (mkdate 2024 5 10) (mktime 9 0 0)]).
Proof.
  assert (Hk : distinct_unit_keys may_item).
  { split; [|apply NoDup_nil].
    apply NoDup_cons; [intros [] | apply NoDup_nil]. }
  apply (proj1 (filtered_domain_conjunction may_item _ Hk)).
  exists (init (mkdate 2024 5 9) (mktime 16 0 0)).
  split; [right; now left|]. split; [|reflexivity].
  split.
  - intros k l c [[= <- <-]|[]] [<-|[<-|[]]]; reflexivity.
  - intros k l c [].
Defined.

(** ** An empty domain *)

Lemma variables_step_empty (domain : list EXMValue)
  (ivariable : exmvariable.EXMVariable) (task : Problem)
  (log : list message) :
  filtered_domain ivariable domain = [] ->
  variables_step domain ivariable task log
  = (Raise ValueError_solver, log ++ [ERROR_EMPTY_DOMAIN ivariable]).
Proof.
  intros H. unfold variables_step. rewrite H.
  unfold bind, LOGGER_error, addVariable.
  now destruct (existsb _ _).
Qed.

Lemma variables_step_outcome (domain : list EXMValue)
  (ivariable : exmvariable.EXMVariable) (task : Problem)
  (log : list message) :
  (exists e log', variables_step domain ivariable task log = (Raise e, log'))
  \/ (variables_step domain ivariable task log
      = (Return (mkproblem
                   (p_variables task
                    ++ [(ivariable, filtered_domain ivariable domain)])
                   (p_constraints task)), log)
      /\ filtered_domain ivariable domain <> []
      /\ existsb (fun e => exmvariable.eq (fst e) ivariable)
                 (p_variables task) = false).
Proof.
  destruct (filtered_domain ivariable domain) as [|v l] eqn:E.
  - left. rewrite variables_step_empty by easy. eauto.
  - unfold variables_step. rewrite E. unfold bind, ret, addVariable, raise.
    destruct (existsb _ _) eqn:Ex; [left; eauto | right].
    repeat split; congruence.
Qed.

Lemma variables_loop_aborts (domain : list EXMValue)
  (before after : list exmvariable.EXMVariable)
  (ivariable : exmvariable.EXMVariable) :
  filtered_domain ivariable domain = [] ->
  forall task log,
    exists e log',
      for_each (before ++ ivariable :: after) (variables_step domain) task log
      = (Raise e, log').
Proof.
  intros H. induction before as [|v before IH]; intros task log;
    cbn [app for_each]; unfold bind at 1.
  - rewrite variables_step_empty by easy. eauto.
  - destruct (variables_step_outcome domain v task log)
      as [(e & log' & ->) | (-> & _)]; [eauto | apply IH].
Qed.

Lemma existsb_cellname (ivariable : exmvariable.EXMVariable)
  (l : list (exmvariable.EXMVariable * list EXMValue)) :
  ~ In (exmvariable.get_cellname ivariable)
       (map exmvariable.get_cellname (map fst l)) ->
  existsb (fun e => exmvariable.eq (fst e) ivariable) l = false.
Proof.
  intros H. apply not_true_is_false. intros Hx. apply H.
  apply existsb_exists in Hx as (e & He & Heq).
  apply str_eqb_eq in Heq. rewrite <- Heq.
  apply in_map. now apply in_map.
Qed.

Lemma variables_loop_first (domain : list EXMValue)
  (before after : list exmvariable.EXMVariable)
  (ivariable : exmvariable.EXMVariable) :
  filtered_domain ivariable domain = [] ->
  (forall v, In v before -> filtered_domain v domain <> []) ->
  forall task log,
    NoDup (map exmvariable.get_cellname
               (map fst (p_variables task) ++ before)) ->
    for_each (before ++ ivariable :: after) (variables_step domain) task log
    = (Raise ValueError_solver, log ++ [ERROR_EMPTY_DOMAIN ivariable]).
Proof.
  intros H. induction before as [|v before IH]; intros Hb task log Hnd;
    cbn [app for_each]; unfold bind at 1.
  - now rewrite variables_step_empty.
  - assert (Hv : filtered_domain v domain <> []) by (apply Hb; now left).
    assert (Hfresh : existsb (fun e => exmvariable.eq (fst e) v)
                             (p_variables task) = false).
    { apply existsb_cellname. rewrite map_app in Hnd. cbn [map] in Hnd.
      apply NoDup_remove_2 in Hnd. intros Hin. apply Hnd.
      apply in_or_app. now left. }
    destruct (variables_step_outcome domain v task log)
      as [(e & log' & Hr) | (-> & _)].
    + exfalso. unfold variables_step, bind, ret, addVariable, raise in Hr.
      rewrite Hfresh in Hr.
      destruct (filtered_domain v domain); [easy | discriminate].
    + apply IH; [intros w Hw; apply Hb; now right|].
      cbn [p_variables].
      replace (map fst (p_variables task ++ [(v, filtered_domain v domain)])
               ++ before)
        with (map fst (p_variables task) ++ v :: before); [easy|].
      rewrite map_app. cbn [map fst]. now rewrite <- app_assoc.
Qed.

(** C4. When the filtered domain of an item of the pool is empty, the
    assembly stops with an exception and hands no problem to the solver,
    whatever the other items are; and when the items before it in the pool
    have cell names of their own and domains that are not empty, the last
    error logged is the one of the empty domain, which names that item. *)
Theorem empty_domain_is_fatal (domain : list EXMValue) (poolvar : EXMPoolVar)
  (log : list message) (before after : list exmvariable.EXMVariable)
  (ivariable : exmvariable.EXMVariable) :
  members poolvar = before ++ ivariable :: after ->
  filtered_domain ivariable domain = [] ->
  (exists e log', assemble domain poolvar log = (Raise e, log'))
  /\ ((forall v, In v before -> filtered_domain v domain <> []) ->
      NoDup (map exmvariable.get_cellname before) ->
      assemble domain poolvar log
      = (Raise ValueError_solver, log ++ [ERROR_EMPTY_DOMAIN ivariable])).
Proof.
  intros Hm He. unfold assemble, variables_phase, bind. rewrite Hm. split.
  - destruct (variables_loop_aborts domain before after ivariable He
                (mkproblem [] []) log) as (e & log' & ->). eauto.
  - intros Hb Hnd.
    now rewrite (variables_loop_first domain before after ivariable He Hb).
Qed.

Lemma empty_domain_is_fatal_witness :
  assemble [init (mkdate 2024 5 9) (mktime 16 0 0)]
           (mkpool [may_item; far_item] 0) []
  = (Raise ValueError_solver, [ERROR_EMPTY_DOMAIN far_item]).
Proof.
  refine (proj2 (empty_domain_is_fatal
                   [init (mkdate 2024 5 9) (mktime 16 0 0)]
                   (mkpool [may_item; far_item] 0) [] [may_item] [] far_item
                   eq_refl eq_refl) _ _).
  - intros v [<-|[]]. discriminate.
  - apply NoDup_cons; [intros [] | apply NoDup_nil].
Defined.

(** ** The bindings of the assembly *)

Lemma fold_addConstraint (f : EXMBiConstraint -> predicate)
  (i j : exmvariable.EXMVariable) (l : list EXMBiConstraint)
  (task : Problem) :
  fold_left (fun task c => addConstraint (f c) i j task) l task
  = mkproblem (p_variables task)
      (p_constraints task
       ++ map (fun c => mkbinding (f c) (exmvariable.get_cellname i)
                                  (exmvariable.get_cellname j)) l).
Proof.
  revert task. induction l as [|c l IH]; intros task; simpl.
  - rewrite app_nil_r. now destruct task.
  - rewrite IH. unfold addConstraint. simpl. now rewrite <- app_assoc.
Qed.

Lemma contains_getitem (key : str)
  (self : exmconstraints.EXMConstraints EXMBiConstraint) :
  match exmconstraints.lookup key self with
  | Some l => exmconstraints.contains key self = true
              /\ fst (exmconstraints.getitem key self) = l
  | None => exmconstraints.contains key self = false
  end.
Proof.
  unfold exmconstraints.getitem.
  destruct (exmconstraints.lookup key self) as [l|] eqn:E.
  - split; [|easy]. apply contains_lookup. eauto.
  - apply not_true_is_false. intros H.
    apply contains_lookup in H as [v Hv]. congruence.
Qed.

Lemma constraints_pair_bindings (i j : exmvariable.EXMVariable)
  (task : Problem) :
  constraints_pair i j task
  = mkproblem (p_variables task) (p_constraints task ++ pair_bindings i j).
Proof.
  unfold constraints_pair, pair_bindings.
  destruct (exmvariable.eq i j).
  { rewrite app_nil_r. now destruct task. }
  set (t1 := if _ && _ then addConstraint Pbi_difftime i j task else task).
  assert (E1 : t1 = mkproblem (p_variables task)
                     (p_constraints task
                      ++ (if str_eqb (exmvariable.get_grade i)
                                     (exmvariable.get_grade j)
                             && (exmvariable.get_course i
                                 =? exmvariable.get_course j)
                          then [mkbinding Pbi_difftime
                                  (exmvariable.get_cellname i)
                                  (exmvariable.get_cellname j)]
                          else []))).
  { unfold t1. destruct (_ && _); [reflexivity|].
    rewrite app_nil_r. now destruct task. }
  clearbody t1. subst t1.
  set (dl := exmvariable.get_date_biconstraints i).
  set (tl := exmvariable.get_time_biconstraints i).
  set (k := exmvariable.get_cellname j).
  pose proof (contains_getitem k dl) as Hd.
  pose proof (contains_getitem k tl) as Ht.
  destruct (exmconstraints.lookup k dl), (exmconstraints.lookup k tl);
    repeat match goal with
           | H : _ /\ _ |- _ => let H1 := fresh in
                                let H2 := fresh in
                                destruct H as [H1 H2]; rewrite H1, H2
           | H : exmconstraints.contains _ _ = false |- _ => rewrite H; clear H
           end;
    rewrite ?fold_addConstraint; cbn [p_variables p_constraints map];
    rewrite ?fold_addConstraint; cbn [p_variables p_constraints map];
    rewrite ?app_nil_r, <- ?app_assoc; reflexivity.
Qed.

Lemma constraints_loops (vars : list exmvariable.EXMVariable)
  (task : Problem) :
  fold_left
    (fun task i =>
       fold_left (fun task j => constraints_pair i j task) vars task)
    vars task
  = mkproblem (p_variables task)
      (p_constraints task
       ++ flat_map (fun i => flat_map (pair_bindings i) vars) vars).
Proof.
  assert (Hin : forall i js task,
             fold_left (fun task j => constraints_pair i j task) js task
             = mkproblem (p_variables task)
                 (p_constraints task ++ flat_map (pair_bindings i) js)).
  { intros i js. induction js as [|j js IH]; intros t; simpl.
    - rewrite app_nil_r. now destruct t.
    - rewrite IH, constraints_pair_bindings. simpl.
      now rewrite <- app_assoc. }
  assert (Hout : forall is0 task,
             fold_left
               (fun task i =>
                  fold_left (fun task j => constraints_pair i j task)
                            vars task) is0 task
             = mkproblem (p_variables task)
                 (p_constraints task
                  ++ flat_map (fun i => flat_map (pair_bindings i) vars)
                              is0)).
  { induction is0 as [|i is0 IH]; intros t; simpl.
    - rewrite app_nil_r. now destruct t.
    - rewrite IH, Hin. simpl. now rewrite <- app_assoc. }
  apply Hout.
Qed.

Lemma pair_bindings_names (i j : exmvariable.EXMVariable) (b : binding) :
  In b (pair_bindings i j) ->
  b_first b = exmvariable.get_cellname i
  /\ b_second b = exmvariable.get_cellname j.
Proof.
  unfold pair_bindings. destruct (exmvariable.eq i j); [easy|].
  intros H. apply in_app_or in H as [H|H].
  - destruct (_ && _); [|easy]. now destruct H as [<-|[]].
  - apply in_app_or in H as [H|H];
      destruct (exmconstraints.lookup _ _); try easy;
      apply in_map_iff in H as (c & <- & _); easy.
Qed.

Lemma contains_member (v : exmvariable.EXMVariable) (poolvar : EXMPoolVar) :
  In v (_vars poolvar) ->
  contains (exmvariable.get_cellname v) poolvar = true.
Proof.
  intros H. unfold contains. apply existsb_exists. exists v.
  split; [easy | apply str_eqb_refl].
Qed.

(** C2, as the code has it.  The loops over the pairs of items never stop
    the run and log nothing; the bindings they add are between two items of
    the pool, so that a constraint on a key that the pool does not hold adds
    no binding; and every binary-date or binary-time constraint of an item
    on the cell name of another item of the pool is bound. *)
Theorem assembly_binds_resolved_only (poolvar : EXMPoolVar) (task : Problem)
  (log : list message) :
  exists task',
    constraints_phase poolvar task log = (Return task', log)
    /\ p_variables task' = p_variables task
    /\ (forall b, In b (p_constraints task') ->
          In b (p_constraints task)
          \/ (contains (b_first b) poolvar = true
              /\ contains (b_second b) poolvar = true))
    /\ (forall i j l c,
          In i (_vars poolvar) -> In j (_vars poolvar) ->
          exmvariable.eq i j = false ->
          In c l ->
          (exmconstraints.lookup (exmvariable.get_cellname j)
             (exmvariable.get_date_biconstraints i) = Some l ->
           In (mkbinding (Pbi_date (bi_get_operator c))
                 (exmvariable.get_cellname i) (exmvariable.get_cellname j))
              (p_constraints task'))
          /\ (exmconstraints.lookup (exmvariable.get_cellname j)
                (exmvariable.get_time_biconstraints i) = Some l ->
              In (mkbinding (Pbi_time (bi_get_operator c))
                    (exmvariable.get_cellname i)
                    (exmvariable.get_cellname j))
                 (p_constraints task'))).
Proof.
  unfold constraints_phase, ret. rewrite constraints_loops.
  eexists. split; [reflexivity|]. cbn [p_variables p_constraints].
  split; [reflexivity|]. split.
  - intros b H. apply in_app_or in H as [H|H]; [now left | right].
    apply in_flat_map in H as (i & Hi & H).
    apply in_flat_map in H as (j & Hj & H).
    apply pair_bindings_names in H as [-> ->].
    split; now apply contains_member.
  - intros i j l c Hi Hj Hne Hc.
    assert (Hpair : forall b, In b (pair_bindings i j) ->
              In b (p_constraints task
                    ++ flat_map (fun i => flat_map (pair_bindings i)
                                            (_vars poolvar))
                                (_vars poolvar))).
    { intros b Hb. apply in_or_app. right.
      apply in_flat_map. exists i. split; [easy|].
      apply in_flat_map. exists j. now split. }
    split; intros Hl; apply Hpair; unfold pair_bindings;
      rewrite Hne, Hl; apply in_or_app; right; apply in_or_app.
    + left. apply in_map_iff. exists c. now split.
    + right. apply in_map_iff. exists c. now split.
Qed.

Lemma assembly_binds_resolved_only_witness :
  In (mkbinding (Pbi_date OpGt) (txt "$GII.B23") (txt "$GII.C30"))
     (p_constraints
        (fold_left
           (fun task i =>
              fold_left (fun task j => constraints_pair i j task)
                        [after_c30; c30] task)
           [after_c30; c30] (mkproblem [] []))).
Proof.
  destruct (assembly_binds_resolved_only (mkpool [after_c30; c30] 0)
              (mkproblem [] []) []) as (task' & Hrun & _ & _ & Hbound).
  injection Hrun as <-.
  refine (proj1 (Hbound after_c30 c30 [mkbi OpGt (txt "$GII.C30")]
                   (mkbi OpGt (txt "$GII.C30")) _ _ eq_refl _) eq_refl).
  - now left.
  - right. now left.
  - now left.
Defined.

(** C2, as it is stated, fails: the only item of this pool has a constraint
    on a register that the pool does not hold, and the assembly returns a
    problem, with no binding and no error. *)
Lemma unresolved_constraint_is_dropped :
  unresolved (mkpool [after_c30] 0)
  /\ assemble [init (mkdate 2024 5 9) (mktime 16 0 0)]
              (mkpool [after_c30] 0) []
     = (Return
          (mkproblem
             [(after_c30,
               [set_setup 24 (init (mkdate 2024 5 9) (mktime 16 0 0))])]
             []), []).
Proof.
  split; [|reflexivity].
  exists after_c30, (txt "$GII.C30"). split; [now left|].
  split; [left; now left | reflexivity].
Qed.

(** ** The closure of the references *)

(** C1 fails on the code.  The items of the first course of the sheet are
    the single item at B21; with the loading of the indirections requested,
    the search finds nothing to load, the loop ends at once, and the key of
    the binary-time constraint of the item is still absent from the pool. *)
Theorem time_references_are_not_loaded :
  get_variables sheet_time_reference (txt "GII") [] 1 0 []
  = (Return [with_time_reference], [])
  /\ forall fuel,
       load_indirects_phase fuel sheet_time_reference true
         (iadd [with_time_reference] exmpoolvar.init) []
       = (Return (Some (iadd [with_time_reference] exmpoolvar.init)), [])
       /\ In (txt "$GII.C30")
            (exmconstraints.keys
               (exmvariable.get_time_biconstraints with_time_reference))
       /\ contains (txt "$GII.C30") (iadd [with_time_reference] exmpoolvar.init)
          = false.
Proof.
  split; [reflexivity|]. intros fuel. repeat split.
  - destruct fuel; reflexivity.
  - now left.
Qed.

(** The search after a load goes on from the place where the one before it
    stopped: the first reference of the item at B23 is loaded, the second
    never is. *)
Lemma second_reference_is_not_loaded (fuel : nat) :
  get_variables sheet_two_references (txt "GII") [] 1 0 []
  = (Return [with_two_references], [])
  /\ load_indirects_phase (S fuel) sheet_two_references true
       (iadd [with_two_references] exmpoolvar.init) []
     = (Return (Some (mkpool [with_two_references; c30] 0)), [])
  /\ contains (txt "$GII.C31") (mkpool [with_two_references; c30] 0) = false.
Proof.
  split; [reflexivity|]. split; [|reflexivity].
  destruct fuel; reflexivity.
Qed.

(** ** A time in the cell of the date *)

(** C3 fails on the code.  The cell of the date of the row holds a time:
    the error is logged, and both builders return the item all the same,
    without the misplaced constraint; the run goes on. *)
Theorem misplaced_time_is_not_fatal :
  get_variables sheet_misplaced_time (txt "GII") [] 0 0 []
  = (Return [calculus],
     [ERROR_TIME_IN_DATE (txt "B22") [mkuni OpEq (mktime 10 30 0)]])
  /\ get_variable sheet_misplaced_time (txt "GII") (txt "B") 22 []
     = (Return calculus,
        [ERROR_TIME_IN_DATE (txt "B22") [mkuni OpEq (mktime 10 30 0)]]).
Proof. split; reflexivity. Qed.

(** The sibling path: a fragment that is no constraint at all ends the
    run. *)
Example malformed_fragment_is_fatal :
  get_variables
    [(txt "GII",
      [mkrow (txt "Calculus") 1 1 (CellStr (txt "next week")) (CellStr [])
             None (txt "B") 22])]
    (txt "GII") [] 0 0 []
  = (Raise SystemExit,
     [ERROR_CONSTRAINT (txt "next week") (txt "GII") (txt "B22")]).
Proof. reflexivity. Qed.

(** * Further properties *)

(** ** Numbers and their digits *)

Lemma int_of_digits_app (a b : str) :
  int_of_digits (a ++ b)
  = fold_left (fun acc c => acc * 10 + digit_val c) b (int_of_digits a).
Proof. unfold int_of_digits. now rewrite fold_left_app. Qed.

Lemma str_of_pos_fuel_S (fuel : nat) (n : Z) (acc : str) :
  str_of_pos_fuel (S fuel) n acc
  = if n <? 10 then digit_char n :: acc
    else str_of_pos_fuel fuel (n / 10) (digit_char n :: acc).
Proof. reflexivity. Qed.

Lemma str_of_pos_fuel_digits (fuel : nat) :
  forall n acc, 0 <= n < 2 ^ Z.of_nat (S fuel) ->
    exists ds, str_of_pos_fuel (S fuel) n acc = ds ++ acc
               /\ ds <> [] /\ forallb is_digit ds = true
               /\ int_of_digits ds = n.
Proof.
  induction fuel as [|fuel IH]; intros n acc Hn;
    rewrite str_of_pos_fuel_S; destruct (n <? 10) eqn:E;
    try (exists [digit_char n]; simpl; rewrite is_digit_digit_char;
         repeat split; try easy;
         unfold int_of_digits; simpl; rewrite digit_val_digit_char; lia).
  assert (Hq : 0 <= n / 10 < 2 ^ Z.of_nat (S fuel)).
  { rewrite (Nat2Z.inj_succ (S fuel)), Z.pow_succ_r in Hn by lia. lia. }
  destruct (IH (n / 10) (digit_char n :: acc) Hq)
    as (ds & Hr & Hne & Hd & Hi).
  rewrite Hr.
  exists (ds ++ [digit_char n]). rewrite <- app_assoc. simpl.
  repeat split.
  - intros H. now apply app_eq_nil in H as [_ H].
  - rewrite forallb_app, Hd. simpl. now rewrite is_digit_digit_char.
  - rewrite int_of_digits_app, Hi. simpl.
    rewrite digit_val_digit_char. lia.
Qed.

Lemma str_of_int_digits (n : Z) :
  0 <= n ->
  str_of_int n <> [] /\ forallb is_digit (str_of_int n) = true
  /\ int_of_digits (str_of_int n) = n.
Proof.
  intros Hn. unfold str_of_int.
  assert (Hb : 0 <= n < 2 ^ Z.of_nat (S (Z.to_nat (Z.log2 n)))).
  { rewrite Nat2Z.inj_succ, Z2Nat.id by apply Z.log2_nonneg.
    destruct (Z.eq_dec n 0) as [-> | Hz]; [simpl; lia|].
    pose proof (Z.log2_spec n). lia. }
  destruct (str_of_pos_fuel_digits _ n [] Hb) as (ds & -> & H).
  now rewrite app_nil_r.
Qed.

(** ** Cell names and their coordinates *)

Lemma letter_not_space (c : ascii) : is_letter c = true -> is_space c = false.
Proof. unfold is_letter, is_space. lia. Qed.

Lemma digit_not_letter (c : ascii) : is_letter c = true -> is_digit c = false.
Proof. unfold is_letter, is_digit. lia. Qed.

Lemma head_is_digit (d : str) (c : ascii) (s : str) :
  forallb is_digit d = true -> d = c :: s -> is_digit c = true.
Proof. intros H ->. simpl in H. now apply andb_true_iff in H as [? _]. Qed.

(** X14. [get_columnrow] gives back the column and the row from which a
    cell name is written: the letters of the column, then the decimal text
    of the row. *)
Theorem get_columnrow_of_name (column : str) (row : Z) :
  column <> [] -> forallb is_letter column = true -> 0 <= row ->
  get_columnrow (column ++ str_of_int row) = Some (column, row).
Proof.
  intros Hc Hl Hr. destruct (str_of_int_digits row Hr) as (Hne & Hd & Hi).
  unfold get_columnrow.
  apply re_plus_all; [easy | easy | |].
  - rewrite <- (app_nil_r (str_of_int row)).
    apply re_plus_all; [easy | easy | | intros; discriminate].
    now rewrite Hi.
  - intros c s' E. apply letter_not_digit. now apply (head_is_digit _ _ _ Hd E).
Qed.

Lemma get_columnrow_of_name_witness :
  get_columnrow (txt "AB" ++ str_of_int 120) = Some (txt "AB", 120).
Proof.
  apply get_columnrow_of_name; [discriminate | reflexivity | lia].
Defined.

Lemma RE_CELLNAME_of_name (sheetname column : str) (row : Z) :
  forallb is_dot sheetname = true ->
  column <> [] -> forallb is_letter column = true -> 0 <= row ->
  RE_CELLNAME (txt "$" ++ sheetname ++ txt "." ++ column ++ str_of_int row)
  = Some {| cm_sheet := sheetname; cm_column := column;
            cm_row := str_of_int row |}.
Proof.
  intros Hs Hc Hl Hr. destruct (str_of_int_digits row Hr) as (Hne & Hd & Hi).
  unfold RE_CELLNAME. cbn [txt list_ascii_of_string app].
  rewrite re_spaces_skip by reflexivity.
  cbn [re_lit]. decide_test (chr_eqb "$"%char "$"%char). cbv iota.
  pose proof (re_star_last_period
                (fun a s =>
                   re_plus is_letter s (fun c s0 =>
                   re_plus is_digit s0 (fun r _ =>
                     Some {| cm_sheet := a; cm_column := c;
                             cm_row := r |})))
                sheetname (column ++ str_of_int row) []
                {| cm_sheet := sheetname; cm_column := column;
                   cm_row := str_of_int row |}
                Hs (no_period_cell _ _ Hl Hd)) as H.
  cbn [txt list_ascii_of_string re_lit app] in H. apply H.
  apply re_plus_all; [easy | easy | |].
  - rewrite <- (app_nil_r (str_of_int row)).
    apply re_plus_all; [easy | easy | | intros; discriminate].
    now rewrite app_nil_r.
  - intros c s' E. apply letter_not_digit.
    now apply (head_is_digit _ _ _ Hd E).
Qed.

Lemma register_location_of_name (sheetname column : str) (row : Z)
  (log : list message) :
  forallb is_dot sheetname = true ->
  column <> [] -> forallb is_letter column = true -> 0 <= row ->
  register_location
    (txt "$" ++ sheetname ++ txt "." ++ column ++ str_of_int row) log
  = (Return (sheetname, column, row), log).
Proof.
  intros Hs Hc Hl Hr. unfold register_location.
  rewrite RE_CELLNAME_of_name by assumption.
  cbn [cm_sheet cm_column cm_row].
  now destruct (str_of_int_digits row Hr) as (_ & _ & ->).
Qed.

(** X13. The search for indirections finds again the sheet, the column and
    the row of an item in the cell name that [EXMVariable] wrote for it:
    the name of the sheet may hold anything but a line feed, periods
    included. *)
Theorem register_location_of_cellname (grade name : str) (course semester : Z)
  (exmdate : datetime) (exmtime : time) (setup : Z)
  (sheetname column : str) (row : Z) (log : list message) :
  forallb is_dot sheetname = true ->
  column <> [] -> forallb is_letter column = true -> 0 <= row ->
  register_location
    (exmvariable.get_cellname
       (exmvariable.init grade name course semester exmdate exmtime setup
          sheetname column row)) log
  = (Return (sheetname, column, row), log).
Proof.
  intros Hs Hc Hl Hr. unfold exmvariable.init.
  cbn [exmvariable.get_cellname].
  now apply register_location_of_name.
Qed.

Lemma register_location_of_cellname_witness :
  register_location (txt "$G.II.C30") []
  = (Return (txt "G.II", txt "C", 30), []).
Proof.
  apply (register_location_of_cellname [] [] 0 0 datetime_unset midnight 24
           (txt "G.II") (txt "C") 30 []);
    [reflexivity | discriminate | reflexivity | lia].
Defined.

Lemma int_of_digits_zeros (zeros ds : str) :
  Forall (fun c => c = "0"%char) zeros ->
  int_of_digits (zeros ++ ds) = int_of_digits ds.
Proof.
  intros H. rewrite int_of_digits_app.
  replace (int_of_digits zeros) with 0; [reflexivity|].
  induction H as [|c l Hc _ IH]; [reflexivity|]. subst c.
  unfold int_of_digits in *. cbn [fold_left].
  change (0 * 10 + digit_val "0"%char) with 0. exact IH.
Qed.

(** X24. A key whose row is written with zeros in front names the
    register of that row, so the search for indirections asks for that
    register; but the key is not the cell name of the item there, so the
    pool never holds it. *)
Theorem zeros_before_the_row (grade name : str) (course semester : Z)
  (exmdate : datetime) (exmtime : time) (setup : Z)
  (sheetname column zeros : str) (row : Z) (log : list message) :
  forallb is_dot sheetname = true ->
  column <> [] -> forallb is_letter column = true -> 0 <= row ->
  zeros <> [] -> Forall (fun c => c = "0"%char) zeros ->
  register_location
    (txt "$" ++ sheetname ++ txt "." ++ column ++ zeros ++ str_of_int row) log
  = (Return (sheetname, column, row), log)
  /\ exmvariable.eq_str
       (exmvariable.init grade name course semester exmdate exmtime setup
          sheetname column row)
       (txt "$" ++ sheetname ++ txt "." ++ column ++ zeros ++ str_of_int row)
     = false.
Proof.
  intros Hs Hc Hl Hr Hz Hz'.
  destruct (str_of_int_digits row Hr) as (Hne & Hd & Hi).
  assert (Hzd : forallb is_digit zeros = true).
  { apply forallb_forall. intros c Hin.
    rewrite Forall_forall in Hz'. now rewrite (Hz' c Hin). }
  split.
  - unfold register_location.
    assert (E : RE_CELLNAME
                  (txt "$" ++ sheetname ++ txt "." ++ column ++ zeros
                   ++ str_of_int row)
                = Some {| cm_sheet := sheetname; cm_column := column;
                          cm_row := zeros ++ str_of_int row |}).
    { assert (Hd' : forallb is_digit (zeros ++ str_of_int row) = true)
        by now rewrite forallb_app, Hzd, Hd.
      unfold RE_CELLNAME. cbn [txt list_ascii_of_string app].
      rewrite re_spaces_skip by reflexivity.
      cbn [re_lit]. decide_test (chr_eqb "$"%char "$"%char). cbv iota.
      pose proof (re_star_last_period
                    (fun a s =>
                       re_plus is_letter s (fun c s0 =>
                       re_plus is_digit s0 (fun r _ =>
                         Some {| cm_sheet := a; cm_column := c;
                                 cm_row := r |})))
                    sheetname (column ++ zeros ++ str_of_int row) []
                    {| cm_sheet := sheetname; cm_column := column;
                       cm_row := zeros ++ str_of_int row |}
                    Hs (no_period_cell _ _ Hl Hd')) as H.
      cbn [txt list_ascii_of_string re_lit app] in H. apply H.
      apply re_plus_all; [easy | easy | |].
      - rewrite <- (app_nil_r (zeros ++ str_of_int row)) at 1.
        apply re_plus_all; [|easy | easy | intros; discriminate].
        intros E. now apply app_eq_nil in E as [E _].
      - intros c s' E. apply letter_not_digit.
        now apply (head_is_digit _ _ _ Hd' E). }
    rewrite E. cbn [cm_sheet cm_column cm_row].
    now rewrite int_of_digits_zeros, Hi.
  - unfold exmvariable.eq_str, exmvariable.init.
    cbn [exmvariable.get_cellname]. apply str_eqb_neq. intros E.
    do 4 apply app_inv_head in E.
    apply (f_equal (@List.length ascii)) in E.
    rewrite length_app in E. destruct zeros; [easy|]. simpl in E. lia.
Qed.

Lemma zeros_before_the_row_witness :
  register_location (txt "$GII.C030") [] = (Return (txt "GII", txt "C", 30), [])
  /\ exmvariable.eq_str c30 (txt "$GII.C030") = false.
Proof.
  apply (zeros_before_the_row (txt "GII") (txt "Chemistry") 2 1
           datetime_unset midnight 24 (txt "GII") (txt "C") (txt "0") 30 []);
    try reflexivity; try discriminate; try lia.
  repeat constructor.
Defined.

(** ** The pool as its own iterator *)

Lemma skipn_nth_error {A} (l : list A) (i : nat) :
  match nth_error l i with
  | Some x => skipn i l = x :: skipn (S i) l
  | None => skipn i l = []
  end.
Proof.
  revert i. induction l as [|a l IH]; intros [|i]; try reflexivity.
  specialize (IH i). simpl nth_error. destruct (nth_error l i); exact IH.
Qed.

Lemma next_members (poolvar : EXMPoolVar) :
  match members poolvar with
  | [] => next poolvar = (None, mkpool (_vars poolvar) 0)
  | v :: rest =>
      next poolvar = (Some v, mkpool (_vars poolvar) (S (_idx poolvar)))
      /\ members (mkpool (_vars poolvar) (S (_idx poolvar))) = rest
  end.
Proof.
  unfold members, next. cbn [_vars _idx].
  pose proof (skipn_nth_error (_vars poolvar) (_idx poolvar)) as H.
  destruct (nth_error (_vars poolvar) (_idx poolvar)); rewrite H; [|easy].
  now split.
Qed.

Lemma first_missing_vars (ikeys : list str) (p q : EXMPoolVar) :
  _vars p = _vars q -> first_missing ikeys p = first_missing ikeys q.
Proof.
  intros E. induction ikeys as [|k l IH]; [easy|]. cbn [first_missing].
  replace (contains k p) with (contains k q)
    by (unfold contains; now rewrite E).
  now rewrite IH.
Qed.

Lemma first_open_vars (vars : list exmvariable.EXMVariable)
  (p q : EXMPoolVar) :
  _vars p = _vars q -> first_open vars p = first_open vars q.
Proof.
  intros E. induction vars as [|v l IH]; [easy|]. simpl.
  now rewrite (first_missing_vars _ p q E), IH.
Qed.

Lemma first_missing_none (ikeys : list str) (poolvar : EXMPoolVar) :
  first_missing ikeys poolvar = None
  <-> forall k, In k ikeys -> contains k poolvar = true.
Proof.
  induction ikeys as [|k l IH]; simpl; [easy|].
  destruct (contains k poolvar) eqn:E; simpl.
  - rewrite IH. split; [intros H x [<- | Hx]; auto | auto].
  - split; [easy|]. intros H. rewrite (H k) in E by now left. easy.
Qed.

Lemma first_missing_some (ikeys : list str) (poolvar : EXMPoolVar)
  (ikey : str) :
  first_missing ikeys poolvar = Some ikey
  <-> exists before after,
        ikeys = before ++ ikey :: after
        /\ (forall k, In k before -> contains k poolvar = true)
        /\ contains ikey poolvar = false.
Proof.
  induction ikeys as [|k l IH]; simpl.
  - split; [easy|]. now intros ([|] & ? & ? & _).
  - destruct (contains k poolvar) eqn:E; simpl.
    + rewrite IH. split.
      * intros (b & a & -> & Hb & Hk). exists (k :: b), a.
        repeat split; [|easy]. intros x [<- | Hx]; auto.
      * intros ([|k' b] & a & He & Hb & Hk); injection He as -> ->.
        -- congruence.
        -- exists b, a. repeat split; [|easy]. intros x Hx. apply Hb.
           now right.
    + split.
      * intros [= <-]. now exists [], l.
      * intros ([|k' b] & a & He & Hb & Hk); injection He as -> ->; [easy|].
        rewrite Hb in E by now left. easy.
Qed.

Lemma first_open_none (vars : list exmvariable.EXMVariable)
  (poolvar : EXMPoolVar) :
  first_open vars poolvar = None
  <-> forall v, In v vars ->
        forall k, In k (exmconstraints.keys
                          (exmvariable.get_date_biconstraints v)) ->
                  contains k poolvar = true.
Proof.
  induction vars as [|v l IH]; cbn [first_open]; [easy|].
  destruct (first_missing _ poolvar) as [k|] eqn:E.
  - split; [easy|]. intros H.
    assert (E' : first_missing
                   (exmconstraints.keys
                      (exmvariable.get_date_biconstraints v))
                   poolvar = None).
    { apply first_missing_none. intros x Hx. apply (H v); [now left|easy]. }
    congruence.
  - assert (Hv := proj1 (first_missing_none _ _) E).
    destruct (first_open l poolvar) as [[n k]|].
    + split; [easy|]. intros H.
      assert (H0 : Some (n, k) = @None (nat * str)); [|easy].
      apply IH. intros u Hu. apply (H u). now right.
    + split; [|easy]. intros _ u [<- | Hu]; [easy|].
      now apply (proj1 IH).
Qed.

Lemma first_open_some (poolvar : EXMPoolVar) (before : list exmvariable.EXMVariable)
  (v : exmvariable.EXMVariable) (after : list exmvariable.EXMVariable)
  (ikey : str) :
  (forall u, In u before ->
     forall k, In k (exmconstraints.keys
                       (exmvariable.get_date_biconstraints u)) ->
               contains k poolvar = true) ->
  first_missing (exmconstraints.keys (exmvariable.get_date_biconstraints v))
                poolvar = Some ikey ->
  first_open (before ++ v :: after) poolvar
  = Some (List.length before, ikey).
Proof.
  intros Hb Hv. induction before as [|u l IH];
    cbn [app first_open List.length].
  - now rewrite Hv.
  - assert (E : first_missing
                  (exmconstraints.keys
                     (exmvariable.get_date_biconstraints u)) poolvar = None).
    { apply first_missing_none. apply Hb. now left. }
    rewrite E, IH; [easy|]. intros u0 Hu0. apply (Hb u0). now right.
Qed.

(** The loop of [get_next_indirect] on the items from the counter on. *)
Lemma get_next_indirect_scan (n : nat) :
  forall (poolvar : EXMPoolVar) (log : list message),
    (List.length (members poolvar) < n)%nat ->
    get_next_indirect_loop n poolvar log
    = match first_open (members poolvar) poolvar with
      | None => (Return (None, mkpool (_vars poolvar) 0), log)
      | Some (i, ikey) =>
          (loc <- register_location ikey ;;
           ret (Some loc, mkpool (_vars poolvar) (S (_idx poolvar + i)))) log
      end.
Proof.
  induction n as [|n IH]; intros poolvar log Hn; [inversion Hn|].
  cbn [get_next_indirect_loop].
  pose proof (next_members poolvar) as Hm.
  destruct (members poolvar) as [|v rest] eqn:E.
  - now rewrite Hm.
  - destruct Hm as [-> Hrest]. cbn [first_open].
    rewrite (first_missing_vars _ (mkpool (_vars poolvar) (S (_idx poolvar)))
               poolvar eq_refl).
    destruct (first_missing _ poolvar) as [ikey|].
    + now rewrite Nat.add_0_r.
    + rewrite IH by (rewrite Hrest; simpl in Hn; lia).
      rewrite Hrest.
      rewrite (first_open_vars _ (mkpool (_vars poolvar) (S (_idx poolvar)))
                 poolvar eq_refl).
      cbn [_vars _idx].
      destruct (first_open rest poolvar) as [[i ikey]|]; [|easy].
      now rewrite Nat.add_succ_r.
Qed.

Lemma members_length (poolvar : EXMPoolVar) :
  (List.length (members poolvar) <= len poolvar)%nat.
Proof. unfold members, len. rewrite length_skipn. lia. Qed.

Lemma get_next_indirect_first_open (poolvar : EXMPoolVar)
  (log : list message) :
  get_next_indirect poolvar log
  = match first_open (members poolvar) poolvar with
    | None => (Return (None, mkpool (_vars poolvar) 0), log)
    | Some (i, ikey) =>
        (loc <- register_location ikey ;;
         ret (Some loc, mkpool (_vars poolvar) (S (_idx poolvar + i)))) log
    end.
Proof.
  unfold get_next_indirect. apply get_next_indirect_scan.
  pose proof (members_length poolvar). lia.
Qed.

(** X1. A [for] loop over the pool that runs to its end visits the items
    from the counter of the pool to its last item, in their order, and
    leaves the counter at the start. *)
Theorem traverse_members (n : nat) (poolvar : EXMPoolVar) :
  (List.length (members poolvar) < n)%nat ->
  traverse n poolvar = (members poolvar, mkpool (_vars poolvar) 0).
Proof.
  revert poolvar. induction n as [|n IH]; intros poolvar Hn; [inversion Hn|].
  cbn [traverse]. pose proof (next_members poolvar) as Hm.
  destruct (members poolvar) as [|v rest] eqn:E.
  - now rewrite Hm.
  - destruct Hm as [-> Hrest].
    rewrite IH by (rewrite Hrest; simpl in Hn; lia).
    now rewrite Hrest.
Qed.

Lemma traverse_members_witness :
  traverse 3 (mkpool [after_c30; c30] 1) = ([c30], mkpool [after_c30; c30] 0).
Proof. apply (traverse_members 3 (mkpool [after_c30; c30] 1)). simpl. lia.
Defined.

(** X2. [get_next_indirect] answers [None] exactly when the pool holds
    every key of the binary date constraints of the items it visits; the
    counter of the pool is then back at the start and nothing is logged. *)
Theorem get_next_indirect_none (poolvar poolvar' : EXMPoolVar)
  (log log' : list message) :
  get_next_indirect poolvar log = (Return (None, poolvar'), log')
  <-> (forall v, In v (members poolvar) ->
         forall k, In k (exmconstraints.keys
                           (exmvariable.get_date_biconstraints v)) ->
                   contains k poolvar = true)
      /\ poolvar' = mkpool (_vars poolvar) 0 /\ log' = log.
Proof.
  rewrite get_next_indirect_first_open, <- first_open_none.
  destruct (first_open (members poolvar) poolvar) as [[i ikey]|].
  - split; [|now intros [? _]]. unfold bind, register_location.
    destruct (RE_CELLNAME ikey); cbn; intros [=].
  - split; [intros [= <- <-] | intros (_ & -> & ->)]; easy.
Qed.

Lemma get_next_indirect_none_witness :
  get_next_indirect (mkpool [c30] 0) [] = (Return (None, mkpool [c30] 0), []).
Proof.
  apply (proj2 (get_next_indirect_none (mkpool [c30] 0) (mkpool [c30] 0)
                  [] [])).
  split; [|easy]. intros v [<- | []] k [].
Defined.

(** X3. When an item that [get_next_indirect] visits has a key that the
    pool lacks, the answer is the location written in the first such key
    of the first such item, and the counter of the pool stays after that
    item: the next search goes on from there. *)
Theorem get_next_indirect_found (poolvar : EXMPoolVar) (log : list message)
  (before : list exmvariable.EXMVariable) (v : exmvariable.EXMVariable)
  (after : list exmvariable.EXMVariable) (held unseen : list str)
  (sheetname column : str) (row : Z) :
  members poolvar = before ++ v :: after ->
  (forall u, In u before ->
     forall k, In k (exmconstraints.keys
                       (exmvariable.get_date_biconstraints u)) ->
               contains k poolvar = true) ->
  exmconstraints.keys (exmvariable.get_date_biconstraints v)
  = held ++ (txt "$" ++ sheetname ++ txt "." ++ column ++ str_of_int row)
         :: unseen ->
  (forall k, In k held -> contains k poolvar = true) ->
  contains (txt "$" ++ sheetname ++ txt "." ++ column ++ str_of_int row)
           poolvar = false ->
  forallb is_dot sheetname = true ->
  column <> [] -> forallb is_letter column = true -> 0 <= row ->
  get_next_indirect poolvar log
  = (Return (Some (sheetname, column, row),
             mkpool (_vars poolvar)
                    (S (_idx poolvar + List.length before))), log).
Proof.
  intros Hm Hb Hk Hh Hc Hs Hcol Hl Hr.
  rewrite get_next_indirect_first_open, Hm.
  rewrite (first_open_some poolvar before v after
             (txt "$" ++ sheetname ++ txt "." ++ column ++ str_of_int row)
             Hb).
  - unfold bind. now rewrite register_location_of_name.
  - apply first_missing_some. now exists held, unseen.
Qed.

Lemma get_next_indirect_found_witness :
  get_next_indirect (mkpool [c30; with_two_references] 0) []
  = (Return (Some (txt "GII", txt "C", 31),
             mkpool [c30; with_two_references] 2), []).
Proof.
  apply (get_next_indirect_found (mkpool [c30; with_two_references] 0) []
           [c30] with_two_references [] [txt "$GII.C30"] []
           (txt "GII") (txt "C") 31);
    try reflexivity; try discriminate; try lia.
  - intros u [<- | []] k [].
  - intros k [<- | []]. reflexivity.
Defined.

(** ** Assignments to a mapping of constraints *)

Section Assignments.
Context {C : Type}.
Implicit Types (self : exmconstraints.EXMConstraints C) (key : str).

Lemma lookup_app key self other :
  exmconstraints.lookup key (self ++ other)
  = match exmconstraints.lookup key self with
    | Some v => Some v
    | None => exmconstraints.lookup key other
    end.
Proof.
  induction self as [|[k v] self IH]; simpl; [easy|].
  now destruct (str_eqb k key).
Qed.

Lemma lookup_contains_false key self :
  exmconstraints.contains key self = false
  <-> exmconstraints.lookup key self = None.
Proof.
  pose proof (contains_lookup key self) as H.
  destruct (exmconstraints.contains key self),
    (exmconstraints.lookup key self) as [v|]; split; try easy.
  - intros _. destruct (proj1 H eq_refl) as [v Hv]. easy.
  - intros _. assert (E : false = true) by (apply H; now exists v). easy.
Qed.

Lemma lookup_extend_other key key' (value : list C) self :
  key <> key' ->
  exmconstraints.lookup key' (exmconstraints.extend key value self)
  = exmconstraints.lookup key' self.
Proof.
  intros Hne. induction self as [|[k v] self IH]; simpl; [easy|].
  destruct (str_eqb k key) eqn:E; simpl.
  - apply str_eqb_eq in E as ->.
    now rewrite (proj2 (str_eqb_neq key key') Hne).
  - now rewrite IH.
Qed.

Lemma keys_extend key (value : list C) self :
  exmconstraints.keys (exmconstraints.extend key value self)
  = exmconstraints.keys self.
Proof.
  induction self as [|[k v] self IH]; simpl; [easy|].
  destruct (str_eqb k key); simpl; [easy|]. f_equal. exact IH.
Qed.

Lemma setitem_lookup_eq key key' (value : list C) self :
  exmconstraints.lookup key' (exmconstraints.setitem key value self)
  = if str_eqb key key'
    then Some (match exmconstraints.lookup key self with
               | Some old => old ++ value
               | None => value
               end)
    else exmconstraints.lookup key' self.
Proof.
  unfold exmconstraints.setitem.
  destruct (exmconstraints.contains key self) eqn:Hc.
  - destruct (str_eqb key key') eqn:E.
    + apply str_eqb_eq in E as <-.
      apply contains_lookup in Hc as [old Hold]. rewrite Hold.
      now apply lookup_extend.
    + apply lookup_extend_other. now apply str_eqb_neq.
  - apply lookup_contains_false in Hc. rewrite lookup_app. simpl.
    destruct (str_eqb key key') eqn:E.
    + apply str_eqb_eq in E as <-. now rewrite Hc.
    + now destruct (exmconstraints.lookup key' self).
Qed.

Lemma setitem_keys key (value : list C) self :
  exmconstraints.keys (exmconstraints.setitem key value self)
  = if exmconstraints.contains key self then exmconstraints.keys self
    else exmconstraints.keys self ++ [key].
Proof.
  unfold exmconstraints.setitem.
  destruct (exmconstraints.contains key self).
  - apply keys_extend.
  - unfold exmconstraints.keys. now rewrite map_app.
Qed.

Lemma setitem_NoDup key (value : list C) self :
  NoDup (exmconstraints.keys self) ->
  NoDup (exmconstraints.keys (exmconstraints.setitem key value self)).
Proof.
  intros H. rewrite setitem_keys.
  destruct (exmconstraints.contains key self) eqn:Hc; [easy|].
  apply NoDup_app; [easy | repeat constructor; easy |].
  intros x Hx [<- | []]. apply contains_keys in Hx. congruence.
Qed.

Lemma setitem_no_empty_list key (value : list C) self :
  value <> [] -> no_empty_list self ->
  no_empty_list (exmconstraints.setitem key value self).
Proof.
  intros Hv Hinv k v. unfold exmconstraints.setitem.
  destruct (exmconstraints.contains key self).
  - intros H. apply in_extend in H as [H|(w & H & ->)];
      [exact (Hinv _ _ H)|].
    intros E. apply app_eq_nil in E as [_ E]. contradiction.
  - intros H. apply in_app_or in H as [H|[[= <- <-]|[]]];
      [exact (Hinv _ _ H) | easy].
Qed.

(** The loop of a setter of [EXMVariable]: every constraint goes to the
    key that [index] gives it. *)
Lemma setter_lookup (index : C -> str) (value : list C) :
  forall self key,
    exmconstraints.lookup key
      (fold_left (fun cs ic => exmconstraints.setitem (index ic) [ic] cs)
                 value self)
    = match filter (fun ic => str_eqb (index ic) key) value with
      | [] => exmconstraints.lookup key self
      | found =>
          Some (match exmconstraints.lookup key self with
                | Some old => old ++ found
                | None => found
                end)
      end.
Proof.
  induction value as [|ic value IH]; intros self key; simpl; [easy|].
  rewrite IH, setitem_lookup_eq.
  destruct (str_eqb (index ic) key) eqn:E.
  - apply str_eqb_eq in E as <-.
    destruct (filter _ value) as [|c found];
      destruct (exmconstraints.lookup (index ic) self) as [old|];
      simpl; try easy; now rewrite <- app_assoc.
  - reflexivity.
Qed.

Lemma setter_invariants (index : C -> str) (value : list C) :
  forall self,
    NoDup (exmconstraints.keys self) -> no_empty_list self ->
    NoDup (exmconstraints.keys
             (fold_left
                (fun cs ic => exmconstraints.setitem (index ic) [ic] cs)
                value self))
    /\ no_empty_list
         (fold_left (fun cs ic => exmconstraints.setitem (index ic) [ic] cs)
                    value self).
Proof.
  induction value as [|ic value IH]; intros self Hn He; simpl; [easy|].
  apply IH; [now apply setitem_NoDup | now apply setitem_no_empty_list].
Qed.

Lemma setter_one_key key (value : list C) (old : list C) :
  fold_left (fun cs ic => exmconstraints.setitem key [ic] cs) value
            [(key, old)]
  = [(key, old ++ value)].
Proof.
  revert old. induction value as [|ic value IH]; intros old;
    cbn [fold_left].
  - now rewrite app_nil_r.
  - assert (E : exmconstraints.setitem key [ic] [(key, old)]
                = [(key, old ++ [ic])]).
    { unfold exmconstraints.setitem, exmconstraints.contains.
      cbn [existsb fst]. rewrite str_eqb_refl. cbn [orb exmconstraints.extend].
      now rewrite str_eqb_refl. }
    rewrite E, IH. now rewrite <- app_assoc.
Qed.

Lemma setter_own_key key (value : list C) :
  fold_left (fun cs ic => exmconstraints.setitem key [ic] cs) value []
  = match value with [] => [] | _ => [(key, value)] end.
Proof.
  destruct value as [|ic value]; [easy|]. cbn [fold_left].
  apply setter_one_key.
Qed.

End Assignments.

Lemma address_app (key : str) (self other : exmstore.mapping) :
  exmstore.address key (self ++ other)
  = match exmstore.address key self with
    | Some a => Some a
    | None => exmstore.address key other
    end.
Proof.
  induction self as [|[k a] self IH]; simpl; [easy|].
  now destruct (str_eqb k key).
Qed.

Lemma contents_contains {C : Type} (h : @exmstore.store C) (key : str)
  (self : exmstore.mapping) :
  exmconstraints.contains key (contents h self)
  = match exmstore.address key self with Some _ => true | None => false end.
Proof.
  induction self as [|[k a] self IH]; simpl; [easy|].
  destruct (str_eqb k key); [easy|]. exact IH.
Qed.

Lemma contents_extend {C : Type} (h : @exmstore.store C) (key : str)
  (value : list C) (self : exmstore.mapping) (a : nat) :
  exmstore.address key self = Some a ->
  NoDup (map snd self) ->
  contents (exmstore.write h a (h a ++ value)) self
  = exmconstraints.extend key value (contents h self).
Proof.
  induction self as [|[k b] self IH]; simpl; [easy|].
  intros Ha Hn. inversion Hn as [|? ? Hb Hn']; subst.
  assert (Hrest : forall l, ~ In a (map snd l) ->
            contents (exmstore.write h a (h a ++ value)) l = contents h l).
  { intros l Hl. induction l as [|[k' c] l IHl]; simpl; [easy|].
    simpl in Hl. unfold exmstore.write at 1.
    destruct (Nat.eqb_spec c a) as [-> | _]; [tauto|].
    f_equal. apply IHl. tauto. }
  destruct (str_eqb k key).
  - injection Ha as ->. unfold exmstore.write at 1.
    rewrite Nat.eqb_refl. now rewrite Hrest.
  - unfold exmstore.write at 1.
    destruct (Nat.eqb_spec b a) as [-> | _].
    + exfalso. apply Hb. clear - Ha.
      induction self as [|[k' c] self IH]; simpl in *; [easy|].
      destruct (str_eqb k' key); [injection Ha as ->; now left|].
      right. now apply IH.
    + f_equal. now apply IH.
Qed.

(** X5. An assignment to a mapping of constraints extends in place the
    list of a key that is there, so every key that has that same list sees
    the new constraints, and the keys with another list keep theirs; for a
    new key, the list that is given becomes the list of the key.  When no
    two keys share a list and the list given is a new one, as the setters
    of [EXMVariable] give it, the mapping afterwards is the assignment on
    the entries of the mapping. *)
Theorem setitem_shares_the_list {C : Type} (key key' : str) (value : nat)
  (h : @exmstore.store C) (self : exmstore.mapping) :
  exmstore.lookup key' (fst (exmstore.setitem key value h self))
                       (snd (exmstore.setitem key value h self))
  = match exmstore.address key self with
    | Some a =>
        match exmstore.address key' self with
        | Some a' => Some (if Nat.eqb a' a then h a ++ h value else h a')
        | None => None
        end
    | None =>
        if str_eqb key key' then Some (h value)
        else exmstore.lookup key' h self
    end
  /\ (NoDup (map snd self) -> ~ In value (map snd self) ->
      contents (fst (exmstore.setitem key value h self))
               (snd (exmstore.setitem key value h self))
      = exmconstraints.setitem key (h value) (contents h self)
      /\ NoDup (map snd (snd (exmstore.setitem key value h self)))).
Proof.
  unfold exmstore.setitem, exmstore.lookup. split.
  - destruct (exmstore.address key self) as [a|] eqn:Ha; cbn [fst snd].
    + destruct (exmstore.address key' self) as [a'|]; [|easy].
      cbn [option_map]. unfold exmstore.write.
      now destruct (Nat.eqb a' a).
    + rewrite address_app. cbn [exmstore.address].
      destruct (str_eqb key key') eqn:E.
      * apply str_eqb_eq in E as <-. now rewrite Ha.
      * now destruct (exmstore.address key' self).
  - intros Hn Hv. unfold exmconstraints.setitem.
    rewrite contents_contains.
    destruct (exmstore.address key self) as [a|] eqn:Ha; cbn [fst snd].
    + split; [|easy]. now apply contents_extend.
    + split.
      * unfold contents. now rewrite map_app.
      * rewrite map_app. cbn [map snd]. apply NoDup_app; [easy | |].
        -- repeat constructor. easy.
        -- intros x Hx [<- | []]. easy.
Qed.

Lemma setitem_shares_the_list_witness :
  exmstore.lookup (txt "$GII.C31")
    (fst (exmstore.setitem (txt "$GII.C30") 1
            (fun a => match a with
                      | O => [mkbi OpLt (txt "$GII.C30")]
                      | _ => [mkbi OpGt (txt "$GII.C30")]
                      end)
            [(txt "$GII.C30", O); (txt "$GII.C31", O)]))
    (snd (exmstore.setitem (txt "$GII.C30") 1
            (fun a => match a with
                      | O => [mkbi OpLt (txt "$GII.C30")]
                      | _ => [mkbi OpGt (txt "$GII.C30")]
                      end)
            [(txt "$GII.C30", O); (txt "$GII.C31", O)]))
  = Some [mkbi OpLt (txt "$GII.C30"); mkbi OpGt (txt "$GII.C30")].
Proof.
  exact (proj1 (setitem_shares_the_list (txt "$GII.C30") (txt "$GII.C31") 1
                  (fun a => match a with
                            | O => [mkbi OpLt (txt "$GII.C30")]
                            | _ => [mkbi OpGt (txt "$GII.C30")]
                            end)
                  [(txt "$GII.C30", O); (txt "$GII.C31", O)])).
Defined.

(** X6. The unit constraints given to a new item are all kept under the
    cell name of the item, in the order given, and an empty list creates
    no entry. *)
Theorem unit_constraints_under_own_name (grade name : str)
  (course semester : Z) (exmdate : datetime) (exmtime : time) (setup : Z)
  (sheetname column : str) (row : Z)
  (dates : list (EXMUniConstraint datetime))
  (times : list (EXMUniConstraint time)) :
  let v := exmvariable.set_time_uniconstraints times
             (exmvariable.set_date_uniconstraints dates
                (exmvariable.init grade name course semester exmdate exmtime
                   setup sheetname column row)) in
  exmvariable.get_date_uniconstraints v
  = match dates with
    | [] => []
    | _ => [(exmvariable.get_cellname v, dates)]
    end
  /\ exmvariable.get_time_uniconstraints v
     = match times with
       | [] => []
       | _ => [(exmvariable.get_cellname v, times)]
       end.
Proof.
  cbv zeta. unfold exmvariable.set_time_uniconstraints,
    exmvariable.set_date_uniconstraints, exmvariable.init.
  cbn [exmvariable.get_date_uniconstraints
       exmvariable.get_time_uniconstraints exmvariable.get_cellname].
  unfold exmconstraints.init. now rewrite !setter_own_key.
Qed.

(** X7. The binary constraints given to an item are grouped by the key
    they refer to, the ones of the date and the ones of the time alike:
    under a key are the constraints on that key, in the order given, after
    the ones the item already had, and a key no constraint refers to gets
    no entry. *)
Theorem set_biconstraints_groups (value : list EXMBiConstraint)
  (self : exmvariable.EXMVariable) (key : str) :
  exmconstraints.lookup key
    (exmvariable.get_date_biconstraints
       (exmvariable.set_date_biconstraints value self))
  = match filter (fun ic => str_eqb (get_var ic) key) value with
    | [] => exmconstraints.lookup key
              (exmvariable.get_date_biconstraints self)
    | found =>
        Some (match exmconstraints.lookup key
                      (exmvariable.get_date_biconstraints self) with
              | Some old => old ++ found
              | None => found
              end)
    end
  /\ exmconstraints.lookup key
       (exmvariable.get_time_biconstraints
          (exmvariable.set_time_biconstraints value self))
     = match filter (fun ic => str_eqb (get_var ic) key) value with
       | [] => exmconstraints.lookup key
                 (exmvariable.get_time_biconstraints self)
       | found =>
           Some (match exmconstraints.lookup key
                         (exmvariable.get_time_biconstraints self) with
                 | Some old => old ++ found
                 | None => found
                 end)
       end.
Proof.
  unfold exmvariable.set_date_biconstraints,
    exmvariable.set_time_biconstraints.
  cbn [exmvariable.get_date_biconstraints
       exmvariable.get_time_biconstraints].
  split; apply setter_lookup.
Qed.

(** ** The items built from the rows *)

Lemma build_variable_built (sheetname column : str) (row : Z) (irow : Row)
  (env env' : locals) (v : exmvariable.EXMVariable) (log log' : list message) :
  build_variable sheetname column row irow env log = (Return (v, env'), log')
  -> built sheetname column row irow v.
Proof.
  unfold build_variable, bind, ret, built, setup_of. intros H.
  repeat match type of H with
         | context [match ?x with _ => _ end] =>
             destruct x eqn:?; try discriminate H
         end;
    injection H as <- _ _; eauto.
Qed.

Lemma built_fields (sheetname column : str) (row : Z) (irow : Row)
  (v : exmvariable.EXMVariable) :
  built sheetname column row irow v ->
  exmvariable.get_cellname v
  = txt "$" ++ sheetname ++ txt "." ++ column ++ str_of_int row
  /\ exmvariable.get_grade v = sheetname
  /\ exmvariable.get_name v = Asignatura irow
  /\ exmvariable.get_course v = Curso irow
  /\ exmvariable.get_semester v = Cuatrimestre irow
  /\ exmvariable.get_setup v = setup_of irow
  /\ exmvariable.get_date v = datetime_unset
  /\ exmvariable.get_time v = midnight.
Proof. intros (a & b & c & d & ->). now repeat split. Qed.

Lemma built_well_kept (sheetname column : str) (row : Z) (irow : Row)
  (v : exmvariable.EXMVariable) :
  built sheetname column row irow v -> well_kept v.
Proof.
  intros (a & b & c & d & ->).
  unfold well_kept, distinct_unit_keys, exmvariable.set_time_biconstraints,
    exmvariable.set_time_uniconstraints, exmvariable.set_date_biconstraints,
    exmvariable.set_date_uniconstraints, exmvariable.init.
  cbn [exmvariable.get_date_uniconstraints
       exmvariable.get_time_uniconstraints
       exmvariable.get_date_biconstraints
       exmvariable.get_time_biconstraints exmvariable.get_cellname].
  assert (Hn : forall C, NoDup (exmconstraints.keys (@exmconstraints.init C)))
    by (intros; constructor).
  assert (He : forall C, no_empty_list (@exmconstraints.init C))
    by (intros C k l []).
  repeat split; now apply setter_invariants.
Qed.

Lemma get_variables_loop (sheetname grade : str) (course semester : Z)
  (rows : list Row) :
  forall exmvars env log vars env' log',
    for_each rows (get_variables_step sheetname grade course semester)
             (exmvars, env) log = (Return (vars, env'), log') ->
    exists added,
      vars = exmvars ++ added
      /\ Forall2 (fun irow v =>
                    built sheetname (Asignatura_column irow)
                          (Asignatura_row irow) irow v)
                 (filter (selected sheetname grade course semester) rows)
                 added.
Proof.
  induction rows as [|irow rows IH]; intros exmvars env log vars env' log' H.
  - injection H as <- _ _. exists []. now rewrite app_nil_r.
  - cbn [for_each] in H. unfold bind at 1 in H.
    cbn [filter]. unfold get_variables_step at 1 in H.
    replace (selected sheetname grade course semester irow)
      with (negb ((negb (str_eqb grade []) && negb (str_eqb grade sheetname))
                  || (negb (course =? 0) && negb (course =? Curso irow))
                  || (negb (semester =? 0)
                      && negb (semester =? Cuatrimestre irow))))
      by (unfold selected;
          destruct (str_eqb grade []), (str_eqb grade sheetname),
            (course =? 0), (course =? Curso irow), (semester =? 0),
            (semester =? Cuatrimestre irow); reflexivity).
    destruct (_ || _ || _); cbn [negb].
    + now apply IH in H.
    + unfold bind at 1 in H.
      destruct (build_variable _ _ _ _ _ _) as [[[v env0]|e] log0] eqn:Hb;
        [|discriminate H].
      apply build_variable_built in Hb. cbn [ret fst snd] in H.
      apply IH in H as (added & -> & Hf).
      exists (v :: added). rewrite <- app_assoc. split; [easy|].
      now constructor.
Qed.

Lemma get_variables_built (spreadsheet : Book) (sheetname grade : str)
  (course semester : Z) (log log' : list message)
  (vars : list exmvariable.EXMVariable) :
  get_variables spreadsheet sheetname grade course semester log
  = (Return vars, log') ->
  exists rows,
    find_sheet spreadsheet sheetname = Some rows
    /\ Forall2 (fun irow v =>
                  built sheetname (Asignatura_column irow)
                        (Asignatura_row irow) irow v)
               (filter (selected sheetname grade course semester) rows)
               vars.
Proof.
  unfold get_variables, SpsReader, bind. intros H.
  destruct (find_sheet spreadsheet sheetname) as [rows|];
    [|discriminate H].
  exists rows. split; [easy|]. cbn [ret] in H.
  destruct (for_each rows _ _ log) as [[[vars0 env0]|e] log0] eqn:Hl;
    [|discriminate H].
  injection H as <- _.
  now apply get_variables_loop in Hl as (added & -> & Hf).
Qed.

(** X8. The items that [get_variables] returns are the rows of the sheet
    that the selection keeps, one item for each and in their order: the
    item has the cell of the row in the name of the sheet, the sheet as
    its grade, the subject, course and semester of the row, and the setup
    time of the row or 24 hours when the row gives none. *)
Theorem get_variables_selection (spreadsheet : Book) (sheetname grade : str)
  (course semester : Z) (log log' : list message)
  (vars : list exmvariable.EXMVariable) :
  get_variables spreadsheet sheetname grade course semester log
  = (Return vars, log') ->
  exists rows,
    find_sheet spreadsheet sheetname = Some rows
    /\ Forall2
         (fun irow v =>
            exmvariable.get_cellname v
            = txt "$" ++ sheetname ++ txt "." ++ Asignatura_column irow
              ++ str_of_int (Asignatura_row irow)
            /\ exmvariable.get_grade v = sheetname
            /\ exmvariable.get_name v = Asignatura irow
            /\ exmvariable.get_course v = Curso irow
            /\ exmvariable.get_semester v = Cuatrimestre irow
            /\ exmvariable.get_setup v = setup_of irow
            /\ exmvariable.get_date v = datetime_unset
            /\ exmvariable.get_time v = midnight)
         (filter (selected sheetname grade course semester) rows) vars.
Proof.
  intros H. apply get_variables_built in H as (rows & Hr & Hf).
  exists rows. split; [easy|].
  induction Hf as [|irow v l l' Hb Hf IH]; constructor; [|exact IH].
  now apply built_fields in Hb.
Qed.

Lemma get_variables_selection_witness :
  exists rows,
    find_sheet sheet_two_references (txt "GII") = Some rows
    /\ Forall2
         (fun irow v =>
            exmvariable.get_cellname v
            = txt "$" ++ txt "GII" ++ txt "." ++ Asignatura_column irow
              ++ str_of_int (Asignatura_row irow)
            /\ exmvariable.get_grade v = txt "GII"
            /\ exmvariable.get_name v = Asignatura irow
            /\ exmvariable.get_course v = Curso irow
            /\ exmvariable.get_semester v = Cuatrimestre irow
            /\ exmvariable.get_setup v = setup_of irow
            /\ exmvariable.get_date v = datetime_unset
            /\ exmvariable.get_time v = midnight)
         (filter (selected (txt "GII") [] 1 0) rows) [with_two_references].
Proof.
  apply (get_variables_selection sheet_two_references (txt "GII") [] 1 0
           [] []).
  vm_compute. reflexivity.
Defined.

Lemma get_variable_rows_built (sheetname column : str) (row : Z)
  (rows : list Row) (log log' : list message)
  (v : exmvariable.EXMVariable) :
  get_variable_rows sheetname column row rows log = (Return v, log') ->
  exists before irow after,
    rows = before ++ irow :: after
    /\ (forall r, In r before ->
          Asignatura_column r <> column \/ Asignatura_row r <> row)
    /\ Asignatura_column irow = column /\ Asignatura_row irow = row
    /\ built sheetname column row irow v.
Proof.
  induction rows as [|irow rows IH]; cbn [get_variable_rows];
    [discriminate|].
  destruct (str_eqb (Asignatura_column irow) column) eqn:Ec;
    destruct (Asignatura_row irow =? row) eqn:Er; cbn [negb orb];
    try (intros H; apply IH in H as (b & r & a & -> & Hb & H);
         exists (irow :: b), r, a; split; [easy|]; split; [|easy];
         intros x [<- | Hx]; [|now apply Hb];
         try (left; now apply str_eqb_neq); right; lia).
  unfold bind. intros H.
  destruct (build_variable _ _ _ _ _ _) as [[[v0 env0]|e] log0] eqn:Hb;
    [|discriminate H].
  injection H as <- _. apply build_variable_built in Hb.
  exists [], irow, rows. apply str_eqb_eq in Ec. apply Z.eqb_eq in Er.
  now repeat split.
Qed.

Lemma get_variable_rows_unknown (sheetname column : str) (row : Z)
  (rows : list Row) (log : list message) :
  (forall r, In r rows ->
     Asignatura_column r <> column \/ Asignatura_row r <> row) ->
  get_variable_rows sheetname column row rows log
  = (Raise (ValueError_unknown_register sheetname (column ++ str_of_int row)),
     log).
Proof.
  induction rows as [|irow rows IH]; intros H; cbn [get_variable_rows];
    [easy|].
  assert (E : negb (str_eqb (Asignatura_column irow) column)
              || negb (Asignatura_row irow =? row) = true).
  { destruct (H irow (or_introl eq_refl)) as [Hc | Hr].
    - apply str_eqb_neq in Hc. now rewrite Hc.
    - apply Z.eqb_neq in Hr. rewrite Hr. apply orb_true_r. }
  rewrite E. apply IH. intros r Hr. apply H. now right.
Qed.

(** X9. [get_variable] builds the item of the first row of the sheet whose
    key cell is at the column and the row asked for, with that location as
    its cell name and whatever its course and semester; when no row is
    there it raises the error of the unknown register, and logs nothing. *)
Theorem get_variable_register (spreadsheet : Book) (sheetname column : str)
  (row : Z) (log : list message) (rows : list Row) :
  find_sheet spreadsheet sheetname = Some rows ->
  (forall log' v,
     get_variable spreadsheet sheetname column row log = (Return v, log') ->
     exmvariable.get_cellname v
     = txt "$" ++ sheetname ++ txt "." ++ column ++ str_of_int row
     /\ exists before irow after,
          rows = before ++ irow :: after
          /\ (forall r, In r before ->
                Asignatura_column r <> column \/ Asignatura_row r <> row)
          /\ Asignatura_column irow = column /\ Asignatura_row irow = row
          /\ exmvariable.get_name v = Asignatura irow
          /\ exmvariable.get_course v = Curso irow
          /\ exmvariable.get_semester v = Cuatrimestre irow
          /\ exmvariable.get_setup v = setup_of irow)
  /\ ((forall r, In r rows ->
         Asignatura_column r <> column \/ Asignatura_row r <> row) ->
      get_variable spreadsheet sheetname column row log
      = (Raise (ValueError_unknown_register sheetname
                  (column ++ str_of_int row)), log)).
Proof.
  intros Hs. unfold get_variable, SpsReader, bind. rewrite Hs. cbn [ret].
  split.
  - intros log' v H.
    apply get_variable_rows_built in H
      as (b & irow & a & -> & Hb & Hc & Hr & Hv).
    apply built_fields in Hv as (Hn & _ & Hname & Hco & Hse & Hsu & _).
    split; [easy|]. exists b, irow, a. now repeat split.
  - apply get_variable_rows_unknown.
Qed.

Lemma get_variable_register_witness :
  get_variable sheet_two_references (txt "GII") (txt "D") 4 []
  = (Raise (ValueError_unknown_register (txt "GII")
              (txt "D" ++ str_of_int 4)), []).
Proof.
  apply (get_variable_register sheet_two_references (txt "GII") (txt "D") 4
           [] _ eq_refl).
  intros r [<- | [<- | [<- | []]]]; right; simpl; lia.
Defined.

(** X10. Every item that [get_variables] or [get_variable] returns keeps
    its four mappings of constraints as dictionaries of lists that were
    only assigned to: no key is there twice and no list is empty, so the
    keys of the unit constraints are distinct as the domain filter
    expects. *)
Theorem built_items_are_well_kept (spreadsheet : Book)
  (sheetname : str) (log log' : list message) :
  (forall grade course semester vars,
     get_variables spreadsheet sheetname grade course semester log
     = (Return vars, log') ->
     forall v, In v vars -> well_kept v)
  /\ (forall column row v,
        get_variable spreadsheet sheetname column row log
        = (Return v, log') -> well_kept v).
Proof.
  split.
  - intros grade course semester vars H v Hv.
    apply get_variables_built in H as (rows & _ & Hf).
    revert Hv. induction Hf as [|irow u l l' Hb Hf IH]; [easy|].
    intros [<- | Hv]; [|now apply IH].
    now apply built_well_kept in Hb.
  - intros column row v. unfold get_variable, SpsReader, bind.
    destruct (find_sheet spreadsheet sheetname); [|discriminate].
    cbn [ret]. intros H.
    apply get_variable_rows_built in H as (b & irow & a & _ & _ & _ & _ & Hv).
    now apply built_well_kept in Hv.
Qed.

Lemma built_items_are_well_kept_witness : well_kept with_two_references.
Proof.
  apply (proj1 (built_items_are_well_kept sheet_two_references (txt "GII")
                  [] []) [] 1 0 [with_two_references]);
    [vm_compute; reflexivity | now left].
Defined.

(** ** What the parsers accept *)

Lemma date_pattern_written (op : Operator) (y m d : Z) (s1 s2 : ascii)
  (t : str) :
  is_datesep s1 = true -> is_datesep s2 = true ->
  RE_UNI_DATE_CONSTRAINT
    (op_symbol op ++ fmt4 y ++ s1 :: fmt2 m ++ s2 :: fmt2 d ++ t)
  = Some {| dm_operator := Some op; dm_year := fmt4 y; dm_month := fmt2 m;
            dm_day := fmt2 d; dm_rest := t |}.
Proof.
  intros H1 H2. unfold RE_UNI_DATE_CONSTRAINT.
  apply pattern_after_symbol.
  - intros o s'. run_pattern. reflexivity.
  - run_pattern. rewrite H1. run_pattern. rewrite H2. run_pattern.
    reflexivity.
Qed.

(** X11. A date is read with either separator at each place and with no
    space after the operator, whatever follows it; it is a date constraint
    exactly when the calendar has that day, so a day such as the 30th of
    February is no date constraint. *)
Theorem date_constraint_written (op : Operator) (y m d : Z) (s1 s2 : ascii)
  (t : str) :
  0 <= y < 10000 -> 0 <= m < 100 -> 0 <= d < 100 ->
  is_datesep s1 = true -> is_datesep s2 = true ->
  get_uni_date_constraint
    (op_symbol op ++ fmt4 y ++ s1 :: fmt2 m ++ s2 :: fmt2 d ++ t)
  = option_map (mkuni op) (new_datetime y m d).
Proof.
  intros Hy Hm Hd H1 H2. unfold get_uni_date_constraint.
  rewrite date_pattern_written by assumption.
  cbn [dm_operator dm_year dm_month dm_day operator_or_default].
  rewrite int_of_fmt4, !int_of_fmt2 by lia.
  now destruct (new_datetime y m d).
Qed.

Lemma date_constraint_written_witness :
  get_uni_date_constraint (txt ">=2024/02-29 at the latest")
  = Some (mkuni OpGe (mkdatetime (mkdate 2024 2 29) midnight))
  /\ get_uni_date_constraint (txt ">=2023/02-29 at the latest") = None.
Proof.
  split.
  - apply (date_constraint_written OpGe 2024 2 29 "/"%char "-"%char
             (txt " at the latest")); try lia; reflexivity.
  - apply (date_constraint_written OpGe 2023 2 29 "/"%char "-"%char
             (txt " at the latest")); try lia; reflexivity.
Defined.

Lemma time_pattern_qualified (op : Operator) (h m : Z) (q : Qualifier) :
  RE_UNI_TIME_CONSTRAINT
    (op_symbol op ++ fmt2 h ++ txt ":" ++ fmt2 m ++ txt " "
     ++ qualifier_text q)
  = Some {| tm_operator := Some op; tm_hour := fmt2 h; tm_minutes := fmt2 m;
            tm_seconds := None; tm_qualifier := Some q; tm_rest := [] |}.
Proof.
  unfold RE_UNI_TIME_CONSTRAINT.
  apply pattern_after_symbol.
  - intros o s'. run_pattern. reflexivity.
  - destruct q; cbn [qualifier_text]; run_pattern; reflexivity.
Qed.

(** X12. A time written as hour and minutes with a qualifier has no
    seconds; [PM] adds twelve hours to an hour below twelve and nothing
    else changes the hour, so twelve [AM] stays at noon; the text is a time
    constraint exactly when the resulting hour and the minutes are those
    of a time of the day. *)
Theorem time_constraint_with_qualifier (op : Operator) (h m : Z)
  (q : Qualifier) :
  0 <= h < 100 -> 0 <= m < 100 ->
  get_uni_time_constraint
    (op_symbol op ++ fmt2 h ++ txt ":" ++ fmt2 m ++ txt " "
     ++ qualifier_text q)
  = option_map (mkuni op)
      (new_time (match q with
                 | PM => if h <? 12 then h + 12 else h
                 | AM => h
                 end) m 0).
Proof.
  intros Hh Hm. unfold get_uni_time_constraint.
  rewrite time_pattern_qualified.
  cbn [tm_operator tm_hour tm_minutes tm_seconds tm_qualifier
       operator_or_default].
  rewrite !int_of_fmt2 by lia.
  destruct q; now destruct (new_time _ m 0).
Qed.

Lemma time_constraint_with_qualifier_witness :
  get_uni_time_constraint (txt "<04:30 PM") = Some (mkuni OpLt (mktime 16 30 0))
  /\ get_uni_time_constraint (txt "<12:30 AM")
     = Some (mkuni OpLt (mktime 12 30 0)).
Proof.
  split.
  - apply (time_constraint_with_qualifier OpLt 4 30 PM); lia.
  - apply (time_constraint_with_qualifier OpLt 12 30 AM); lia.
Defined.

Lemma re_operator_letter {R} (c : ascii) (s : str)
  (k : option Operator -> str -> option R) :
  is_letter c = true -> re_operator (c :: s) k = k None (c :: s).
Proof.
  intros H.
  assert (E : forall a, is_letter a = false -> chr_eqb a c = false).
  { intros a Ha. unfold chr_eqb, is_letter in *. lia. }
  unfold re_operator.
  cbn [op_symbol txt list_ascii_of_string re_lit].
  rewrite !E by reflexivity. reflexivity.
Qed.

Lemma re_sheet_letter {R} (c : ascii) (s : str)
  (k : option str -> str -> option R) :
  is_letter c = true -> re_sheet (c :: s) k = k None (c :: s).
Proof.
  intros H.
  assert (E : chr_eqb "$"%char c = false)
    by (unfold chr_eqb, is_letter in *; change (code "$"%char) with 36; lia).
  unfold re_sheet. cbn [txt list_ascii_of_string re_lit]. now rewrite E.
Qed.

Lemma bi_pattern_cell (o : option Operator) (l d : str) :
  l <> [] -> d <> [] ->
  forallb is_letter l = true -> forallb is_digit d = true ->
  RE_BICONSTRAINT
    (match o with Some op => op_symbol op | None => [] end ++ l ++ d)
  = Some {| bm_operator := o; bm_sheet := None; bm_cell := l ++ d;
            bm_rest := [] |}.
Proof.
  intros Hl Hd Hl' Hd'. unfold RE_BICONSTRAINT.
  assert (Hk : forall o',
             re_spaces (l ++ d) (fun s =>
               re_sheet s (fun sh s0 =>
               re_cell s0 (fun c s1 =>
                 Some {| bm_operator := o'; bm_sheet := sh; bm_cell := c;
                         bm_rest := s1 |})))
             = Some {| bm_operator := o'; bm_sheet := None;
                       bm_cell := l ++ d; bm_rest := [] |}).
  { intros o'. destruct l as [|c l]; [easy|]. cbn [app].
    pose proof Hl' as Hc. simpl in Hc. apply andb_true_iff in Hc as [Hc _].
    rewrite re_spaces_skip by now apply letter_not_space.
    rewrite re_sheet_letter by easy.
    now apply (re_cell_all _ (c :: l) d). }
  destruct o as [op|].
  - apply pattern_after_symbol; [|apply Hk].
    intros o s'. rewrite re_spaces_skip by reflexivity.
    unfold re_sheet, re_cell, re_plus, re_one.
    cbn [txt list_ascii_of_string re_lit orelse].
    decide_test (chr_eqb "$"%char "="%char).
    decide_test (is_letter "="%char). reflexivity.
  - cbn [app]. destruct l as [|c l]; [easy|]. cbn [app].
    pose proof Hl' as Hc. simpl in Hc. apply andb_true_iff in Hc as [Hc _].
    rewrite re_spaces_skip by now apply letter_not_space.
    rewrite re_operator_letter by easy. apply (Hk None).
Qed.

(** X15. A reference to a cell without the name of a sheet, with an
    operator or with none, is a binary constraint whose key is the cell
    name that an item at that column and row of the current sheet has;
    without an operator it is an equality. *)
Theorem biconstraint_without_sheet (o : option Operator)
  (grade name : str) (course semester : Z) (exmdate : datetime)
  (exmtime : time) (setup : Z) (sheetname column : str) (row : Z) :
  column <> [] -> forallb is_letter column = true -> 0 <= row ->
  get_biconstraint
    (match o with Some op => op_symbol op | None => [] end
     ++ column ++ str_of_int row) sheetname
  = Some (mkbi (operator_or_default o)
            (exmvariable.get_cellname
               (exmvariable.init grade name course semester exmdate exmtime
                  setup sheetname column row))).
Proof.
  intros Hc Hl Hr. destruct (str_of_int_digits row Hr) as (Hne & Hd & _).
  unfold get_biconstraint. now rewrite bi_pattern_cell.
Qed.

Lemma biconstraint_without_sheet_witness :
  get_biconstraint (txt "B21") (txt "GII")
  = Some (mkbi OpEq (txt "$GII.B21")).
Proof.
  apply (biconstraint_without_sheet None [] [] 0 0 datetime_unset midnight 24
           (txt "GII") (txt "B") 21); [discriminate | reflexivity | lia].
Defined.

(** ** The parser of a cell on whole texts *)

Lemma split_commas_aux_no_comma (s cur : str) :
  forallb (fun c => negb (code c =? 44)) s = true ->
  split_commas_aux cur s = [cur ++ s].
Proof.
  revert cur. induction s as [|c s IH]; intros cur H; cbn [split_commas_aux].
  - now rewrite app_nil_r.
  - cbn [forallb] in H. apply andb_true_iff in H as [Hc Hs].
    apply negb_true_iff in Hc. rewrite Hc, IH by easy.
    now rewrite <- app_assoc.
Qed.

Lemma comma_digit_char (n : Z) : negb (code (digit_char n) =? 44) = true.
Proof.
  rewrite code_digit_char. pose proof (Z.mod_pos_bound n 10). lia.
Qed.

Lemma no_comma_str_date (d : date) :
  forallb (fun c => negb (code c =? 44)) (str_date d) = true.
Proof.
  unfold str_date, fmt4, fmt2.
  cbn [app txt list_ascii_of_string forallb].
  now rewrite !comma_digit_char.
Qed.

Lemma no_comma_str_time (t : time) :
  forallb (fun c => negb (code c =? 44)) (str_time t) = true.
Proof.
  unfold str_time, fmt2. cbn [app txt list_ascii_of_string forallb].
  now rewrite !comma_digit_char.
Qed.

Lemma no_comma_op_symbol (op : Operator) :
  forallb (fun c => negb (code c =? 44)) (op_symbol op) = true.
Proof. now destruct op. Qed.

(** One fragment that is not blank: the three parsers in their order. *)
Lemma get_constraints_one (f sheetname cellname : str) (log : list message) :
  f <> [] -> forallb (fun c => negb (code c =? 44)) f = true ->
  is_blank f = false ->
  get_constraints f sheetname cellname log
  = get_constraints_step sheetname cellname f ([], [], []) log.
Proof.
  intros Hne Hc Hb. unfold get_constraints.
  destruct f as [|c f]; [easy|].
  unfold split_commas. rewrite split_commas_aux_no_comma by easy.
  cbn [app for_each]. unfold bind.
  destruct (get_constraints_step _ _ _ _ _) as [[r|e] l]; reflexivity.
Qed.

Lemma time_pattern_bare (h m s : Z) :
  RE_UNI_TIME_CONSTRAINT (str_time (mktime h m s))
  = Some {| tm_operator := None; tm_hour := fmt2 h; tm_minutes := fmt2 m;
            tm_seconds := Some (fmt2 s); tm_qualifier := None;
            tm_rest := [] |}.
Proof.
  unfold RE_UNI_TIME_CONSTRAINT, str_time. cbn [hour minute second fmt2 app].
  rewrite re_spaces_skip by apply is_space_digit_char.
  rewrite re_operator_digit by apply is_digit_digit_char.
  run_pattern. reflexivity.
Qed.

Lemma date_pattern_on_bare_time (t : time) :
  RE_UNI_DATE_CONSTRAINT (str_time t) = None.
Proof.
  unfold RE_UNI_DATE_CONSTRAINT, str_time. cbn [fmt2 app].
  rewrite re_spaces_skip by apply is_space_digit_char.
  rewrite re_operator_digit by apply is_digit_digit_char.
  run_pattern. reflexivity.
Qed.

Lemma is_blank_digit_head (n : Z) (s : str) :
  is_blank (digit_char n :: s) = false.
Proof. unfold is_blank. cbn [forallb]. now rewrite is_space_digit_char. Qed.

(** X16. A cell that the spreadsheet holds as a date, or as a date and a
    time, gives the item one date constraint: the equality with that date;
    a cell held as a time gives the one time constraint that is the
    equality with that time. *)
Theorem typed_cells_are_equalities (sheetname cellname : str)
  (log : list message) :
  (forall d t0 c s,
     valid_date d = true ->
     c = CellDate d \/ c = CellDateTime (mkdatetime d t0) ->
     stringize c = Some s ->
     get_constraints s sheetname cellname log
     = (Return ([mkuni OpEq (mkdatetime d midnight)], [], []), log))
  /\ (forall t s,
        valid_time t = true -> stringize (CellTime t) = Some s ->
        get_constraints s sheetname cellname log
        = (Return ([], [mkuni OpEq t], []), log)).
Proof.
  split.
  - intros d t0 c s Hv Hc Hs.
    assert (E : s = str_date d) by (destruct Hc as [-> | ->]; now inversion Hs).
    subst s. rewrite get_constraints_one;
      [| discriminate | apply no_comma_str_date | apply is_blank_digit_head].
    unfold get_constraints_step.
    replace (is_blank (str_date d)) with false
      by (symmetry; apply is_blank_digit_head).
    rewrite <- (app_nil_r (str_date d)).
    now rewrite get_uni_date_constraint_bare.
  - intros [h m x] s Hv [= <-].
    rewrite get_constraints_one;
      [| discriminate | apply no_comma_str_time | apply is_blank_digit_head].
    unfold get_constraints_step.
    replace (is_blank (str_time (mktime h m x))) with false
      by (symmetry; apply is_blank_digit_head).
    unfold get_uni_date_constraint, get_uni_time_constraint.
    rewrite date_pattern_on_bare_time, time_pattern_bare.
    cbn [tm_operator tm_hour tm_minutes tm_seconds tm_qualifier
         operator_or_default].
    destruct (valid_time_bounds _ _ _ Hv) as (? & ? & ?).
    rewrite !int_of_fmt2 by lia. unfold new_time. now rewrite Hv.
Qed.

Lemma typed_cells_are_equalities_witness :
  get_constraints (txt "2024-05-09") (txt "GII") (txt "B21") []
  = (Return ([mkuni OpEq (mkdatetime (mkdate 2024 5 9) midnight)], [], []),
     []).
Proof.
  apply (proj1 (typed_cells_are_equalities (txt "GII") (txt "B21") [])
           (mkdate 2024 5 9) (mktime 9 0 0)
           (CellDateTime (mkdatetime (mkdate 2024 5 9) (mktime 9 0 0))));
    [reflexivity | now right | reflexivity].
Defined.

Lemma split_commas_aux_blank (s cur : str) :
  is_blank cur = true ->
  forallb (fun c => is_space c || (code c =? 44)) s = true ->
  forallb is_blank (split_commas_aux cur s) = true.
Proof.
  revert cur. induction s as [|c s IH]; intros cur Hcur H;
    cbn [split_commas_aux].
  - cbn [forallb]. now rewrite Hcur.
  - cbn [forallb] in H. apply andb_true_iff in H as [Hc Hs].
    destruct (code c =? 44).
    + cbn [forallb]. rewrite Hcur. now apply IH.
    + apply IH; [|easy]. unfold is_blank in *. rewrite forallb_app, Hcur.
      cbn [forallb]. rewrite orb_false_r in Hc. now rewrite Hc.
Qed.

Lemma filter_blank (l : list str) :
  forallb is_blank l = true -> filter (fun f => negb (is_blank f)) l = [].
Proof.
  induction l as [|f l IH]; [easy|]. cbn [forallb filter].
  intros H. apply andb_true_iff in H as [-> H]. now apply IH.
Qed.

(** X17. A cell that holds only spaces and commas gives no constraint and
    logs nothing. *)
Theorem blank_cell_has_no_constraint (instr sheetname cellname : str)
  (log : list message) :
  forallb (fun c => is_space c || (code c =? 44)) instr = true ->
  get_constraints instr sheetname cellname log = (Return ([], [], []), log).
Proof.
  intros H. unfold get_constraints. destruct instr as [|c instr]; [easy|].
  rewrite get_constraints_loop. cbv zeta.
  now rewrite filter_blank by now apply split_commas_aux_blank.
Qed.

Lemma blank_cell_has_no_constraint_witness :
  get_constraints (txt " , ,, ") (txt "GII") (txt "B21") []
  = (Return ([], [], []), []).
Proof. now apply blank_cell_has_no_constraint. Defined.

Lemma time_pattern_on_date (op : Operator) (d : date) :
  RE_UNI_TIME_CONSTRAINT (op_symbol op ++ txt " " ++ str_date d) = None.
Proof.
  assert (Hc : forall n, chr_eqb ":"%char (digit_char n) = false)
    by (intros; now apply chr_eqb_digit_char).
  unfold RE_UNI_TIME_CONSTRAINT, str_date.
  apply pattern_after_symbol_none;
    [intros o s' | | destruct op];
    run_pattern; rewrite ?Hc; reflexivity.
Qed.

Lemma bi_pattern_on_date (op : Operator) (d : date) :
  RE_BICONSTRAINT (op_symbol op ++ txt " " ++ str_date d) = None.
Proof.
  assert (Hd : forall n, is_letter (digit_char n) = false)
    by (intros; apply letter_not_digit, is_digit_digit_char).
  assert (Hs : forall n, chr_eqb "$"%char (digit_char n) = false)
    by (intros; now apply chr_eqb_digit_char).
  unfold RE_BICONSTRAINT, str_date.
  apply pattern_after_symbol_none;
    [intros o s' | | destruct op];
    unfold re_sheet, re_cell, re_plus; run_pattern;
    rewrite ?Hs, ?Hd; cbn [orelse]; rewrite ?Hd; reflexivity.
Qed.

(** X18. A date that the calendar does not have, written after an
    operator as the text of a date, matches none of the three patterns:
    the parser logs the constraint error with the text, the sheet and the
    location, and the run exits. *)
Theorem impossible_date_is_fatal (op : Operator) (y m d : Z)
  (sheetname cellname : str) (log : list message) :
  0 <= y < 10000 -> 0 <= m < 100 -> 0 <= d < 100 ->
  valid_date (mkdate y m d) = false ->
  get_constraints (op_symbol op ++ txt " " ++ str_date (mkdate y m d))
                  sheetname cellname log
  = (Raise SystemExit,
     log ++ [ERROR_CONSTRAINT
               (op_symbol op ++ txt " " ++ str_date (mkdate y m d))
               sheetname cellname]).
Proof.
  intros Hy Hm Hd Hv.
  assert (Hb : is_blank (op_symbol op ++ txt " " ++ str_date (mkdate y m d))
               = false) by now destruct op.
  rewrite get_constraints_one; [| now destruct op | | exact Hb].
  2:{ rewrite !forallb_app, no_comma_op_symbol, no_comma_str_date.
      reflexivity. }
  unfold get_constraints_step. rewrite Hb.
  unfold get_uni_date_constraint, get_uni_time_constraint, get_biconstraint.
  pose proof (date_pattern_canonical op y m d []) as Hp.
  rewrite app_nil_r in Hp.
  rewrite Hp, time_pattern_on_date, bi_pattern_on_date.
  cbn [dm_operator dm_year dm_month dm_day operator_or_default].
  rewrite int_of_fmt4, !int_of_fmt2 by lia.
  unfold new_datetime. rewrite Hv. reflexivity.
Qed.

Lemma impossible_date_is_fatal_witness :
  get_constraints (txt "< 2023-02-29") (txt "GII") (txt "B21") []
  = (Raise SystemExit,
     [ERROR_CONSTRAINT (txt "< 2023-02-29") (txt "GII") (txt "B21")]).
Proof.
  apply (impossible_date_is_fatal OpLt 2023 2 29 (txt "GII") (txt "B21") []);
    try lia; reflexivity.
Defined.

(** ** The predicates *)

Lemma date_order (a b : date) :
  negb (date_eqb a b) = date_ltb a b || date_ltb b a
  /\ negb (date_ltb a b) = date_leb b a
  /\ date_eqb a b = date_eqb b a.
Proof.
  unfold date_leb, date_ltb, date_eqb.
  destruct a as [y m d], b as [y' m' d']. cbn [year month day]. lia.
Qed.

Lemma time_order (a b : time) :
  negb (time_eqb a b) = time_ltb a b || time_ltb b a
  /\ negb (time_ltb a b) = time_leb b a
  /\ time_eqb a b = time_eqb b a.
Proof.
  unfold time_leb, time_ltb, time_eqb.
  destruct a as [h m s], b as [h' m' s']. cbn [hour minute second]. lia.
Qed.

(** X19. In each of the four tables of predicates the six operators are
    consistent: the predicate of the negated operator holds exactly when
    the predicate of the operator does not, and between two values the
    predicate of the converse operator holds of the pair taken the other
    way round. *)
Theorem operators_are_consistent (op : Operator) :
  (forall xi cj,
     uni_date_table (negate op) xi cj = negb (uni_date_table op xi cj))
  /\ (forall xi cj,
        uni_time_table (negate op) xi cj = negb (uni_time_table op xi cj))
  /\ (forall xi xj,
        bi_date_table (negate op) xi xj = negb (bi_date_table op xi xj)
        /\ bi_date_table (converse op) xj xi = bi_date_table op xi xj)
  /\ (forall xi xj,
        bi_time_table (negate op) xi xj = negb (bi_time_table op xi xj)
        /\ bi_time_table (converse op) xj xi = bi_time_table op xi xj).
Proof.
  split; [|split; [|split]].
  - intros xi cj.
    destruct (date_order (dt_date xi) (dt_date cj)) as (_ & H1 & _).
    destruct (date_order (dt_date cj) (dt_date xi)) as (_ & H2 & _).
    destruct op; cbn [negate uni_date_table];
      unfold uni_equal_date, uni_not_equal_date, uni_lt_date, uni_le_date,
        uni_gt_date, uni_ge_date;
      rewrite <- ?H1, <- ?H2, ?negb_involutive; reflexivity.
  - intros xi cj.
    destruct (time_order (dt_time xi) cj) as (_ & H1 & _).
    destruct (time_order cj (dt_time xi)) as (_ & H2 & _).
    destruct op; cbn [negate uni_time_table];
      unfold uni_equal_time, uni_not_equal_time, uni_lt_time, uni_le_time,
        uni_gt_time, uni_ge_time;
      rewrite <- ?H1, <- ?H2, ?negb_involutive; reflexivity.
  - intros xi xj.
    destruct (date_order (get_date xi) (get_date xj)) as (_ & H1 & H3).
    destruct (date_order (get_date xj) (get_date xi)) as (_ & H2 & _).
    destruct op; cbn [negate converse bi_date_table];
      unfold bi_equal_date, bi_not_equal_date, bi_lt_date, bi_le_date,
        bi_gt_date, bi_ge_date;
      rewrite <- ?H1, <- ?H2, ?negb_involutive, <- ?H3; split; reflexivity.
  - intros xi xj.
    destruct (time_order (get_time xi) (get_time xj)) as (_ & H1 & H3).
    destruct (time_order (get_time xj) (get_time xi)) as (_ & H2 & _).
    destruct op; cbn [negate converse bi_time_table];
      unfold bi_equal_time, bi_not_equal_time, bi_lt_time, bi_le_time,
        bi_gt_time, bi_ge_time;
      rewrite <- ?H1, <- ?H2, ?negb_involutive, <- ?H3; split; reflexivity.
Qed.

(** X20. The minimum-gap predicate gives the same answer for a pair of
    values taken either way round, as long as the two are not at the same
    moment with different setup times. *)
Theorem bi_difftime_symmetric (xi xj : EXMValue) :
  valid_datetime (get_value xi) -> valid_datetime (get_value xj) ->
  timestamp (get_value xi) <> timestamp (get_value xj)
  \/ get_setup xi = get_setup xj ->
  bi_difftime xi xj = bi_difftime xj xi.
Proof.
  intros Hi Hj Hd. unfold bi_difftime, hours_at_least, datetime_gtb.
  pose proof (datetime_ltb_lt _ _ Hj Hi) as Hji.
  pose proof (datetime_ltb_lt _ _ Hi Hj) as Hij.
  rewrite !total_seconds_sub.
  destruct (datetime_ltb (get_value xj) (get_value xi)) eqn:E;
    destruct (datetime_ltb (get_value xi) (get_value xj)) eqn:E';
    try reflexivity.
  - assert (timestamp (get_value xj) < timestamp (get_value xi))
      by now apply Hji.
    assert (timestamp (get_value xi) < timestamp (get_value xj))
      by now apply Hij.
    lia.
  - assert (~ timestamp (get_value xj) < timestamp (get_value xi))
      by (intros Hx; apply Hji in Hx; congruence).
    assert (~ timestamp (get_value xi) < timestamp (get_value xj))
      by (intros Hx; apply Hij in Hx; congruence).
    destruct Hd as [Hd | Hd]; [lia|]. rewrite Hd.
    replace (timestamp (get_value xj) - timestamp (get_value xi))
      with (timestamp (get_value xi) - timestamp (get_value xj)) by lia.
    reflexivity.
Qed.

Lemma bi_difftime_symmetric_witness :
  bi_difftime
    (set_setup 24 (init (mkdate 2024 5 2) (mktime 9 0 0)))
    (set_setup 48 (init (mkdate 2024 5 1) (mktime 9 0 0)))
  = bi_difftime
      (set_setup 48 (init (mkdate 2024 5 1) (mktime 9 0 0)))
      (set_setup 24 (init (mkdate 2024 5 2) (mktime 9 0 0))).
Proof.
  apply bi_difftime_symmetric;
    [split; reflexivity | split; reflexivity | left; vm_compute; lia].
Defined.

(** ** The problem that is assembled *)

Lemma for_each_app {A S} (l1 l2 : list A) (body : A -> S -> M S) (s : S)
  (log : list message) :
  for_each (l1 ++ l2) body s log
  = (s' <- for_each l1 body s ;; for_each l2 body s') log.
Proof.
  revert s log. induction l1 as [|x l1 IH]; intros s log; cbn [app for_each].
  - reflexivity.
  - unfold bind.
    destruct (body x s log) as [[s'|e] log']; [|reflexivity].
    rewrite IH. reflexivity.
Qed.

Lemma addVariable_new (variable : exmvariable.EXMVariable)
  (domain : list EXMValue) (task : Problem) (log : list message) :
  domain <> [] ->
  ~ In (exmvariable.get_cellname variable)
       (map exmvariable.get_cellname (map fst (p_variables task))) ->
  addVariable variable domain task log
  = (Return (mkproblem (p_variables task ++ [(variable, domain)])
                       (p_constraints task)), log).
Proof.
  intros Hd Hn. unfold addVariable. rewrite existsb_cellname by easy.
  now destruct domain.
Qed.

Lemma variables_loop_success (domain : list EXMValue)
  (l : list exmvariable.EXMVariable) :
  forall task log,
    NoDup (map exmvariable.get_cellname (map fst (p_variables task) ++ l)) ->
    (forall v, In v l -> filtered_domain v domain <> []) ->
    for_each l (variables_step domain) task log
    = (Return (mkproblem
                 (p_variables task
                  ++ map (fun v => (v, filtered_domain v domain)) l)
                 (p_constraints task)), log).
Proof.
  induction l as [|v l IH]; intros task log Hn Hd; cbn [for_each map].
  - rewrite app_nil_r. now destruct task.
  - unfold bind at 1. unfold variables_step at 1.
    assert (Hv : filtered_domain v domain <> []) by (apply Hd; now left).
    rewrite map_app in Hn. cbn [map] in Hn.
    assert (Hv' : ~ In (exmvariable.get_cellname v)
                       (map exmvariable.get_cellname
                            (map fst (p_variables task)))).
    { apply NoDup_remove_2 in Hn. intros Hx. apply Hn.
      apply in_or_app. now left. }
    unfold bind.
    destruct (filtered_domain v domain) as [|x dom] eqn:E; [easy|].
    unfold ret at 1. rewrite addVariable_new by easy.
    rewrite IH.
    + cbn [p_variables p_constraints]. now rewrite <- app_assoc.
    + cbn [p_variables]. rewrite !map_app. cbn [map fst].
      rewrite <- app_assoc. exact Hn.
    + intros u Hu. apply Hd. now right.
Qed.

(** X21. When the items that the loop visits have cell names that are all
    different and each keeps at least one value of the domain, the phase
    of the variables adds them all to the problem, in their order and each
    with its filtered domain, and logs nothing. *)
Theorem variables_phase_success (domain : list EXMValue)
  (poolvar : EXMPoolVar) (log : list message) :
  NoDup (map exmvariable.get_cellname (members poolvar)) ->
  (forall v, In v (members poolvar) -> filtered_domain v domain <> []) ->
  variables_phase domain poolvar (mkproblem [] []) log
  = (Return (mkproblem
               (map (fun v => (v, filtered_domain v domain))
                    (members poolvar)) []), log).
Proof.
  intros Hn Hd. unfold variables_phase.
  now rewrite variables_loop_success.
Qed.

Lemma variables_phase_success_witness :
  variables_phase [init (mkdate 2024 5 9) (mktime 16 0 0)]
    (mkpool [may_item; c30] 0) (mkproblem [] []) []
  = (Return
       (mkproblem
          (map (fun v =>
                  (v, filtered_domain v
                        [init (mkdate 2024 5 9) (mktime 16 0 0)]))
               (members (mkpool [may_item; c30] 0))) []), []).
Proof.
  apply variables_phase_success.
  - repeat constructor; simpl; intuition discriminate.
  - intros v [<- | [<- | []]]; discriminate.
Defined.

Lemma variables_loop_outcome (domain : list EXMValue)
  (l : list exmvariable.EXMVariable) :
  forall task log,
    (exists e log',
       for_each l (variables_step domain) task log = (Raise e, log'))
    \/ for_each l (variables_step domain) task log
       = (Return (mkproblem
                    (p_variables task
                     ++ map (fun v => (v, filtered_domain v domain)) l)
                    (p_constraints task)), log).
Proof.
  induction l as [|v l IH]; intros task log; cbn [for_each map].
  - right. rewrite app_nil_r. now destruct task.
  - unfold bind.
    destruct (variables_step_outcome domain v task log)
      as [(e & log' & ->) | (-> & _ & _)]; [left; eauto|].
    destruct (IH (mkproblem
                    (p_variables task ++ [(v, filtered_domain v domain)])
                    (p_constraints task)) log)
      as [(e & log' & ->) | ->]; [left; eauto|].
    right. cbn [p_variables p_constraints]. now rewrite <- app_assoc.
Qed.

Lemma addVariable_again (w : exmvariable.EXMVariable)
  (domain : list EXMValue) (task : Problem) (log : list message) :
  In (exmvariable.get_cellname w)
     (map exmvariable.get_cellname (map fst (p_variables task))) ->
  addVariable w domain task log = (Raise ValueError_solver, log).
Proof.
  intros H. unfold addVariable.
  replace (existsb _ _) with true; [reflexivity|].
  symmetry. apply existsb_exists.
  rewrite map_map in H. apply in_map_iff in H as (e & He & Hin).
  exists e. split; [easy|]. unfold exmvariable.eq. rewrite He.
  apply str_eqb_refl.
Qed.

(** X22. An item that is in the pool twice, or two items with the same
    cell name, stop the run in the phase of the variables: when every
    item before the second one is rejected by nothing, it is the solver
    that refuses the name it already has, and the only thing logged is the
    empty domain of that item, if it has one. *)
Theorem repeated_item_is_fatal (domain : list EXMValue)
  (poolvar : EXMPoolVar) (log : list message)
  (before between after : list exmvariable.EXMVariable)
  (v w : exmvariable.EXMVariable) :
  members poolvar = before ++ v :: between ++ w :: after ->
  exmvariable.get_cellname v = exmvariable.get_cellname w ->
  (exists e log', assemble domain poolvar log = (Raise e, log'))
  /\ (NoDup (map exmvariable.get_cellname (before ++ v :: between)) ->
      (forall u, In u (before ++ v :: between) ->
                 filtered_domain u domain <> []) ->
      assemble domain poolvar log
      = (Raise ValueError_solver,
         log ++ match filtered_domain w domain with
                | [] => [ERROR_EMPTY_DOMAIN w]
                | _ => []
                end)).
Proof.
  intros Hm Hvw. unfold assemble, variables_phase. rewrite Hm.
  replace (before ++ v :: between ++ w :: after)
    with ((before ++ v :: between) ++ w :: after)
    by (rewrite <- app_assoc; reflexivity).
  assert (Hw : forall task0 log0,
             p_variables task0
             = map (fun u => (u, filtered_domain u domain))
                   (before ++ v :: between) ->
             variables_step domain w task0 log0
             = (Raise ValueError_solver,
                log0 ++ match filtered_domain w domain with
                        | [] => [ERROR_EMPTY_DOMAIN w]
                        | _ => []
                        end)).
  { intros task0 log0 Hp. unfold variables_step, bind.
    assert (Hin : In (exmvariable.get_cellname w)
                     (map exmvariable.get_cellname
                          (map fst (p_variables task0)))).
    { rewrite Hp, !map_map. cbn [fst]. rewrite <- Hvw.
      apply (in_map exmvariable.get_cellname), in_or_app. right. now left. }
    destruct (filtered_domain w domain);
      [unfold LOGGER_error | unfold ret; rewrite app_nil_r];
      now rewrite addVariable_again. }
  split.
  - unfold bind at 1. rewrite for_each_app. unfold bind at 1.
    destruct (variables_loop_outcome domain (before ++ v :: between)
                (mkproblem [] []) log) as [(e & log' & ->) | ->];
      [eauto|].
    cbn [for_each]. unfold bind at 1. rewrite Hw by reflexivity. eauto.
  - intros Hn Hd. unfold bind at 1. rewrite for_each_app. unfold bind at 1.
    rewrite variables_loop_success by easy.
    cbn [for_each]. unfold bind at 1. now rewrite Hw.
Qed.

Lemma repeated_item_is_fatal_witness :
  assemble [init (mkdate 2024 5 9) (mktime 16 0 0)]
           (mkpool [c30; may_item; c30] 0) []
  = (Raise ValueError_solver, []).
Proof.
  apply (proj2 (repeated_item_is_fatal
                  [init (mkdate 2024 5 9) (mktime 16 0 0)]
                  (mkpool [c30; may_item; c30] 0) [] [] [may_item] []
                  c30 c30 eq_refl eq_refl)).
  - repeat constructor; simpl; intuition discriminate.
  - intros u [<- | [<- | []]]; discriminate.
Defined.

Lemma in_pair_bindings_difftime (i j : exmvariable.EXMVariable) (a c : str) :
  In (mkbinding Pbi_difftime a c) (pair_bindings i j)
  <-> exmvariable.get_cellname i = a /\ exmvariable.get_cellname j = c
      /\ a <> c
      /\ exmvariable.get_grade i = exmvariable.get_grade j
      /\ exmvariable.get_course i = exmvariable.get_course j.
Proof.
  unfold pair_bindings, exmvariable.eq.
  destruct (str_eqb (exmvariable.get_cellname i)
                    (exmvariable.get_cellname j)) eqn:E.
  - apply str_eqb_eq in E. split; [easy|].
    intros (<- & <- & H & _). now elim H.
  - apply str_eqb_neq in E. rewrite !in_app_iff. split.
    + intros [H | [H | H]].
      * destruct (str_eqb (exmvariable.get_grade i)
                          (exmvariable.get_grade j)) eqn:Eg;
          [|now destruct H].
        destruct (exmvariable.get_course i =? exmvariable.get_course j)
          eqn:Ec; [|now destruct H].
        cbn [andb] in H. destruct H as [[= <- <-] | []].
        apply str_eqb_eq in Eg. apply Z.eqb_eq in Ec. now repeat split.
      * destruct (exmconstraints.lookup _ _); [|easy].
        apply in_map_iff in H as (x & [=] & _).
      * destruct (exmconstraints.lookup _ _); [|easy].
        apply in_map_iff in H as (x & [=] & _).
    + intros (<- & <- & _ & Hg & Hc). left.
      apply str_eqb_eq in Hg. apply Z.eqb_eq in Hc. rewrite Hg, Hc.
      now left.
Qed.

(** X23. The phase of the constraints never binds an item to itself, and
    it binds the minimum gap between two items of the pool exactly when
    their cell names differ and they have the same grade and course; the
    gap between two items is then bound both ways round. *)
Theorem assembly_gap_bindings (poolvar : EXMPoolVar)
  (vs : list (exmvariable.EXMVariable * list EXMValue))
  (log : list message) :
  exists task',
    constraints_phase poolvar (mkproblem vs []) log = (Return task', log)
    /\ (forall b, In b (p_constraints task') -> b_first b <> b_second b)
    /\ (forall a c,
          In (mkbinding Pbi_difftime a c) (p_constraints task')
          <-> exists i j,
                In i (_vars poolvar) /\ In j (_vars poolvar)
                /\ exmvariable.get_cellname i = a
                /\ exmvariable.get_cellname j = c
                /\ a <> c
                /\ exmvariable.get_grade i = exmvariable.get_grade j
                /\ exmvariable.get_course i = exmvariable.get_course j)
    /\ (forall a c,
          In (mkbinding Pbi_difftime a c) (p_constraints task') ->
          In (mkbinding Pbi_difftime c a) (p_constraints task')).
Proof.
  unfold constraints_phase, ret. rewrite constraints_loops.
  cbn [p_variables p_constraints app]. eexists. split; [reflexivity|].
  cbn [p_constraints].
  assert (Hin : forall b,
             In b (flat_map (fun i => flat_map (pair_bindings i)
                                               (_vars poolvar))
                            (_vars poolvar))
             <-> exists i j, In i (_vars poolvar) /\ In j (_vars poolvar)
                             /\ In b (pair_bindings i j)).
  { intros b. rewrite in_flat_map. split.
    - intros (i & Hi & H). apply in_flat_map in H as (j & Hj & H). eauto.
    - intros (i & j & Hi & Hj & H). exists i. split; [easy|].
      apply in_flat_map. eauto. }
  assert (Hgap : forall a c,
             In (mkbinding Pbi_difftime a c)
                (flat_map (fun i => flat_map (pair_bindings i)
                                             (_vars poolvar))
                          (_vars poolvar))
             <-> exists i j,
                   In i (_vars poolvar) /\ In j (_vars poolvar)
                   /\ exmvariable.get_cellname i = a
                   /\ exmvariable.get_cellname j = c
                   /\ a <> c
                   /\ exmvariable.get_grade i = exmvariable.get_grade j
                   /\ exmvariable.get_course i = exmvariable.get_course j).
  { intros a c. rewrite Hin. split.
    - intros (i & j & Hi & Hj & H). exists i, j.
      apply in_pair_bindings_difftime in H. tauto.
    - intros (i & j & Hi & Hj & H). exists i, j.
      split; [easy|]. split; [easy|]. now apply in_pair_bindings_difftime. }
  split; [|split; [exact Hgap|]].
  - intros b Hb. apply Hin in Hb as (i & j & _ & _ & Hb).
    destruct (pair_bindings_names i j b Hb) as [-> ->].
    unfold pair_bindings in Hb.
    destruct (exmvariable.eq i j) eqn:E; [easy|].
    now apply str_eqb_neq in E.
  - intros a c H.
    apply Hgap in H as (i & j & Hi & Hj & Ha & Hc & Hne & Hg & Hco).
    apply Hgap. exists j, i. repeat split; easy || now apply not_eq_sym.
Qed.

Lemma assembly_gap_bindings_witness :
  exists task',
    constraints_phase (mkpool [may_item; after_c30] 0) (mkproblem [] []) []
    = (Return task', [])
    /\ In (mkbinding Pbi_difftime (txt "$GII.B21") (txt "$GII.B23"))
          (p_constraints task')
    /\ In (mkbinding Pbi_difftime (txt "$GII.B23") (txt "$GII.B21"))
          (p_constraints task').
Proof.
  destruct (assembly_gap_bindings (mkpool [may_item; after_c30] 0) [] [])
    as (task' & E & _ & Hgap & Hsym).
  exists task'. split; [exact E|].
  assert (H : In (mkbinding Pbi_difftime (txt "$GII.B21") (txt "$GII.B23"))
                 (p_constraints task')).
  { apply Hgap. exists may_item, after_c30.
    repeat split; simpl; auto; discriminate. }
  split; [exact H | exact (Hsym _ _ H)].
Defined.

(** ** Loading the indirections *)

Lemma in_members (v : exmvariable.EXMVariable) (poolvar : EXMPoolVar) :
  In v (members poolvar) -> In v (_vars poolvar).
Proof.
  unfold members. intros H.
  rewrite <- (firstn_skipn (_idx poolvar) (_vars poolvar)).
  apply in_or_app. now right.
Qed.

Lemma first_open_in (vars : list exmvariable.EXMVariable)
  (poolvar : EXMPoolVar) (i : nat) (ikey : str) :
  first_open vars poolvar = Some (i, ikey) ->
  exists u, In u vars
            /\ In ikey (exmconstraints.keys
                          (exmvariable.get_date_biconstraints u))
            /\ contains ikey poolvar = false.
Proof.
  revert i. induction vars as [|v l IH]; intros i; cbn [first_open];
    [discriminate|].
  destruct (first_missing _ poolvar) as [k|] eqn:E.
  - intros [= <- <-]. exists v. split; [now left|].
    apply first_missing_some in E as (b & a & -> & _ & Hk).
    split; [|easy]. apply in_or_app. right. now left.
  - destruct (first_open l poolvar) as [[n k]|]; [|discriminate].
    intros [= <- <-]. destruct (IH n eq_refl) as (u & Hu & H).
    exists u. split; [now right | easy].
Qed.

(** What a search for an indirection leaves and what it found. *)
Lemma get_next_indirect_outcome (poolvar poolvar' : EXMPoolVar)
  (indirect : option (str * str * Z)) (log log' : list message) :
  get_next_indirect poolvar log = (Return (indirect, poolvar'), log') ->
  _vars poolvar' = _vars poolvar
  /\ (indirect = None -> _idx poolvar' = O)
  /\ (forall sheet column row,
        indirect = Some (sheet, column, row) ->
        exists u ikey,
          In u (_vars poolvar)
          /\ In ikey (exmconstraints.keys
                        (exmvariable.get_date_biconstraints u))
          /\ contains ikey poolvar = false
          /\ exists m, RE_CELLNAME ikey = Some m
                       /\ sheet = cm_sheet m /\ column = cm_column m
                       /\ row = int_of_digits (cm_row m)).
Proof.
  rewrite get_next_indirect_first_open.
  destruct (first_open (members poolvar) poolvar) as [[i ikey]|] eqn:E.
  - apply first_open_in in E as (u & Hu & Hk & Hc).
    unfold bind, register_location.
    destruct (RE_CELLNAME ikey) as [m|] eqn:Em; cbn;
      [intros [= <- <- _] | discriminate].
    split; [easy|]. split; [discriminate|].
    intros sheet column row [= <- <- <-].
    exists u, ikey. split; [now apply in_members|].
    split; [easy|]. split; [easy|]. now exists m.
  - intros [= <- <- _]. split; [easy|]. split; [easy|]. discriminate.
Qed.

Lemma find_sheet_in (book : Book) (sheetname : str) (rows : list Row) :
  find_sheet book sheetname = Some rows -> In (sheetname, rows) book.
Proof.
  induction book as [|[n l] book IH]; cbn [find_sheet]; [discriminate|].
  destruct (str_eqb n sheetname) eqn:E.
  - intros [= ->]. apply str_eqb_eq in E as ->. now left.
  - intros H. right. now apply IH.
Qed.

Lemma get_variable_loaded (master : Book) (sheetname column : str)
  (row : Z) (log log' : list message) (v : exmvariable.EXMVariable) :
  get_variable master sheetname column row log = (Return v, log') ->
  well_kept v
  /\ exmvariable.get_cellname v
     = txt "$" ++ sheetname ++ txt "." ++ column ++ str_of_int row
  /\ In (exmvariable.get_cellname v) (registers master).
Proof.
  unfold get_variable, SpsReader, bind.
  destruct (find_sheet master sheetname) as [rows|] eqn:Hs; [|discriminate].
  cbn [ret]. intros H. apply find_sheet_in in Hs.
  apply get_variable_rows_built in H
    as (b & irow & a & -> & _ & <- & <- & Hv).
  split; [now apply built_well_kept in Hv|].
  apply built_fields in Hv as (-> & _). split; [easy|].
  unfold registers. apply in_flat_map. exists (sheetname, b ++ irow :: a).
  split; [easy|]. cbn [fst snd].
  apply (in_map (fun r => txt "$" ++ sheetname ++ txt "." ++
                          Asignatura_column r
                          ++ str_of_int (Asignatura_row r))).
  apply in_or_app. right. now left.
Qed.

Lemma filter_length_lt {A} (f g : A -> bool) (l : list A) (x : A) :
  In x l -> f x = true -> g x = false ->
  (forall y, g y = true -> f y = true) ->
  (List.length (filter g l) < List.length (filter f l))%nat.
Proof.
  intros Hx Hf Hg Hgf.
  assert (Hle : forall l', (List.length (filter g l')
                            <= List.length (filter f l'))%nat).
  { induction l' as [|y l' IH]; cbn [filter]; [easy|].
    destruct (g y) eqn:E.
    - rewrite (Hgf y E). cbn [List.length]. lia.
    - destruct (f y); cbn [List.length]; lia. }
  induction l as [|y l IH]; [easy|]. cbn [filter].
  destruct Hx as [-> | Hx].
  - rewrite Hf, Hg. cbn [List.length]. specialize (Hle l). lia.
  - specialize (IH Hx). destruct (g y) eqn:E.
    + rewrite (Hgf y E). cbn [List.length]. lia.
    + destruct (f y); cbn [List.length]; lia.
Qed.

Lemma contains_iadd (n : str) (v : exmvariable.EXMVariable)
  (poolvar : EXMPoolVar) :
  contains n (iadd [v] poolvar)
  = contains n poolvar || exmvariable.eq_str v n.
Proof.
  unfold contains, iadd. cbn [_vars]. rewrite existsb_app. cbn [existsb].
  now rewrite orb_false_r.
Qed.

Lemma contains_vars (n : str) (p q : EXMPoolVar) :
  _vars p = _vars q -> contains n p = contains n q.
Proof. unfold contains. now intros ->. Qed.

(** A register that is loaded leaves fewer registers to load. *)
Lemma remaining_iadd (master : Book) (v : exmvariable.EXMVariable)
  (poolvar q : EXMPoolVar) :
  In (exmvariable.get_cellname v) (registers master) ->
  contains (exmvariable.get_cellname v) poolvar = false ->
  _vars q = _vars (iadd [v] poolvar) ->
  (List.length (remaining master q)
   < List.length (remaining master poolvar))%nat.
Proof.
  intros Hin Hc Hq. unfold remaining.
  apply (filter_length_lt _ _ _ (exmvariable.get_cellname v)); [easy | | |].
  - now rewrite Hc.
  - rewrite (contains_vars _ q _ Hq), contains_iadd.
    unfold exmvariable.eq_str. rewrite str_eqb_refl. now rewrite orb_true_r.
  - intros y. rewrite (contains_vars _ q _ Hq), contains_iadd.
    now destruct (contains y poolvar).
Qed.

Lemma canonical_key_name (ikey : str) (m : CellMatch) :
  canonical_key ikey = true -> RE_CELLNAME ikey = Some m ->
  ikey = txt "$" ++ cm_sheet m ++ txt "." ++ cm_column m
         ++ str_of_int (int_of_digits (cm_row m)).
Proof.
  unfold canonical_key. intros H E. rewrite E in H. now apply str_eqb_eq.
Qed.

(** The loop ends: every round that does not stop the run loads a register
    that the pool did not hold. *)
Lemma load_indirects_loop_ends (master : Book)
  (Hload : forall sheet column row log v log',
      get_variable master sheet column row log = (Return v, log') ->
      forallb canonical_key
        (exmconstraints.keys (exmvariable.get_date_biconstraints v)) = true)
  (fuel : nat) :
  forall indirect poolvar log,
    (forall v, In v (_vars poolvar) ->
       forallb canonical_key
         (exmconstraints.keys (exmvariable.get_date_biconstraints v))
       = true) ->
    (indirect = None -> _idx poolvar = O) ->
    (forall sheet column row,
       indirect = Some (sheet, column, row) ->
       contains (txt "$" ++ sheet ++ txt "." ++ column ++ str_of_int row)
                poolvar = false) ->
    (List.length (remaining master poolvar) < fuel)%nat ->
    (exists e log',
       load_indirects_loop fuel master indirect poolvar log = (Raise e, log'))
    \/ (exists added log',
          load_indirects_loop fuel master indirect poolvar log
          = (Return (Some (mkpool (_vars poolvar ++ added) 0)), log')
          /\ Forall (fun v => well_kept v
                              /\ In (exmvariable.get_cellname v)
                                    (registers master)) added).
Proof.
  induction fuel as [|fuel IH]; intros indirect poolvar log Hk H0 Hm Hf;
    [inversion Hf|].
  destruct indirect as [[[sheet column] row]|]; cbn [load_indirects_loop].
  2:{ right. exists [], log. rewrite app_nil_r. split; [|constructor].
      unfold ret. destruct poolvar as [vars idx]. cbn [_vars _idx] in *.
      now rewrite (H0 eq_refl). }
  unfold bind.
  destruct (get_variable master sheet column row log)
    as [[v|e] log0] eqn:Hv; [|left; eauto].
  pose proof (Hload _ _ _ _ _ _ Hv) as Hkv.
  apply get_variable_loaded in Hv as (Hw & Hname & Hreg).
  destruct (get_next_indirect (iadd [v] poolvar) log0)
    as [[[ind q]|e] log1] eqn:Hq; [|left; eauto].
  cbn [fst snd].
  apply get_next_indirect_outcome in Hq as (Hvars & Hidx & Hfound).
  assert (Hc : contains (exmvariable.get_cellname v) poolvar = false)
    by (rewrite Hname; now apply Hm).
  assert (Hkq : forall u, In u (_vars q) ->
            forallb canonical_key
              (exmconstraints.keys (exmvariable.get_date_biconstraints u))
            = true).
  { intros u Hu. rewrite Hvars in Hu. cbn [iadd _vars] in Hu.
    apply in_app_or in Hu as [Hu | [<- | []]]; [now apply Hk | easy]. }
  assert (Hmq : forall s c r,
            ind = Some (s, c, r) ->
            contains (txt "$" ++ s ++ txt "." ++ c ++ str_of_int r) q
            = false).
  { intros s c r ->.
    destruct (Hfound s c r eq_refl)
      as (u & ikey & Hu & Hin & Hmiss & m & Em & -> & -> & ->).
    assert (Hcan : canonical_key ikey = true).
    { assert (Hall := Hkq u). rewrite Hvars in Hall.
      specialize (Hall Hu). rewrite forallb_forall in Hall.
      now apply Hall. }
    rewrite <- (canonical_key_name _ _ Hcan Em).
    now rewrite (contains_vars _ q (iadd [v] poolvar) Hvars). }
  assert (Hfq : (List.length (remaining master q) < fuel)%nat).
  { pose proof (remaining_iadd master v poolvar q Hreg Hc Hvars). lia. }
  destruct (IH ind q log1 Hkq Hidx Hmq Hfq)
    as [(e & log' & ->) | (added & log' & -> & Ha)].
  - left. eauto.
  - right. exists (v :: added), log'. rewrite Hvars. cbn [iadd _vars].
    rewrite <- app_assoc. split; [easy|]. constructor; [now split|easy].
Qed.

(** X4. Loading the indirections ends when every key is canonical, that is
    written as the cell name of the register it names, in the items of the
    pool and in every item that [get_variable] builds from the book: after
    at most as many rounds as the book has rows, either an error has
    stopped the run or the pool is the one before followed by the items
    loaded, each built by [get_variable] from a row of the book with its
    mappings well kept, and the counter of the pool is at the start. *)
Theorem load_indirects_ends (fuel : nat) (master : Book)
  (poolvar : EXMPoolVar) (log : list message) :
  (forall v, In v (_vars poolvar) ->
     forallb canonical_key
       (exmconstraints.keys (exmvariable.get_date_biconstraints v)) = true) ->
  (forall sheet column row log0 v log1,
     get_variable master sheet column row log0 = (Return v, log1) ->
     forallb canonical_key
       (exmconstraints.keys (exmvariable.get_date_biconstraints v)) = true) ->
  (List.length (registers master) < fuel)%nat ->
  (exists e log',
     load_indirects_phase fuel master true poolvar log = (Raise e, log'))
  \/ (exists added log',
        load_indirects_phase fuel master true poolvar log
        = (Return (Some (mkpool (_vars poolvar ++ added) 0)), log')
        /\ Forall (fun v => well_kept v
                            /\ In (exmvariable.get_cellname v)
                                  (registers master)) added).
Proof.
  intros Hk Hload Hf. unfold load_indirects_phase, bind.
  destruct (get_next_indirect poolvar log) as [[[ind q]|e] log0] eqn:Hq;
    [|left; eauto].
  cbn [fst snd].
  apply get_next_indirect_outcome in Hq as (Hvars & Hidx & Hfound).
  rewrite <- Hvars.
  apply (load_indirects_loop_ends master Hload).
  - intros u Hu. apply Hk. now rewrite <- Hvars.
  - exact Hidx.
  - intros s c r ->.
    destruct (Hfound s c r eq_refl)
      as (u & ikey & Hu & Hin & Hmiss & m & Em & -> & -> & ->).
    assert (Hcan : canonical_key ikey = true).
    { specialize (Hk u Hu). rewrite forallb_forall in Hk. now apply Hk. }
    rewrite <- (canonical_key_name _ _ Hcan Em).
    now rewrite (contains_vars _ q poolvar Hvars).
  - unfold remaining.
    pose proof (filter_length_le (fun n => negb (contains n q))
                  (registers master)). lia.
Qed.

Lemma get_variable_from_row (master : Book) (sheetname column : str)
  (row : Z) (log log' : list message) (v : exmvariable.EXMVariable) :
  get_variable master sheetname column row log = (Return v, log') ->
  exists rows irow env',
    In (sheetname, rows) master /\ In irow rows
    /\ build_variable sheetname (Asignatura_column irow)
         (Asignatura_row irow) irow (mklocals None None) log
       = (Return (v, env'), log').
Proof.
  unfold get_variable, SpsReader, bind.
  destruct (find_sheet master sheetname) as [rows|] eqn:Hs; [|discriminate].
  cbn [ret]. intros H. apply find_sheet_in in Hs.
  exists rows.
  assert (Hr : exists irow env',
             In irow rows
             /\ build_variable sheetname (Asignatura_column irow)
                  (Asignatura_row irow) irow (mklocals None None) log
                = (Return (v, env'), log')).
  { clear Hs. induction rows as [|irow rows IH];
      cbn [get_variable_rows] in H; [discriminate|].
    destruct (str_eqb (Asignatura_column irow) column) eqn:Ec;
      destruct (Asignatura_row irow =? row) eqn:Er; cbn [negb orb] in H;
      try (destruct (IH H) as (r & env' & Hin & Hb);
           exists r, env'; split; [now right | easy]).
    apply str_eqb_eq in Ec as <-. apply Z.eqb_eq in Er as <-.
    unfold bind in H.
    destruct (build_variable _ _ _ _ _ _) as [[[v0 env0]|e] log0] eqn:Hb;
      [|discriminate].
    injection H as <- <-. exists irow, env0. split; [now left | easy]. }
  destruct Hr as (irow & env' & Hin & Hb). now exists irow, env'.
Qed.

Lemma load_indirects_ends_witness :
  (exists e log',
     load_indirects_phase 4 sheet_two_references true
       (iadd [with_two_references] exmpoolvar.init) [] = (Raise e, log'))
  \/ (exists added log',
        load_indirects_phase 4 sheet_two_references true
          (iadd [with_two_references] exmpoolvar.init) []
        = (Return
             (Some (mkpool
                      (_vars (iadd [with_two_references] exmpoolvar.init)
                       ++ added) 0)), log')
        /\ Forall (fun v => well_kept v
                            /\ In (exmvariable.get_cellname v)
                                  (registers sheet_two_references)) added).
Proof.
  apply load_indirects_ends.
  - intros v [<- | []]. reflexivity.
  - intros sheet column row log0 v log1 H.
    apply get_variable_from_row in H
      as (rows & irow & env' & [[= <- <-] | []] & Hi & Hb).
    destruct Hi as [<- | [<- | [<- | []]]];
      vm_compute in Hb; injection Hb as <- _ _; reflexivity.
  - simpl. lia.
Defined.
